(** * itchio/bob: the helpers of [index.js]

    A shallow embedding of [downloadToStream] (index.js, lines 203-328), of
    the other helpers the file exports and of the JavaScript primitives they
    rely on, followed by their properties.

    Definitions:
    - [Binary64]: rounding of rationals to IEEE-754 double precision, the
      arithmetic behind every JavaScript number.
    - [JsNum]: JavaScript numbers (NaN, the infinities, signed zeros, finite
      doubles) with the operators the routine uses, and [parseInt].
    - [Download]: the routine itself: redirect resolution, the progress
      state, [showProgress], [onData], the listeners and the event loop
      that drives them; then the observations made on a run and the hosts
      of the examples.
    - [Format]: [Number.prototype.toFixed] and the printing of integers;
      [formatPercent].
    - [Runs]: further observations on a run.
    - [Shell]: [chalk], [info], [header], [debug], [$], [$$], [isVerbose],
      [setVerbose], [detectOS], [prompt], [yesno], [confirm], [cd],
      [setenv] and [sizeof], over the state of the process.

    Properties:
    - [Binary64Facts], [JsNumFacts], [DotsFacts]: rounding is monotone and
      exact on integers up to [2^53]; the unit count of line 284.
    - [ShapeFacts], [TraceFacts], [ProgressFacts], [TransferFacts]: what
      [showProgress], [onData] and the event loop do on a transfer with a
      declared total.
    - [HangFacts]: the loop of lines 287-290 on a total that is [NaN].
    - [OrderFacts]: the order of events and actions in every run.
    - [Illustrations]: worked values.
    - [RunFacts]: what holds of every run, whatever the events: exceptions,
      outcome, forwarding, clean-up, logging, the moment of completion.
    - [FormatFacts]: decimal digits read and written.
    - [Claims]: the statements about [downloadToStream].
    - [DownloadProperties]: further statements about every run.
    - [Formatting]: [formatSize] and [formatPercent].
    - [ShellProperties]: the shell helpers. *)

From Stdlib Require Import ZArith QArith Qround Qpower Qreduction Qabs Lia Lqa.
From Stdlib Require Import List Bool String Ascii DecimalString Sorted.
From Stdlib Require DecimalN DecimalPos Nnat.
Import ListNotations.

(** ** Double-precision rounding *)

Module Binary64.

Local Open Scope Q_scope.

(** Precision (53 bits) and the exponent of the smallest subnormal. *)
Definition prec : Z := 53.
Definition emin : Z := -1074.

Definition pow2 (e : Z) : Q := (2 # 1) ^ e.

(** [ilog2 q] is the binade of a positive rational: [2^l <= q < 2^(l+1)]. *)
Definition ilog2 (q : Q) : Z :=
  let l := (Z.log2 (Qnum q) - Z.log2 (Zpos (Qden q)))%Z in
  if Qle_bool (pow2 l) q then l else (l - 1)%Z.

(** Exponent of the unit in the last place of the binade of [q]. *)
Definition ulp_exp (q : Q) : Z := Z.max (ilog2 q - (prec - 1)) emin.

(** Round to the nearest integer, ties to even. *)
Definition rne (q : Q) : Z :=
  let f := Qfloor q in
  match Qcompare (q - inject_Z f) (1 # 2) with
  | Lt => f
  | Gt => (f + 1)%Z
  | Eq => if Z.even f then f else (f + 1)%Z
  end.

(** [fl q]: the magnitude [q >= 0] rounded to the nearest double (ties to
    even), before the overflow test. *)
Definition fl (q : Q) : Q :=
  if Qle_bool q 0 then 0
  else let e := ulp_exp q in Qred (inject_Z (rne (q / pow2 e)) * pow2 e).

(** Rounded magnitudes from [2^1024] on overflow to infinity. *)
Definition overflows (q : Q) : bool := Qle_bool (pow2 1024) q.

End Binary64.

(** ** JavaScript numbers *)

Module JsNum.

Import Binary64.
Local Open Scope Q_scope.

(** A Number is NaN, an infinity or a finite double, kept as a sign and a
    magnitude so that [+0] and [-0] are distinct ([Fin true 0] is [-0]). *)
Inductive num : Type :=
| NaN
| Inf (neg : bool)
| Fin (neg : bool) (mag : Q).

(** Signed value of a finite number. *)
Definition sval (neg : bool) (mag : Q) : Q := if neg then - mag else mag.

(** Rounding of an exact magnitude to a Number of the given sign. *)
Definition round (neg : bool) (mag : Q) : num :=
  let r := fl mag in
  if overflows r then Inf neg else Fin neg r.

Definition of_Z (z : Z) : num := round (z <? 0)%Z (inject_Z (Z.abs z)).
Definition of_nat (n : nat) : num := of_Z (Z.of_nat n).

Definition neg (a : num) : num :=
  match a with
  | NaN => NaN
  | Inf s => Inf (negb s)
  | Fin s m => Fin (negb s) m
  end.

(** [a + b]. An exact zero sum is [-0] only when both operands are
    negative. *)
Definition add (a b : num) : num :=
  match a, b with
  | NaN, _ | _, NaN => NaN
  | Inf sa, Inf sb => if Bool.eqb sa sb then Inf sa else NaN
  | Inf sa, Fin _ _ => Inf sa
  | Fin _ _, Inf sb => Inf sb
  | Fin sa ma, Fin sb mb =>
      let v := sval sa ma + sval sb mb in
      if Qeq_bool v 0 then Fin (sa && sb) 0
      else round (negb (Qle_bool 0 v)) (Qabs v)
  end.

(** [a - b]. *)
Definition sub (a b : num) : num := add a (neg b).

(** [a * b]. *)
Definition mul (a b : num) : num :=
  match a, b with
  | NaN, _ | _, NaN => NaN
  | Inf sa, Inf sb => Inf (xorb sa sb)
  | Inf sa, Fin sb mb => if Qeq_bool mb 0 then NaN else Inf (xorb sa sb)
  | Fin sa ma, Inf sb => if Qeq_bool ma 0 then NaN else Inf (xorb sa sb)
  | Fin sa ma, Fin sb mb => round (xorb sa sb) (ma * mb)
  end.

(** [a / b]. *)
Definition div (a b : num) : num :=
  match a, b with
  | NaN, _ | _, NaN => NaN
  | Inf _, Inf _ => NaN
  | Inf sa, Fin sb _ => Inf (xorb sa sb)
  | Fin sa _, Inf sb => Fin (xorb sa sb) 0
  | Fin sa ma, Fin sb mb =>
      if Qeq_bool mb 0 then
        if Qeq_bool ma 0 then NaN else Inf (xorb sa sb)
      else round (xorb sa sb) (ma / mb)
  end.

(** [a % b]: the remainder has the sign of the dividend and is exact. *)
Definition rem (a b : num) : num :=
  match a, b with
  | NaN, _ | _, NaN => NaN
  | Inf _, _ => NaN
  | Fin sa ma, Inf _ => Fin sa ma
  | Fin sa ma, Fin _ mb =>
      if Qeq_bool mb 0 then NaN
      else Fin sa (Qred (ma - mb * inject_Z (Qfloor (ma / mb))))
  end.

(** [Math.floor] and [Math.ceil]. *)
Definition floor (a : num) : num :=
  match a with
  | NaN => NaN
  | Inf s => Inf s
  | Fin false m => Fin false (inject_Z (Qfloor m))
  | Fin true m => Fin true (inject_Z (Qceiling m))
  end.

Definition ceil (a : num) : num :=
  match a with
  | NaN => NaN
  | Inf s => Inf s
  | Fin false m => Fin false (inject_Z (Qceiling m))
  | Fin true m => Fin true (inject_Z (Qfloor m))
  end.

(** [a < b]; every comparison with NaN is false. *)
Definition lt (a b : num) : bool :=
  match a, b with
  | NaN, _ | _, NaN => false
  | Inf sa, Inf sb => sa && negb sb
  | Inf sa, Fin _ _ => sa
  | Fin _ _, Inf sb => negb sb
  | Fin sa ma, Fin sb mb => negb (Qle_bool (sval sb mb) (sval sa ma))
  end.

(** [a == b] on Numbers (also [===]): NaN differs from itself, the two zeros
    are equal. *)
Definition eq (a b : num) : bool :=
  match a, b with
  | NaN, _ | _, NaN => false
  | Inf sa, Inf sb => Bool.eqb sa sb
  | Inf _, Fin _ _ | Fin _ _, Inf _ => false
  | Fin sa ma, Fin sb mb => Qeq_bool (sval sa ma) (sval sb mb)
  end.

(** [a != b], [a > b], [a >= b]. *)
Definition neq (a b : num) : bool := negb (eq a b).
Definition gt (a b : num) : bool := lt b a.
Definition ge (a b : num) : bool := lt b a || eq a b.

(** The array index a Number denotes as a property key, if any: a
    non-negative integer ([-0] reads as [0]). *)
Definition to_index (a : num) : option nat :=
  match a with
  | Fin s m =>
      if Qeq_bool m (inject_Z (Qfloor m)) && (negb s || Qeq_bool m 0)
      then Some (Z.to_nat (Qfloor m)) else None
  | _ => None
  end.

(** *** [parseInt(s, 10)] *)

(** White space among the code units a header value can hold. *)
Definition is_white_space (c : ascii) : bool :=
  let n := nat_of_ascii c in
  ((9 <=? n) && (n <=? 13) || (n =? 32) || (n =? 160))%nat.

Fixpoint trim_start (s : string) : string :=
  match s with
  | String c r => if is_white_space c then trim_start r else s
  | EmptyString => s
  end.

Definition digit_of (c : ascii) : option Z :=
  let n := nat_of_ascii c in
  if ((48 <=? n) && (n <=? 57))%nat then Some (Z.of_nat (n - 48)) else None.

(** Value of the longest prefix of decimal digits, [None] when it is
    empty. *)
Fixpoint digits (acc : option Z) (s : string) : option Z :=
  match s with
  | String c r =>
      match digit_of c with
      | Some d =>
          digits (Some (10 * match acc with Some a => a | None => 0 end + d)%Z) r
      | None => acc
      end
  | EmptyString => acc
  end.

Definition parseInt (s : string) : num :=
  let s := trim_start s in
  let '(sign, s) :=
    match s with
    | String "-"%char r => (true, r)
    | String "+"%char r => (false, r)
    | _ => (false, s)
    end in
  match digits None s with
  | None => NaN
  | Some n => round sign (inject_Z n)
  end.

End JsNum.

(** ** The download routine *)

Module Download.

Import JsNum.
Local Open Scope string_scope.

(** *** Values *)

Definition Buffer : Type := list Byte.byte.

(** Exceptions: [new Error(message)], a [TypeError] of the runtime (by its
    code) and the errors the network and the file system report. *)
Inductive JsError : Type :=
| Error (message : string)
| TypeError (code : string)
| SystemError (code : string).

(** Events the event loop delivers once the listeners of lines 293-309 are
    attached.  The listener of lines 216-219 stays on the request when its
    response has arrived, so an ["error"] of the request is among them. *)
Inductive Event : Type :=
| ResData (data : Buffer)   (* res "data" *)
| ResClose                  (* res "close" *)
| ResAborted                (* res "aborted" *)
| OutClose                  (* out "close": the sink confirms its closure *)
| OutError (e : JsError)    (* out "error" *)
| ReqFailed (e : JsError).  (* req "error", once the response has arrived *)

(** A response.  [headers] is the [res.headers] object.  [events] is what
    the event loop delivers, in order, once listeners are attached to this
    response and to the sink: the events of the response, of the sink and
    of the request that was answered.  A call that ends before line 293,
    on a redirect it cannot follow or on a status other than 200, attaches
    none of these listeners, and its trace ends where it fails; a redirect
    response is destroyed at once and delivers nothing. *)
Record IncomingMessage : Type := {
  statusCode : N;
  headers : list (string * string);
  events : list Event
}.

(** What the promise of lines 205-221 is settled by: an ["error"] of the
    request before any response, or the response. *)
Inductive Reply : Type :=
| ReqError (e : JsError)             (* req "error", no response yet *)
| Response (res : IncomingMessage).  (* the callback of https.request *)

(** The two fields of a WHATWG URL the program reads. *)
Record URL : Type := {
  protocol : string;
  hostname : string
}.

(** What the routine takes from its host: the module-level [verbose] flag,
    the network ([net k url] answers the request for [url] made after [k]
    earlier requests), the URL parser behind [new URL] and [https.request],
    and the number formatting of [Number.prototype.toFixed] and of template
    literals. *)
Class Host : Type := {
  verbose : bool;
  net : nat -> string -> Reply;
  URL_parse : string -> option URL;
  toFixed : num -> nat -> string;
  ToString : num -> string
}.

(** Lines written by [console.log] and [console.warn], by content. *)
Inductive Msg : Type :=
| GotError (e : JsError)        (* "Got error: ..." *)
| RedirectedTo (host : string)  (* "Redirected to ..." *)
| IOError (e : JsError)         (* "I/O error: ..." *)
| RequestAborted                (* "Request aborted!" *)
| Downloaded (size : string).   (* "Downloaded ... in ..., average DL speed ..." *)

(** Everything observable, in the order it happens. *)
Inductive Action : Type :=
| Request (url : string)    (* https.request(url, {method: "GET"}), req.end() *)
| Destroy                   (* res.destroy() *)
| ConsoleLog (m : Msg)
| ConsoleWarn (m : Msg)
| StdoutWrite (s : string)  (* process.stdout.write *)
| SinkWrite (data : Buffer) (* out.write *)
| SinkClose                 (* out.close() *)
| Emitted (ev : Event).     (* an event reaches its listener *)

(** The [state] object of lines 236-242. *)
Record State : Type := {
  doneSize : num;
  totalSize : num;
  currentDots : num;
  totalDots : num;
  prefix : string
}.

(** The promise of lines 298-310. *)
Inductive Promise : Type :=
| Pending
| Resolved
| Rejected (e : JsError).

Record Heap : Type := {
  state : State;
  promise : Promise;
  trace : list Action
}.

(** *** Computations: heap passing, exceptions and fuel for loops *)

Inductive Completion (A : Type) : Type :=
| Normal (a : A)
| Throw (e : JsError).

Arguments Normal {A} a.
Arguments Throw {A} e.

(** [None] is a computation that ran out of fuel. *)
Definition M (A : Type) : Type := Heap -> option (Completion A * Heap).

Definition ret {A} (a : A) : M A := fun h => Some (Normal a, h).

Definition throw {A} (e : JsError) : M A := fun h => Some (Throw e, h).

Definition bind {A B} (m : M A) (k : A -> M B) : M B :=
  fun h =>
    match m h with
    | Some (Normal a, h') => k a h'
    | Some (Throw e, h') => Some (Throw e, h')
    | None => None
    end.

Notation "x <- m ;; k" := (bind m (fun x => k))
  (at level 61, m at next level, right associativity).
Notation "m ;; k" := (bind m (fun _ => k))
  (at level 61, right associativity).

Definition get_state : M State := fun h => Some (Normal (state h), h).

(** The heap with [st] for its [state] object. *)
Definition with_state (st : State) (h : Heap) : Heap :=
  {| state := st; promise := promise h; trace := trace h |}.

Definition modify_state (f : State -> State) : M unit :=
  fun h => Some (Normal tt, with_state (f (state h)) h).

(** The heap after performing the actions [l]. *)
Definition record (l : list Action) (h : Heap) : Heap :=
  {| state := state h; promise := promise h; trace := (trace h ++ l)%list |}.

Definition emit (a : Action) : M unit :=
  fun h => Some (Normal tt, record [a] h).

(** Settling a promise that is already settled does nothing. *)
Definition settle (p : Promise) : M unit :=
  fun h => Some (Normal tt,
                 {| state := state h;
                    promise := match promise h with Pending => p | q => q end;
                    trace := trace h |}).

(** [while (cond) body], over the local variables [l]. *)
Fixpoint while {L} (fuel : nat) (cond : L -> State -> bool) (body : L -> M L)
  (l : L) : M L :=
  fun h =>
    match fuel with
    | O => None
    | S fuel' =>
        if cond l (state h) then
          match body l h with
          | Some (Normal l', h') => while fuel' cond body l' h'
          | r => r
          end
        else Some (Normal l, h)
    end.

Definition set_doneSize (v : num) (s : State) : State :=
  {| doneSize := v; totalSize := totalSize s; currentDots := currentDots s;
     totalDots := totalDots s; prefix := prefix s |}.

Definition set_currentDots (v : num) (s : State) : State :=
  {| doneSize := doneSize s; totalSize := totalSize s; currentDots := v;
     totalDots := totalDots s; prefix := prefix s |}.

(** *** Helpers of index.js *)

Section WithHost.

Context {host : Host}.

(** [formatSize], lines 20-31. *)
Definition formatSize (b : num) : string :=
  let KiB := of_Z 1024 in
  let MiB := mul (of_Z 1024) KiB in
  if gt b MiB then toFixed (div b MiB) 2 ++ " MiB"
  else if gt b KiB then toFixed (div b KiB) 0 ++ " KiB"
  else ToString b ++ " B".

(** [debug], lines 72-78. *)
Definition debug (m : Msg) : M unit :=
  if negb verbose then ret tt else emit (ConsoleLog m).

(** [process.stdout.write(chunk)]: a chunk that is [undefined] is a
    [TypeError]. *)
Definition stdout_write (chunk : option string) : M unit :=
  match chunk with
  | Some s => emit (StdoutWrite s)
  | None => throw (TypeError "ERR_INVALID_ARG_TYPE")
  end.

(** *** [theme], lines 246-251 *)

Record Theme : Type := {
  chunks : list string;
  start : string;
  end_ : string;
  filler : string
}.

Definition theme : Theme := {|
  chunks := [" "; "▏"; "▎"; "▍"; "▌"; "▋"; "▊"; "▉"; "█"];
  start := "▐";
  end_ := "▌";
  filler := " "
|}.

Definition CR : string := String (ascii_of_nat 13) EmptyString.

(** [theme.chunks[chunk]]: [undefined] unless [chunk] is an index of the
    array. *)
Definition chunks_at (chunk : num) : option string :=
  match to_index chunk with
  | Some i => nth_error (chunks theme) i
  | None => None
  end.

(** *** [showProgress], lines 253-276 *)

(** The loop of lines 261-270, over the locals [units] and [remainWidth]. *)
Definition units_cond : num * num -> State -> bool :=
  fun '(units, _) _ => gt units (of_Z 0).

Definition units_body : num * num -> M (num * num) :=
  fun '(units, remainWidth) =>
    let chunk := rem units (of_Z 8) in
    let chunk := if ge units (of_Z 8) then of_Z 8 else chunk in
    let char := chunks_at chunk in
    stdout_write char ;;
    ret (sub units chunk, sub remainWidth (of_Z 1)).

(** The loop of lines 271-274, over the local [remainWidth]. *)
Definition filler_cond : num -> State -> bool :=
  fun remainWidth _ => gt remainWidth (of_Z 0).

Definition filler_body : num -> M num :=
  fun remainWidth =>
    stdout_write (Some (filler theme)) ;;
    ret (sub remainWidth (of_Z 1)).

Definition suffix_of (st : State) : string :=
  formatSize (doneSize st) ++ " / " ++ formatSize (totalSize st).

Definition showProgress (fuel : nat) : M unit :=
  st <- get_state ;;
  let suffix := suffix_of st in
  stdout_write (Some (CR ++ start theme)) ;;
  let units := currentDots st in
  let remainWidth := ceil (div (totalDots st) (of_Z 8)) in
  locals <- while fuel units_cond units_body (units, remainWidth) ;;
  while fuel filler_cond filler_body (snd locals) ;;
  stdout_write (Some (end_ theme ++ " " ++ suffix)).

(** *** [onData], lines 282-292 *)

(** The loop of lines 287-290; [currentDots'] is the local of line 284. *)
Definition dots_cond (currentDots' : num) : unit -> State -> bool :=
  fun _ s => neq (currentDots s) currentDots'.

Definition dots_body (fuel : nat) (currentDots' : num) : unit -> M unit :=
  fun _ =>
    modify_state (set_currentDots currentDots') ;;
    showProgress fuel.

Definition onData (fuel : nat) (data : Buffer) : M unit :=
  modify_state (fun s =>
    set_doneSize (add (doneSize s) (of_nat (List.length data))) s) ;;
  st <- get_state ;;
  let currentDots' :=
    floor (mul (div (doneSize st) (totalSize st)) (totalDots st)) in
  while fuel (dots_cond currentDots') (dots_body fuel currentDots') tt ;;
  emit (SinkWrite data).

(** *** The listeners of lines 293-309 and of lines 216-219 *)

(** The promise in the heap is the one of lines 293-310.  The [reject] of
    line 218 belongs to the promise of lines 205-221, which the response has
    resolved: once a response is there it does nothing, and the line of
    line 217 is all that is left of the request's listener. *)
Definition listener (fuel : nat) (ev : Event) : M unit :=
  match ev with
  | ResData data => onData fuel data
  | ResClose => emit SinkClose
  | OutClose => settle Resolved
  | OutError e => emit (ConsoleWarn (IOError e)) ;; settle (Rejected e)
  | ResAborted =>
      emit (ConsoleWarn RequestAborted) ;;
      settle (Rejected (Error "Request aborted"))
  | ReqFailed e => emit (ConsoleLog (GotError e))
  end.

(** Lines 312-327, run once the awaited promise is resolved.  The clock is
    not modelled: the report is kept by the size it names. *)
Definition blank_line : string :=
  CR ++ "                                                       " ++ CR.

Definition report : M unit :=
  stdout_write (Some blank_line) ;;
  st <- get_state ;;
  debug (Downloaded (formatSize (totalSize st))).

(** *** The event loop while the routine awaits *)

(** How a call of [downloadToStream] stands: still awaiting, returned,
    rejected with an error, or the process ended by an exception that
    escaped a listener. *)
Inductive Outcome : Type :=
| Waiting
| Fulfilled
| Failed (e : JsError)
| Crashed (e : JsError).

(** The continuation of [await] runs when the listener that settled the
    promise has returned, before the next event is delivered.  Listeners
    stay attached after the call has settled. *)
Fixpoint deliver (fuel : nat) (evs : list Event) (o : Outcome)
  : Heap -> option (Outcome * Heap) :=
  fun h =>
    match evs with
    | [] => Some (o, h)
    | ev :: evs' =>
        match (emit (Emitted ev) ;; listener fuel ev) h with
        | None => None
        | Some (Throw e, h') => Some (Crashed e, h')
        | Some (Normal _, h') =>
            match o, promise h' with
            | Waiting, Resolved =>
                match report h' with
                | None => None
                | Some (Throw e, h'') => deliver fuel evs' (Failed e) h''
                | Some (Normal _, h'') => deliver fuel evs' Fulfilled h''
                end
            | Waiting, Rejected e => deliver fuel evs' (Failed e) h'
            | _, _ => deliver fuel evs' o h'
            end
        end
    end.

(** *** [downloadToStream], lines 203-328 *)

(** [res.headers[name]]. *)
Fixpoint header (name : string) (hs : list (string * string)) : option string :=
  match hs with
  | [] => None
  | (k, v) :: hs' => if String.eqb k name then Some v else header name hs'
  end.

(** Truthiness of a header value: [undefined] and the empty string are
    falsy. *)
Definition truthy (v : option string) : option string :=
  match v with
  | Some EmptyString => None
  | _ => v
  end.

Definition decimal (n : N) : string := NilZero.string_of_uint (N.to_uint n).

(** The result of a call: how it ended, the transfer state if one was
    created, and the actions performed. *)
Record Result : Type := {
  outcome : Outcome;
  transfer : option State;
  actions : list Action
}.

Definition failed (e : JsError) (tr : list Action) : Result :=
  {| outcome := Failed e; transfer := None; actions := tr |}.

(** The [state] object as lines 235-242 create it. *)
Definition initial_state (res : IncomingMessage) : State :=
  let contentLength :=
    match truthy (header "content-length" (headers res)) with
    | Some v => v
    | None => ""
    end in
  {| doneSize := of_Z 0;
     totalSize := parseInt contentLength;
     currentDots := of_Z 0;
     totalDots := of_Z 100;
     prefix := "" |}.

(** Lines 235-327: the transfer from a terminal response with status 200. *)
Definition stream (fuel : nat) (res : IncomingMessage) (tr : list Action)
  : option Result :=
  let h0 := {| state := initial_state res; promise := Pending; trace := tr |} in
  match showProgress fuel h0 with
  | None => None
  | Some (Throw e, h) =>
      Some {| outcome := Failed e; transfer := Some (state h); actions := trace h |}
  | Some (Normal _, h) =>
      match deliver fuel (events res) Waiting h with
      | None => None
      | Some (o, h') =>
          Some {| outcome := o; transfer := Some (state h'); actions := trace h' |}
      end
  end.

(** [https.request] parses its argument with [new URL] and accepts only the
    protocol of the [https] agent; both failures are thrown before anything
    is sent. *)
Definition https_request (url : string) : option JsError :=
  match URL_parse url with
  | None => Some (TypeError "ERR_INVALID_URL")
  | Some u =>
      if String.eqb (protocol u) "https:" then None
      else Some (TypeError "ERR_INVALID_PROTOCOL")
  end.

(** [downloadToStream(url, out)], after [k] earlier requests and with the
    actions [tr] already performed. *)
Fixpoint downloadToStream (fuel : nat) (k : nat) (url : string)
  (tr : list Action) : option Result :=
  match fuel with
  | O => None
  | S fuel' =>
      match https_request url with
      | Some e => Some (failed e tr)
      | None =>
          let tr := (tr ++ [Request url])%list in
          match net k url with
          | ReqError e => Some (failed e (tr ++ [ConsoleLog (GotError e)])%list)
          | Response res =>
              match truthy (header "location" (headers res)) with
              | Some redirectURL =>
                  match URL_parse redirectURL with
                  | None => Some (failed (TypeError "ERR_INVALID_URL") tr)
                  | Some url' =>
                      let tr :=
                        if negb verbose then tr
                        else (tr ++ [ConsoleLog (RedirectedTo (hostname url'))])%list in
                      downloadToStream fuel' (S k) redirectURL (tr ++ [Destroy])%list
                  end
              | None =>
                  if negb (N.eqb (statusCode res) 200) then
                    Some (failed
                            (Error ("Got HTTP " ++ decimal (statusCode res)
                                    ++ " for " ++ url)) tr)
                  else stream fuel res tr
              end
          end
      end
  end.

End WithHost.

(** *** Observations on a run *)

(** The chunks handed to [out.write], in order, and the bytes they hold. *)
Fixpoint sink_writes (tr : list Action) : list Buffer :=
  match tr with
  | [] => []
  | SinkWrite data :: tr' => data :: sink_writes tr'
  | _ :: tr' => sink_writes tr'
  end.

Definition sink_bytes (tr : list Action) : list Byte.byte :=
  List.concat (sink_writes tr).

(** What was done to the sink: the calls of [out.write] and [out.close()],
    in order. *)
Definition on_sink (a : Action) : bool :=
  match a with
  | SinkWrite _ | SinkClose => true
  | _ => false
  end.

Definition sink_log (tr : list Action) : list Action := List.filter on_sink tr.

(** What was done on the network: the requests sent and the responses
    destroyed, in order. *)
Definition on_net (a : Action) : bool :=
  match a with
  | Request _ | Destroy => true
  | _ => false
  end.

Definition net_log (tr : list Action) : list Action := List.filter on_net tr.

(** Number of calls of [out.close()]. *)
Fixpoint sink_closes (tr : list Action) : nat :=
  match tr with
  | [] => 0
  | SinkClose :: tr' => S (sink_closes tr')
  | _ :: tr' => sink_closes tr'
  end.

(** The URLs requested, in order. *)
Fixpoint requests (tr : list Action) : list string :=
  match tr with
  | [] => []
  | Request url :: tr' => url :: requests tr'
  | _ :: tr' => requests tr'
  end.

(** Number of ["close"] events of the response delivered to the listener. *)
Fixpoint res_closes (tr : list Action) : nat :=
  match tr with
  | [] => 0
  | Emitted ResClose :: tr' => S (res_closes tr')
  | _ :: tr' => res_closes tr'
  end.

(** The events delivered to listeners, in order. *)
Fixpoint emitted (tr : list Action) : list Event :=
  match tr with
  | [] => []
  | Emitted ev :: tr' => ev :: emitted tr'
  | _ :: tr' => emitted tr'
  end.

(** Number of calls of [res.destroy()]. *)
Fixpoint destroys (tr : list Action) : nat :=
  match tr with
  | [] => 0
  | Destroy :: tr' => S (destroys tr')
  | _ :: tr' => destroys tr'
  end.

(** The strings written to the standard output. *)
Fixpoint stdout (tr : list Action) : list string :=
  match tr with
  | [] => []
  | StdoutWrite s :: tr' => s :: stdout tr'
  | _ :: tr' => stdout tr'
  end.

(** Total size of a sequence of chunks. *)
Definition size (body : list Buffer) : Z :=
  Z.of_nat (List.length (List.concat body)).

(** Sub-units a glyph of the bar stands for: its index in [theme.chunks]. *)
Fixpoint index_of (g : string) (l : list string) : option nat :=
  match l with
  | [] => None
  | x :: l' =>
      if String.eqb g x then Some 0%nat
      else match index_of g l' with Some i => Some (S i) | None => None end
  end.

Definition glyph_units (g : string) : nat :=
  match index_of g (chunks theme) with
  | Some i => i
  | None => 0
  end.

(** The cells of the bar for [u] units as the specification describes them:
    a full block for every 8 units, one partial glyph for what remains, and
    blanks up to [width] cells. *)
Definition drawn (u : Z) : list string :=
  List.repeat "█"%string (Z.to_nat (u / 8))
  ++ (if (u mod 8 =? 0)%Z then []
      else [List.nth (Z.to_nat (u mod 8)) (chunks theme) ""%string]).

Definition bar (width u : Z) : list string :=
  drawn u ++ List.repeat " "%string (Z.to_nat (width - (u + 7) / 8)).

(** What one call of [showProgress] writes when [state.currentDots] holds
    an integer [u] between 0 and the largest exact integer of a double. *)
Definition rendering {host : Host} (st : State) (u : Z) : list Action :=
  StdoutWrite (CR ++ start theme)
  :: (List.map StdoutWrite (bar 13 u)
      ++ [StdoutWrite (end_ theme ++ " " ++ suffix_of st)])%list.

(** A computation that only draws: it appends writes to the standard output
    and leaves the promise, the byte counts and the unit budget alone. *)
Definition draws {A} (m : M A) : Prop :=
  forall h c h', m h = Some (c, h') ->
    promise h' = promise h /\
    doneSize (state h') = doneSize (state h) /\
    totalSize (state h') = totalSize (state h) /\
    totalDots (state h') = totalDots (state h) /\
    exists ws, trace h' = (trace h ++ List.map StdoutWrite ws)%list.

(** A computation that leaves the [state] object as it is. *)
Definition still {A} (m : M A) : Prop :=
  forall h c h', m h = Some (c, h') -> state h' = state h.

(** The throughput report of line 323 comes only after the sink has
    confirmed its closure. *)
Definition report_follows_close (tr : list Action) : Prop :=
  forall pre post size,
    tr = (pre ++ ConsoleLog (Downloaded size) :: post)%list ->
    In (Emitted OutClose) pre.

(** Every call of [out.close()] is what the listener of the response's
    ["close"] event does, right after that event is delivered. *)
Definition closed_on_close (tr : list Action) : Prop :=
  forall pre post,
    tr = (pre ++ SinkClose :: post)%list ->
    exists pre', pre = (pre' ++ [Emitted ResClose])%list.

(** The integer that line 284 computes from [d] bytes received and a
    declared total of [n >= 1] bytes: the quotient and the product are each
    rounded to a double before the floor is taken. *)
Definition dotsZ (n d : Z) : Z :=
  let t := Binary64.fl (inject_Z n) in
  if Binary64.overflows t then 0%Z
  else Qfloor (Binary64.fl (Binary64.fl (inject_Z d / t) * inject_Z 100)).

(** A response cut short: the same status and headers, delivering only
    [evs]. *)
Definition with_events (evs : list Event) (res : IncomingMessage)
  : IncomingMessage :=
  {| statusCode := statusCode res; headers := headers res; events := evs |}.

(** An event other than ["data"]. *)
Definition not_data (ev : Event) : Prop :=
  match ev with
  | ResData _ => False
  | _ => True
  end.

(** The [state] object of a transfer that declared [n >= 1] bytes, with [d]
    bytes received. *)
Definition progress_state (n d : Z) : State :=
  {| doneSize := of_Z d;
     totalSize := of_Z n;
     currentDots := of_Z (dotsZ n d);
     totalDots := of_Z 100;
     prefix := "" |}.

(** The unit counts after each chunk of [body], from [d] bytes received, on
    a transfer that declared [n] bytes. *)
Fixpoint dots_list (n d : Z) (body : list Buffer) : list Z :=
  match body with
  | [] => []
  | data :: body' =>
      let d' := (d + Z.of_nat (List.length data))%Z in
      dotsZ n d' :: dots_list n d' body'
  end.

(** A redirect chain that starts at [url] after [k] earlier requests.  Each
    hop is a response together with the target its [location] header names;
    the request of every hop is accepted and answered, and every target is
    an absolute URL. *)
Fixpoint redirect_chain {host : Host} (k : nat) (url : string)
  (hops : list (IncomingMessage * string)) : Prop :=
  match hops with
  | [] => True
  | (res, next) :: hops' =>
      https_request url = None /\
      net k url = Response res /\
      truthy (header "location" (headers res)) = Some next /\
      URL_parse next <> None /\
      redirect_chain (S k) next hops'
  end.

(** The URL a chain ends at. *)
Definition final_url (url : string) (hops : list (IncomingMessage * string))
  : string :=
  List.last (List.map snd hops) url.

(** What following a chain does: per hop the request, the diagnostic line
    when [verbose] is set, and the destruction of the response. *)
Fixpoint chain_actions {host : Host} (url : string)
  (hops : list (IncomingMessage * string)) : list Action :=
  match hops with
  | [] => []
  | (_, next) :: hops' =>
      (Request url
       :: (if negb verbose then []
           else match URL_parse next with
                | Some u => [ConsoleLog (RedirectedTo (hostname u))]
                | None => []
                end)
       ++ Destroy :: chain_actions next hops')%list
  end.

(** The unit counts [onData] leaves in [state.currentDots] after each chunk
    of a sequence. *)
Fixpoint dots_after {host : Host} (fuel : nat) (body : list Buffer) (h : Heap)
  : option (list num) :=
  match body with
  | [] => Some []
  | data :: body' =>
      match onData fuel data h with
      | Some (Normal _, h') =>
          match dots_after fuel body' h' with
          | Some l => Some (currentDots (state h') :: l)
          | None => None
          end
      | _ => None
      end
  end.

(** *** Hosts for the examples *)

(** A parser for URLs of the shape [scheme://host/...]: the scheme is the
    text before the first colon, the host what lies between [//] and the
    next slash.  Anything without a colon is rejected, as a relative URL
    is. *)
Fixpoint before (c : ascii) (s : string) : option (string * string) :=
  match s with
  | EmptyString => None
  | String x r =>
      if Ascii.eqb x c then Some (EmptyString, r)
      else match before c r with
           | Some (a, b) => Some (String x a, b)
           | None => None
           end
  end.

Definition simple_URL (s : string) : option URL :=
  match before ":"%char s with
  | Some (EmptyString, _) => None
  | Some (scheme, String "/"%char (String "/"%char rest)) =>
      Some {| protocol := scheme ++ ":";
              hostname := match before "/"%char rest with
                          | Some (hostpart, _) => hostpart
                          | None => rest
                          end |}
  | _ => None
  end.

(** A host over a given network, with number formatting left blank. *)
Definition host_of (v : bool) (n : nat -> string -> Reply) : Host := {|
  verbose := v;
  net := n;
  URL_parse := simple_URL;
  toFixed := fun _ _ => "";
  ToString := fun _ => ""
|}.

Definition response (code : N) (hs : list (string * string)) (evs : list Event)
  : Reply :=
  Response {| statusCode := code; headers := hs; events := evs |}.

Definition unreachable : JsError := SystemError "ENOTFOUND".

Definition bytes (n : nat) : Buffer := List.repeat Byte.x00 n.

(** A network that answers by URL alone, from a table. *)
Fixpoint serving (table : list (string * Reply)) (k : nat) (url : string) : Reply :=
  match table with
  | [] => ReqError unreachable
  | (u, reply) :: table' =>
      if String.eqb u url then reply else serving table' k url
  end.

(** The scenario of the specification: one redirect to another host, then
    2560 bytes, declared and delivered as ten chunks of 256.  The redirect
    response has a body of its own. *)
Definition redirected_host : Host :=
  host_of true (serving
    [("https://a.example/f",
      response 301 [("location", "https://b.example/g")]
        [ResData (bytes 7); ResClose]);
     ("https://b.example/g",
      response 200 [("content-length", "2560")]
        (List.map ResData (List.repeat (bytes 256) 10) ++ [ResClose; OutClose])%list)]).

(** A redirect whose target is relative to the URL requested. *)
Definition relative_host : Host :=
  host_of true (serving
    [("https://a.example/f",
      response 302 [("location", "/g")] [ResClose]);
     ("https://a.example/g",
      response 200 [("content-length", "1")]
        [ResData (bytes 1); ResClose; OutClose])]).

(** A response that declares no length, as a chunked transfer does. *)
Definition chunked_host : Host :=
  host_of false (serving
    [("https://a.example/f",
      response 200 [("transfer-encoding", "chunked")]
        [ResData (bytes 1); ResClose; OutClose])]).

(** A resource that does not exist. *)
Definition missing_host : Host :=
  host_of false (serving
    [("https://a.example/f",
      response 404 [("content-length", "9")] [ResData (bytes 9); ResClose])]).

(** A resource served over plain [http]. *)
Definition plain_host : Host :=
  host_of false (serving
    [("http://a.example/f",
      response 200 [("content-length", "1")]
        [ResData (bytes 1); ResClose; OutClose])]).

(** A response of 2560 declared bytes that the server aborts after three
    chunks of 256. *)
Definition aborting_response (evs : list Event) : IncomingMessage :=
  {| statusCode := 200; headers := [("content-length", "2560")]; events := evs |}.

Definition aborting_host : Host :=
  host_of false (serving
    [("https://a.example/f",
      Response (aborting_response
                  (List.map ResData (List.repeat (bytes 256) 3)
                   ++ [ResAborted; ResClose; OutClose])%list))]).

(** A response that delivers two bytes and declares one. *)
Definition oversized_host : Host :=
  host_of false (serving
    [("https://a.example/f",
      response 200 [("content-length", "1")]
        [ResData (bytes 2); ResClose; OutClose])]).

(** A response that declares zero bytes and delivers one. *)
Definition zero_host : Host :=
  host_of false (serving
    [("https://a.example/f",
      response 200 [("content-length", "0")]
        [ResData (bytes 1); ResClose; OutClose])]).


End Download.

(** ** Number formatting *)

Module Format.

Import JsNum Download.
Local Open Scope string_scope.

(** [k] occurrences of the digit zero. *)
Fixpoint zeros (k : nat) : string :=
  match k with
  | O => ""
  | S k' => String "0" (zeros k')
  end.

(** [Number::toString(x, 10)] where its digits are plain: [NaN], the
    infinities and the integers a double counts exactly, [-0] printing as
    [0].  The digits of any other number are left to [other]. *)
Definition Number_toString (other : num -> string) (x : num) : string :=
  match x with
  | NaN => "NaN"
  | Inf false => "Infinity"
  | Inf true => "-Infinity"
  | Fin s m =>
      if Qeq_bool m (inject_Z (Qfloor m)) && Qle_bool m (inject_Z (2 ^ 53)) then
        (if s && negb (Qeq_bool m 0) then "-" else "")
        ++ decimal (Z.to_N (Qfloor m))
      else other x
  end.

(** Steps 11.b and 11.c of [Number.prototype.toFixed]: the digits of [n]
    with a point before the last [f] of them, zeros added in front so that
    one digit at least precedes the point. *)
Definition fixed (f : nat) (n : N) : string :=
  let m := decimal n in
  if (f =? 0)%nat then m
  else
    let k := String.length m in
    let m := if (k <=? f)%nat then zeros (f + 1 - k) ++ m else m in
    let k := if (k <=? f)%nat then (f + 1)%nat else k in
    substring 0 (k - f) m ++ "." ++ substring (k - f) f m.

(** [Number.prototype.toFixed(f)] for [0 <= f <= 100]: a number that is
    not finite prints as [toString] prints it; otherwise the sign, then
    the integer [n] nearest to [x * 10^f], the larger one of two, placed by
    [fixed]; from [10^21] on, [toString] again. *)
Definition Number_toFixed (toString : num -> string) (x : num) (f : nat) : string :=
  match x with
  | Fin s x =>
      let s := if s && negb (Qeq_bool x 0) then "-" else "" in
      let m :=
        if Qle_bool (inject_Z (10 ^ 21)) x then toString (Fin false x)
        else
          let n := Qfloor (x * inject_Z (10 ^ Z.of_nat f) + (1 # 2)) in
          fixed f (Z.to_N n) in
      s ++ m
  | _ => toString x
  end.

(** A host whose numbers print as the language defines. *)
Definition standard_format (host : Host) : Prop :=
  (forall x f, toFixed x f = Number_toFixed ToString x f) /\
  (forall x, ToString x = Number_toString ToString x).

(** [formatPercent], lines 37-39. *)
Definition formatPercent {host : Host} (x : num) : string :=
  toFixed (mul x (of_Z 100)) 2 ++ "%".

(** A host over a given network with the formatting of the language; the
    digits of a number that is not an integer print as a question mark. *)
Definition js_host (v : bool) (n : nat -> string -> Reply) : Host := {|
  verbose := v;
  net := n;
  URL_parse := simple_URL;
  toFixed := Number_toFixed (Number_toString (fun _ => "?"));
  ToString := Number_toString (fun _ => "?")
|}.

(** The character of a digit, and a number below 100 written with two
    digits. *)
Definition digit_char (d : N) : ascii := ascii_of_N (48 + d).

Definition two_digits (r : N) : string :=
  String (digit_char (r / 10)) (String (digit_char (r mod 10)) "").

End Format.

(** ** Further observations on a run *)

Module Runs.

Import JsNum Download Format.
Local Open Scope string_scope.

(** The lines written by [console.log], in order. *)
Fixpoint console_logs (tr : list Action) : list Msg :=
  match tr with
  | [] => []
  | ConsoleLog m :: tr' => m :: console_logs tr'
  | _ :: tr' => console_logs tr'
  end.

(** The lines written by [console.warn], in order. *)
Fixpoint console_warns (tr : list Action) : list Msg :=
  match tr with
  | [] => []
  | ConsoleWarn m :: tr' => m :: console_warns tr'
  | _ :: tr' => console_warns tr'
  end.

(** The lines written through [debug] (lines 72-78) and their like: every
    line of [console.log] but the [Got error] lines of line 217. *)
Fixpoint debug_lines (tr : list Action) : list Msg :=
  match tr with
  | [] => []
  | ConsoleLog (GotError _) :: tr' => debug_lines tr'
  | ConsoleLog m :: tr' => m :: debug_lines tr'
  | _ :: tr' => debug_lines tr'
  end.

(** The errors named by the [Got error] lines of line 217, in order. *)
Fixpoint got_errors (tr : list Action) : list JsError :=
  match tr with
  | [] => []
  | ConsoleLog (GotError e) :: tr' => e :: got_errors tr'
  | _ :: tr' => got_errors tr'
  end.

(** The sizes named by the reports of line 323, in order. *)
Fixpoint reports (tr : list Action) : list string :=
  match tr with
  | [] => []
  | ConsoleLog (Downloaded size) :: tr' => size :: reports tr'
  | _ :: tr' => reports tr'
  end.

(** Number of times the progress line is blanked (line 312). *)
Fixpoint blanks (tr : list Action) : nat :=
  match tr with
  | [] => 0
  | StdoutWrite s :: tr' =>
      if String.eqb s blank_line then S (blanks tr') else blanks tr'
  | _ :: tr' => blanks tr'
  end.

(** The chunks delivered to [onData] and the chunks handed to [out.write],
    in the order of the two kinds of action. *)
Definition in_flow (a : Action) : bool :=
  match a with
  | Emitted (ResData _) | SinkWrite _ => true
  | _ => false
  end.

Definition flow (tr : list Action) : list Action := List.filter in_flow tr.

(** What the delivery of a list of events makes of the chunks among them:
    each one reaches [onData] and is handed to the sink before the next. *)
Fixpoint forwarded (evs : list Event) : list Action :=
  match evs with
  | [] => []
  | ResData data :: evs' => Emitted (ResData data) :: SinkWrite data :: forwarded evs'
  | _ :: evs' => forwarded evs'
  end.

(** The chunks among a list of events. *)
Fixpoint chunks_of (evs : list Event) : list Buffer :=
  match evs with
  | [] => []
  | ResData data :: evs' => data :: chunks_of evs'
  | _ :: evs' => chunks_of evs'
  end.

(** The diagnostic lines of a redirect chain: the host name of each target,
    as [new URL] reads it. *)
Fixpoint redirect_lines {host : Host} (hops : list (IncomingMessage * string))
  : list Msg :=
  match hops with
  | [] => []
  | (_, next) :: hops' =>
      (match URL_parse next with
       | Some u => [RedirectedTo (hostname u)]
       | None => []
       end ++ redirect_lines hops')%list
  end.

(** A unit count that [showProgress] can draw without reading outside
    [theme.chunks]: anything but a finite number with a fractional part
    (the magnitude of a number, kept apart from its sign, is not
    negative). *)
Definition whole (a : num) : Prop :=
  match a with
  | Fin _ m => (0 <= m)%Q /\ exists z : Z, (m == inject_Z z)%Q
  | _ => True
  end.

(** How the call stands after a list of events: the first ["close"] of the
    sink, ["error"] of the sink or ["aborted"] of the response decides. *)
Fixpoint verdict (evs : list Event) : Outcome :=
  match evs with
  | [] => Waiting
  | OutClose :: _ => Fulfilled
  | OutError e :: _ => Failed e
  | ResAborted :: _ => Failed (Error "Request aborted")
  | _ :: evs' => verdict evs'
  end.

(** The errors of the request among a list of events. *)
Fixpoint request_errors (evs : list Event) : list JsError :=
  match evs with
  | [] => []
  | ReqFailed e :: evs' => e :: request_errors evs'
  | _ :: evs' => request_errors evs'
  end.

(** Number of ["close"] events of the response among a list of events. *)
Fixpoint response_closes (evs : list Event) : nat :=
  match evs with
  | [] => 0
  | ResClose :: evs' => S (response_closes evs')
  | _ :: evs' => response_closes evs'
  end.

(** The warnings a list of events leads to. *)
Fixpoint warnings (evs : list Event) : list Msg :=
  match evs with
  | [] => []
  | OutError e :: evs' => IOError e :: warnings evs'
  | ResAborted :: evs' => RequestAborted :: warnings evs'
  | _ :: evs' => warnings evs'
  end.

(** The line that [debug] logs at line 323, for a declared total: nothing
    unless [verbose] is set. *)
Definition report_line {host : Host} (total : num) : list Action :=
  if verbose then [ConsoleLog (Downloaded (formatSize total))] else [].

(** A computation that leaves the blanking of the progress line alone. *)
Definition keeps_line {A} (m : M A) : Prop :=
  forall h c h', m h = Some (c, h') -> blanks (trace h') = blanks (trace h).

(** A computation that does not throw from the heap [h]. *)
Definition does_not_throw {A} (m : M A) (h : Heap) : Prop :=
  match m h with
  | Some (Throw _, _) => False
  | _ => True
  end.

(** What a call does before a transfer starts: requests, the destruction of
    redirect responses and, with [verbose] set, their diagnostic lines. *)
Definition resolving {host : Host} (a : Action) : Prop :=
  match a with
  | Request _ | Destroy => True
  | ConsoleLog (RedirectedTo _) => verbose = true
  | _ => False
  end.

(** URLs on a redirect cycle: each is accepted by [https.request] and
    answered, whenever it is asked for, by a redirect to a URL that is on
    the cycle again. *)
Definition cycling {host : Host} (P : string -> Prop) : Prop :=
  forall k url, P url ->
    https_request url = None /\
    exists res next,
      net k url = Response res /\
      truthy (header "location" (headers res)) = Some next /\
      URL_parse next <> None /\
      P next.

(** *** More hosts *)

(** Two URLs that redirect to each other. *)
Definition looping_host : Host :=
  host_of false (serving
    [("https://a.example/f",
      response 302 [("location", "https://b.example/g")] []);
     ("https://b.example/g",
      response 302 [("location", "https://a.example/f")] [])]).

(** A network on which no name resolves. *)
Definition offline_host : Host := host_of false (serving []).

(** A redirect from [https] to plain [http]. *)
Definition downgrading_host : Host :=
  host_of true (serving
    [("https://a.example/f",
      response 301 [("location", "http://a.example/f")] []);
     ("http://a.example/f",
      response 200 [("content-length", "1")]
        [ResData (bytes 1); ResClose; OutClose])]).

(** A sink that fails after two chunks of a transfer of 2560 bytes; a third
    chunk still arrives. *)
Definition failing_sink_host : Host :=
  host_of false (serving
    [("https://a.example/f",
      response 200 [("content-length", "2560")]
        [ResData (bytes 256); ResData (bytes 256);
         OutError (SystemError "ENOSPC");
         ResData (bytes 256); ResClose; OutClose])]).

(** A connection that is reset after the first of two chunks: the request
    emits ["error"], the response ["aborted"]. *)
Definition reset_host : Host :=
  host_of false (serving
    [("https://a.example/f",
      response 200 [("content-length", "512")]
        [ResData (bytes 256); ReqFailed (SystemError "ECONNRESET");
         ResAborted; ResClose; OutClose])]).

(** A response that delivers two bytes and declares one, with [verbose]
    set. *)
Definition overfull_host : Host :=
  js_host true (serving
    [("https://a.example/f",
      response 200 [("content-length", "1")]
        [ResData (bytes 2); ResClose; OutClose])]).

End Runs.

(** ** The shell helpers of index.js *)

Module Shell.

Local Open Scope string_scope.

(** *** Text *)

(** Strings are kept as their UTF-8 bytes.  [js_length] is the [length] of
    the JavaScript string, which counts UTF-16 code units: one for each
    character of one to three bytes, two for a character of four bytes. *)
Definition code_units (c : ascii) : nat :=
  let n := nat_of_ascii c in
  if (n <? 128)%nat then 1
  else if (n <? 192)%nat then 0
  else if (n <? 240)%nat then 1
  else 2.

Fixpoint js_length (s : string) : nat :=
  match s with
  | EmptyString => 0
  | String c r => code_units c + js_length r
  end.

(** [s.repeat(n)]. *)
Fixpoint repeat_string (s : string) (n : nat) : string :=
  match n with
  | O => ""
  | S n' => s ++ repeat_string s n'
  end.

(** [chalk], lines 80-119. *)
Module chalk.

Definition ESC : string := String (ascii_of_nat 27) EmptyString.

Module colors.
Definition green : string := ESC ++ "[1;32;40m".
Definition yellow : string := ESC ++ "[1;33;40m".
Definition blue : string := ESC ++ "[1;34;40m".
Definition magenta : string := ESC ++ "[1;35;40m".
Definition cyan : string := ESC ++ "[1;36;40m".
Definition reset : string := ESC ++ "[0;0;0m".
End colors.

Definition green (s : string) : string := colors.green ++ s ++ colors.reset.
Definition yellow (s : string) : string := colors.yellow ++ s ++ colors.reset.
Definition blue (s : string) : string := colors.blue ++ s ++ colors.reset.
Definition magenta (s : string) : string := colors.magenta ++ s ++ colors.reset.
Definition cyan (s : string) : string := colors.cyan ++ s ++ colors.reset.

End chalk.

(** *** The process *)

(** A call of [child_process.execSync]: the command line, the options
    passed, and what the child inherits from the process by default, its
    working directory and its environment.  [stdio: "inherit"] is written
    as the three descriptors it stands for. *)
Record Command : Type := {
  file : string;
  input : option string;
  stdio : list string;
  encoding : option string;
  at_cwd : string;
  with_env : string -> option string
}.

(** What the helpers do that can be observed, in order. *)
Inductive Output : Type :=
| Log (args : list string)  (* console.log(...args) *)
| Write (s : string)        (* the query readline writes to process.stdout *)
| Exec (c : Command).       (* a child process is run to its end *)

(** What the helpers take from the platform: [process.platform]; the result
    of [process.chdir(dir)] from a working directory, the new working
    directory or the error thrown; the result of a child process, its
    standard output or the error thrown for a failure; and the size
    [fs.statSync] reports for a path. *)
Class Platform : Type := {
  platform : string;
  chdir : string -> string -> Download.JsError + string;
  execSync : Command -> Download.JsError + string;
  statSync_size : string -> string -> Download.JsError + JsNum.num
}.

(** The state of the process: the module-level [verbose] flag, the working
    directory, [process.env], the lines the user will enter, one for each
    question asked, and what was done so far. *)
Record World : Type := {
  verbose : bool;
  cwd : string;
  env : string -> option string;
  answers : list string;
  out : list Output
}.

(** The process when the module has been loaded: line 14. *)
Definition loaded (dir : string) (e : string -> option string)
  (lines : list string) : World :=
  {| verbose := false; cwd := dir; env := e; answers := lines; out := [] |}.

(** A computation returns, throws, or ends the process by [process.exit];
    [None] is a computation that never completes. *)
Inductive Completion (A : Type) : Type :=
| Return (a : A)
| Throw (e : Download.JsError)
| Exit (code : Z).

Arguments Return {A} a.
Arguments Throw {A} e.
Arguments Exit {A} code.

Definition Sh (A : Type) : Type := World -> option (Completion A * World).

Definition ret {A} (a : A) : Sh A := fun w => Some (Return a, w).

Definition throw {A} (e : Download.JsError) : Sh A := fun w => Some (Throw e, w).

Definition process_exit {A} (code : Z) : Sh A := fun w => Some (Exit code, w).

Definition bind {A B} (m : Sh A) (k : A -> Sh B) : Sh B :=
  fun w =>
    match m w with
    | Some (Return a, w') => k a w'
    | Some (Throw e, w') => Some (Throw e, w')
    | Some (Exit c, w') => Some (Exit c, w')
    | None => None
    end.

Notation "x <- m ;; k" := (bind m (fun x => k))
  (at level 61, m at next level, right associativity).
Notation "m ;; k" := (bind m (fun _ => k))
  (at level 61, right associativity).

(** [try { m } finally { f }]: [f] runs when [m] has returned or thrown, and
    what [f] throws replaces the completion of [m]; a process that exits
    runs nothing more. *)
Definition finally {A} (m : Sh A) (f : Sh unit) : Sh A :=
  fun w =>
    match m w with
    | None => None
    | Some (Exit c, w') => Some (Exit c, w')
    | Some (r, w') =>
        match f w' with
        | None => None
        | Some (Return _, w'') => Some (r, w'')
        | Some (Throw e, w'') => Some (Throw e, w'')
        | Some (Exit c, w'') => Some (Exit c, w'')
        end
    end.

Definition record (o : Output) (w : World) : World :=
  {| verbose := verbose w; cwd := cwd w; env := env w; answers := answers w;
     out := (out w ++ [o])%list |}.

Definition console_log (args : list string) : Sh unit :=
  fun w => Some (Return tt, record (Log args) w).

Section WithPlatform.

Context {os : Platform}.

Definition process_cwd : Sh string := fun w => Some (Return (cwd w), w).

Definition process_chdir (dir : string) : Sh unit :=
  fun w =>
    match chdir (cwd w) dir with
    | inl e => Some (Throw e, w)
    | inr d =>
        Some (Return tt,
              {| verbose := verbose w; cwd := d; env := env w;
                 answers := answers w; out := out w |})
    end.

(** [cp.execSync(file, options)]. *)
Definition child (f : string) (i : option string) (io : list string)
  (enc : option string) : Sh string :=
  fun w =>
    let c := {| file := f; input := i; stdio := io; encoding := enc;
                at_cwd := cwd w; with_env := env w |} in
    match execSync c with
    | inl e => Some (Throw e, record (Exec c) w)
    | inr o => Some (Return o, record (Exec c) w)
    end.

(** [sizeof], lines 46-50. *)
Definition sizeof (path : string) : Sh JsNum.num :=
  fun w =>
    match statSync_size (cwd w) path with
    | inl e => Some (Throw e, w)
    | inr size => Some (Return size, w)
    end.

(** [info], lines 55-57. *)
Definition info (line : string) : Sh unit :=
  console_log [chalk.blue ("💡 " ++ line)].

(** [header], lines 62-70. *)
Definition header (line : string) : Sh unit :=
  let bar := repeat_string "―" (js_length line + 2) in
  console_log [] ;;
  console_log [chalk.blue bar] ;;
  console_log [chalk.blue (" " ++ line ++ " ")] ;;
  console_log [chalk.blue bar] ;;
  console_log [].

(** [debug], lines 72-78, with the arguments it is called with. *)
Definition debug (arguments : list string) : Sh unit :=
  fun w =>
    if negb (verbose w) then ret tt w
    else console_log arguments w.

(** [$], lines 125-138. *)
Definition dollar (cmd : string) : Sh unit :=
  console_log [chalk.yellow ("📜 " ++ cmd)] ;;
  if String.eqb platform "win32" then
    child "bash" (Some cmd) ["pipe"; "inherit"; "inherit"] None ;; ret tt
  else
    child cmd None ["inherit"; "inherit"; "inherit"] None ;; ret tt.

(** [$$], lines 145-166; [opts] is the options object, if one is passed,
    by its [silent] property. *)
Definition dollar_dollar (cmd : string) (opts : option bool) : Sh string :=
  let silent := match opts with Some s => s | None => false end in
  (if negb silent then console_log [chalk.yellow ("📜 " ++ cmd)] else ret tt) ;;
  if String.eqb platform "win32" then
    child "bash" (Some cmd) ["pipe"; "pipe"; "inherit"] (Some "utf8")
  else
    child cmd None ["inherit"; "pipe"; "inherit"] (Some "utf8").

(** [isVerbose] and [setVerbose], lines 171-180. *)
Definition isVerbose : Sh bool := fun w => Some (Return (verbose w), w).

Definition setVerbose (v : bool) : Sh unit :=
  fun w =>
    Some (Return tt,
          {| verbose := v; cwd := cwd w; env := env w; answers := answers w;
             out := out w |}).

(** [detectOS], lines 185-196. *)
Definition detectOS : Sh string :=
  if String.eqb platform "win32" then ret "windows"
  else if String.eqb platform "darwin" then ret "darwin"
  else if String.eqb platform "linux" then ret "linux"
  else throw (Download.Error ("Unsupported process.platform: " ++ platform)).

(** [prompt], lines 335-350: the query is written, and the promise is
    resolved with the line entered; without a line it stays pending. *)
Definition prompt (msg : string) : Sh string :=
  fun w =>
    match answers w with
    | [] => None
    | line :: rest =>
        Some (Return line,
              {| verbose := verbose w; cwd := cwd w; env := env w;
                 answers := rest;
                 out := (out w ++ [Write (chalk.green (msg ++ ": "))])%list |})
    end.

(** [yesno], lines 357-359. *)
Definition yesno (msg : string) : Sh bool :=
  answer <- prompt (msg ++ " (y/N)") ;;
  ret (String.eqb "y" answer).

(** [confirm], lines 365-372. *)
Definition confirm (msg : string) : Sh unit :=
  yes <- yesno msg ;;
  if (yes : bool) then ret tt
  else console_log ["Bailing out"] ;; process_exit 1.

(** [cd], lines 380-392; [f] is the call [f()]. *)
Definition cd {T} (dir : string) (f : Sh T) : Sh T :=
  originalWd <- process_cwd ;;
  console_log [chalk.magenta ("☞ entering " ++ dir)] ;;
  process_chdir dir ;;
  finally f
    (console_log [chalk.magenta ("☜ leaving " ++ dir)] ;;
     process_chdir originalWd).

(** [setenv], lines 399-402. *)
Definition setenv (k v : string) : Sh unit :=
  console_log ["export " ++ chalk.green k ++ "=" ++ chalk.yellow v] ;;
  fun w =>
    Some (Return tt,
          {| verbose := verbose w; cwd := cwd w;
             env := fun k' => if String.eqb k' k then Some v else env w k';
             answers := answers w; out := out w |}).

End WithPlatform.

(** *** A platform for the examples *)

(** Directories are named by absolute paths; a relative name is appended to
    the working directory.  The directories that exist are those of a
    list. *)
Definition resolve (from dir : string) : string :=
  match dir with
  | String "/"%char _ => dir
  | _ => from ++ "/" ++ dir
  end.

Definition posix (dirs : list string) (run : Command -> Download.JsError + string)
  : Platform := {|
  platform := "linux";
  chdir := fun from dir =>
    let d := resolve from dir in
    if List.existsb (String.eqb d) dirs then inr d
    else inl (Download.SystemError "ENOENT");
  execSync := run;
  statSync_size := fun _ _ => inl (Download.SystemError "ENOENT")
|}.

(** A child that prints the working directory it was started in. *)
Definition pwd (c : Command) : Download.JsError + string :=
  if String.eqb (file c) "pwd" then inr (at_cwd c)
  else inl (Download.Error ("Command failed: " ++ file c)).

End Shell.

(** * Properties *)

(** ** Double-precision rounding is monotone and exact on small integers *)

Module Binary64Facts.

Import Binary64.
Local Open Scope Q_scope.


Lemma pow2_pos e : 0 < pow2 e.
Proof. apply Qpower_0_lt. reflexivity. Qed.

Lemma pow2_plus a b : pow2 (a + b) == pow2 a * pow2 b.
Proof. apply Qpower_plus. discriminate. Qed.

Lemma pow2_le a b : (a <= b)%Z -> pow2 a <= pow2 b.
Proof. intros H. apply Qpower_le_compat_l; [exact H | discriminate]. Qed.

Lemma pow2_lt a b : (a < b)%Z -> pow2 a < pow2 b.
Proof. intros H. apply Qpower_lt_compat_l; [exact H | reflexivity]. Qed.

Lemma pow2_Z n : (0 <= n)%Z -> inject_Z (2 ^ n) == pow2 n.
Proof. intros H. apply (Zpower_Qpower 2 n H). Qed.

Lemma pow2_split a b : pow2 a == pow2 (a - b) * pow2 b.
Proof. rewrite <- pow2_plus. replace (a - b + b)%Z with a by lia. reflexivity. Qed.

(** Integers lie in the binade given by [Z.log2]. *)
Lemma log2_binade n :
  (0 < n)%Z -> pow2 (Z.log2 n) <= inject_Z n /\ inject_Z n < pow2 (Z.log2 n + 1).
Proof.
  intros Hn. destruct (Z.log2_spec n Hn) as [Hlo Hhi].
  pose proof (Z.log2_nonneg n) as Hl.
  split.
  - rewrite <- pow2_Z by lia. rewrite <- Zle_Qle. exact Hlo.
  - rewrite <- pow2_Z by lia. rewrite <- Zlt_Qlt. exact Hhi.
Qed.

Lemma Q_as_quotient q : inject_Z (Qnum q) == q * inject_Z (Zpos (Qden q)).
Proof.
  destruct q as [n d]. unfold Qeq, Qmult, inject_Z. simpl. lia.
Qed.

Lemma Qnum_pos q : 0 < q -> (0 < Qnum q)%Z.
Proof. destruct q as [n d]. unfold Qlt. simpl. lia. Qed.

Lemma ilog2_spec q : 0 < q -> pow2 (ilog2 q) <= q /\ q < pow2 (ilog2 q + 1).
Proof.
  intros Hq. unfold ilog2.
  set (a := Z.log2 (Qnum q)). set (b := Z.log2 (Zpos (Qden q))).
  destruct (log2_binade (Qnum q) (Qnum_pos q Hq)) as [Ha1 Ha2].
  destruct (log2_binade (Zpos (Qden q))) as [Hb1 Hb2]; [reflexivity|].
  fold a in Ha1, Ha2. fold b in Hb1, Hb2.
  rewrite (Q_as_quotient q) in Ha1, Ha2.
  set (d := inject_Z (Zpos (Qden q))) in *.
  assert (Hd : 0 < d) by (unfold d, Qlt; simpl; lia).
  pose proof (pow2_pos b) as Pb. pose proof (pow2_pos (b + 1)) as Pb1.
  (* upper bound: q < 2^(a-b+1) *)
  assert (Hup : q < pow2 (a - b + 1)).
  { apply (Qmult_lt_r _ _ (pow2 b) Pb).
    rewrite <- pow2_plus. replace (a - b + 1 + b)%Z with (a + 1)%Z by lia.
    apply Qle_lt_trans with (q * d); [|exact Ha2].
    apply Qmult_le_l; [exact Hq | exact Hb1]. }
  (* lower bound: 2^(a-b-1) < q *)
  assert (Hlow : pow2 (a - b - 1) < q).
  { apply (Qmult_lt_r _ _ (pow2 (b + 1)) Pb1).
    rewrite <- pow2_plus. replace (a - b - 1 + (b + 1))%Z with a by lia.
    apply Qle_lt_trans with (q * d); [exact Ha1|].
    apply Qmult_lt_l; [exact Hq | exact Hb2]. }
  destruct (Qle_bool (pow2 (a - b)) q) eqn:E.
  - apply Qle_bool_iff in E. split; [exact E | exact Hup].
  - split; [apply Qlt_le_weak; exact Hlow|].
    replace (a - b - 1 + 1)%Z with (a - b)%Z by lia.
    apply Qnot_le_lt. intros H. apply Qle_bool_iff in H. congruence.
Qed.

Lemma ilog2_unique q l : pow2 l <= q -> q < pow2 (l + 1) -> ilog2 q = l.
Proof.
  intros H1 H2.
  assert (Hq : 0 < q) by (apply Qlt_le_trans with (pow2 l); [apply pow2_pos | exact H1]).
  destruct (ilog2_spec q Hq) as [S1 S2].
  destruct (Z.lt_trichotomy (ilog2 q) l) as [L | [L | L]]; [|exact L|].
  - exfalso. assert (pow2 (ilog2 q + 1) <= pow2 l) by (apply pow2_le; lia). lra.
  - exfalso. assert (pow2 (l + 1) <= pow2 (ilog2 q)) by (apply pow2_le; lia). lra.
Qed.

Lemma ilog2_mono x y : 0 < x -> x <= y -> (ilog2 x <= ilog2 y)%Z.
Proof.
  intros Hx Hxy.
  destruct (ilog2_spec x Hx) as [X1 X2].
  destruct (ilog2_spec y) as [Y1 Y2]; [lra|].
  destruct (Z_le_gt_dec (ilog2 x) (ilog2 y)) as [L | G]; [exact L|].
  exfalso. assert (pow2 (ilog2 y + 1) <= pow2 (ilog2 x)) by (apply pow2_le; lia). lra.
Qed.


Lemma rne_floor_le q : (Qfloor q <= rne q <= Qfloor q + 1)%Z.
Proof.
  unfold rne. destruct (Qcompare _ _); [destruct (Z.even _)| |]; lia.
Qed.

Lemma rne_Z z : rne (inject_Z z) = z.
Proof.
  unfold rne. rewrite Qfloor_Z.
  assert (E : Qcompare (inject_Z z - inject_Z z) (1 # 2) = Lt).
  { apply Qlt_alt. setoid_replace (inject_Z z - inject_Z z) with 0 by ring. reflexivity. }
  rewrite E. reflexivity.
Qed.

Lemma rne_comp x y : x == y -> rne x = rne y.
Proof.
  intros E. unfold rne. rewrite (Qfloor_comp x y E).
  assert (E' : x - inject_Z (Qfloor y) == y - inject_Z (Qfloor y)) by lra.
  rewrite (Qcompare_comp _ _ E' (1 # 2) (1 # 2) (Qeq_refl _)). reflexivity.
Qed.

Lemma rne_mono x y : x <= y -> (rne x <= rne y)%Z.
Proof.
  intros H. pose proof (Qfloor_resp_le x y H) as Hf.
  destruct (Z.eq_dec (Qfloor x) (Qfloor y)) as [E | N].
  - unfold rne. rewrite E.
    destruct (Qcompare_spec (x - inject_Z (Qfloor y)) (1 # 2));
      destruct (Qcompare_spec (y - inject_Z (Qfloor y)) (1 # 2));
      try destruct (Z.even (Qfloor y)); try lia; exfalso; lra.
  - pose proof (rne_floor_le x). pose proof (rne_floor_le y). lia.
Qed.

Lemma rne_ge z q : inject_Z z <= q -> (z <= rne q)%Z.
Proof. intros H. rewrite <- (rne_Z z). apply rne_mono. exact H. Qed.

Lemma rne_le z q : q <= inject_Z z -> (rne q <= z)%Z.
Proof. intros H. rewrite <- (rne_Z z). apply rne_mono. exact H. Qed.

Lemma fl_nonpos q : q <= 0 -> fl q = 0.
Proof. intros H. unfold fl. apply Qle_bool_iff in H. rewrite H. reflexivity. Qed.

Lemma fl_pos_eq q :
  0 < q -> fl q == inject_Z (rne (q / pow2 (ulp_exp q))) * pow2 (ulp_exp q).
Proof.
  intros H. unfold fl.
  destruct (Qle_bool q 0) eqn:E.
  - apply Qle_bool_iff in E. lra.
  - apply Qred_correct.
Qed.

Lemma fl_nonneg q : 0 <= fl q.
Proof.
  destruct (Qlt_le_dec 0 q) as [H | H].
  - rewrite (fl_pos_eq q H).
    apply Qmult_le_0_compat; [|apply Qlt_le_weak, pow2_pos].
    change 0 with (inject_Z 0). rewrite <- Zle_Qle. apply rne_ge.
    apply Qle_shift_div_l; [apply pow2_pos|].
    change (inject_Z 0) with 0. rewrite Qmult_0_l. apply Qlt_le_weak. exact H.
  - rewrite (fl_nonpos q H). lra.
Qed.

Lemma ulp_exp_mono x y : 0 < x -> x <= y -> (ulp_exp x <= ulp_exp y)%Z.
Proof.
  intros Hx Hxy. unfold ulp_exp. pose proof (ilog2_mono x y Hx Hxy). lia.
Qed.

(** The rounded value stays inside the closed binade. *)
Lemma fl_upper q : 0 < q -> fl q <= pow2 (ulp_exp q + prec).
Proof.
  intros Hq. rewrite (fl_pos_eq q Hq).
  set (e := ulp_exp q). pose proof (pow2_pos e) as Pe.
  rewrite pow2_plus, (Qmult_comm (pow2 e)).
  apply Qmult_le_r; [exact Pe|].
  rewrite <- (pow2_Z prec) by (unfold prec; lia).
  rewrite <- Zle_Qle. apply rne_le. rewrite (pow2_Z prec) by (unfold prec; lia).
  apply Qle_shift_div_r; [exact Pe|].
  rewrite <- pow2_plus. destruct (ilog2_spec q Hq) as [_ Hhi].
  apply Qlt_le_weak. apply Qlt_le_trans with (1 := Hhi).
  apply pow2_le. unfold e, ulp_exp, prec. lia.
Qed.

Lemma fl_lower q :
  0 < q -> (emin < ulp_exp q)%Z -> pow2 (ulp_exp q + (prec - 1)) <= fl q.
Proof.
  intros Hq He. rewrite (fl_pos_eq q Hq).
  set (e := ulp_exp q) in *. pose proof (pow2_pos e) as Pe.
  rewrite pow2_plus, (Qmult_comm (pow2 e)).
  apply Qmult_le_r; [exact Pe|].
  rewrite <- (pow2_Z (prec - 1)) by (unfold prec; lia).
  rewrite <- Zle_Qle. apply rne_ge. rewrite (pow2_Z (prec - 1)) by (unfold prec; lia).
  apply Qle_shift_div_l; [exact Pe|].
  rewrite <- pow2_plus. destruct (ilog2_spec q Hq) as [Hlo _].
  apply Qle_trans with (2 := Hlo).
  apply pow2_le. unfold e, ulp_exp, prec in *. lia.
Qed.

Theorem fl_mono x y : x <= y -> fl x <= fl y.
Proof.
  intros H. destruct (Qlt_le_dec 0 x) as [Hx | Hx].
  2:{ rewrite (fl_nonpos x Hx). apply fl_nonneg. }
  assert (Hy : 0 < y) by lra.
  pose proof (ulp_exp_mono x y Hx H) as He.
  destruct (Z.eq_dec (ulp_exp x) (ulp_exp y)) as [E | N].
  - rewrite (fl_pos_eq x Hx), (fl_pos_eq y Hy), E.
    pose proof (pow2_pos (ulp_exp y)) as Pe.
    apply Qmult_le_r; [exact Pe|]. rewrite <- Zle_Qle. apply rne_mono.
    apply Qmult_le_r; [apply Qinv_lt_0_compat; exact Pe | exact H].
  - apply Qle_trans with (pow2 (ulp_exp x + prec)); [apply fl_upper; exact Hx|].
    apply Qle_trans with (pow2 (ulp_exp y + (prec - 1))).
    + apply pow2_le. lia.
    + apply fl_lower; [exact Hy|]. unfold ulp_exp in *. lia.
Qed.

Lemma fl_comp x y : x == y -> fl x == fl y.
Proof. intros E. apply Qle_antisym; apply fl_mono; lra. Qed.

(** A value that is a whole number of units in the last place is exact. *)
Lemma fl_exact q m : 0 < q -> q == inject_Z m * pow2 (ulp_exp q) -> fl q == q.
Proof.
  intros Hq E. rewrite (fl_pos_eq q Hq).
  pose proof (pow2_pos (ulp_exp q)) as Pe.
  assert (Hm : q / pow2 (ulp_exp q) == inject_Z m).
  { rewrite E at 1. apply Qdiv_mult_l. lra. }
  rewrite (rne_comp _ _ Hm), rne_Z. symmetry. exact E.
Qed.

Lemma ilog2_Z z : (0 < z)%Z -> ilog2 (inject_Z z) = Z.log2 z.
Proof.
  intros Hz. destruct (log2_binade z Hz). apply ilog2_unique; assumption.
Qed.

Theorem fl_exact_int z : (0 <= z <= 2 ^ 53)%Z -> fl (inject_Z z) == inject_Z z.
Proof.
  intros [H0 H1]. destruct (Z.eq_dec z 0) as [-> | Nz]; [reflexivity|].
  destruct (Z.eq_dec z (2 ^ 53)) as [-> | Nm]; [vm_compute; reflexivity|].
  assert (Hz : (0 < z)%Z) by lia.
  assert (Hl : (Z.log2 z < 53)%Z) by (apply Z.log2_lt_pow2; lia).
  pose proof (Z.log2_nonneg z) as Hl0.
  assert (Hq : 0 < inject_Z z) by (change 0 with (inject_Z 0); rewrite <- Zlt_Qlt; exact Hz).
  assert (He : ulp_exp (inject_Z z) = (Z.log2 z - 52)%Z).
  { unfold ulp_exp, prec, emin. rewrite (ilog2_Z z Hz). lia. }
  apply (fl_exact _ (z * 2 ^ (52 - Z.log2 z)) Hq).
  rewrite He, inject_Z_mult, pow2_Z by lia.
  rewrite <- Qmult_assoc, <- pow2_plus.
  replace (52 - Z.log2 z + (Z.log2 z - 52))%Z with 0%Z by lia.
  unfold pow2. simpl. lra.
Qed.

End Binary64Facts.

(** ** Arithmetic of Numbers on integers of at most 53 bits *)

Module JsNumFacts.

Import Binary64 Binary64Facts JsNum.
Local Open Scope Q_scope.


Lemma Qred_inject_Z z : Qred (inject_Z z) = inject_Z z.
Proof.
  unfold inject_Z, Qred.
  pose proof (Z.ggcd_gcd z 1) as G. pose proof (Z.ggcd_correct_divisors z 1) as D.
  destruct (Z.ggcd z 1) as [g [a b]]. simpl in *.
  rewrite Z.gcd_1_r in G. subst g. destruct D as [D1 D2].
  rewrite Z.mul_1_l in D1, D2. subst a b. reflexivity.
Qed.

Lemma fl_int z : (0 <= z <= 2 ^ 53)%Z -> fl (inject_Z z) = inject_Z z.
Proof.
  intros H. pose proof (fl_exact_int z H) as E.
  destruct (Z.eq_dec z 0) as [-> | N]; [reflexivity|].
  assert (Hq : 0 < inject_Z z).
  { change 0 with (inject_Z 0). rewrite <- Zlt_Qlt. lia. }
  rewrite (fl_pos_eq _ Hq) in E.
  unfold fl. destruct (Qle_bool (inject_Z z) 0) eqn:L.
  - apply Qle_bool_iff in L. lra.
  - transitivity (Qred (inject_Z z)); [|apply Qred_inject_Z].
    apply Qred_complete. exact E.
Qed.

Lemma overflows_small q : q <= inject_Z (2 ^ 53) -> overflows q = false.
Proof.
  intros H. unfold overflows. destruct (Qle_bool (pow2 1024) q) eqn:E; [|reflexivity].
  apply Qle_bool_iff in E. exfalso.
  assert (inject_Z (2 ^ 53) < pow2 1024).
  { rewrite pow2_Z by lia. apply pow2_lt. lia. }
  lra.
Qed.

Lemma round_int s z : (0 <= z <= 2 ^ 53)%Z -> round s (inject_Z z) = Fin s (inject_Z z).
Proof.
  intros H. unfold round. rewrite (fl_int z H).
  rewrite overflows_small; [reflexivity|]. rewrite <- Zle_Qle. lia.
Qed.

Lemma of_Z_nonneg z : (0 <= z <= 2 ^ 53)%Z -> of_Z z = Fin false (inject_Z z).
Proof.
  intros H. unfold of_Z. replace (z <? 0)%Z with false by (symmetry; apply Z.ltb_ge; lia).
  rewrite Z.abs_eq by lia. apply round_int. exact H.
Qed.

Lemma of_Z_neg z : (- 2 ^ 53 <= z < 0)%Z -> of_Z z = Fin true (inject_Z (- z)).
Proof.
  intros H. unfold of_Z. replace (z <? 0)%Z with true by (symmetry; apply Z.ltb_lt; lia).
  rewrite Z.abs_neq by lia. apply round_int. lia.
Qed.

Lemma ilog2_comp x y : 0 < x -> x == y -> ilog2 x = ilog2 y.
Proof.
  intros Hx E. destruct (ilog2_spec x Hx) as [X1 X2].
  symmetry. apply ilog2_unique; lra.
Qed.

Lemma fl_comp_eq x y : x == y -> fl x = fl y.
Proof.
  intros E. unfold fl.
  destruct (Qle_bool x 0) eqn:Lx, (Qle_bool y 0) eqn:Ly; try reflexivity.
  - apply Qle_bool_iff in Lx. assert (Qle_bool y 0 = true) by (apply Qle_bool_iff; lra). congruence.
  - apply Qle_bool_iff in Ly. assert (Qle_bool x 0 = true) by (apply Qle_bool_iff; lra). congruence.
  - assert (Hx : 0 < x).
    { apply Qnot_le_lt. intros H. apply Qle_bool_iff in H. congruence. }
    unfold ulp_exp. rewrite (ilog2_comp x y Hx E).
    apply Qred_complete.
    set (e := Z.max (ilog2 y - (prec - 1)) emin).
    assert (Ed : x / pow2 e == y / pow2 e) by (rewrite E; reflexivity).
    rewrite (rne_comp _ _ Ed). reflexivity.
Qed.

Lemma round_comp s x y : x == y -> round s x = round s y.
Proof. intros E. unfold round. rewrite (fl_comp_eq x y E). reflexivity. Qed.

Lemma round_int' s q z : q == inject_Z z -> (0 <= z <= 2 ^ 53)%Z -> round s q = Fin s (inject_Z z).
Proof. intros E H. rewrite (round_comp s _ _ E). apply round_int. exact H. Qed.

Lemma of_Z_fin z :
  (Z.abs z <= 2 ^ 53)%Z -> of_Z z = Fin (z <? 0)%Z (inject_Z (Z.abs z)).
Proof. intros H. unfold of_Z. apply round_int. lia. Qed.

Lemma sval_of_Z z : sval (z <? 0)%Z (inject_Z (Z.abs z)) == inject_Z z.
Proof.
  unfold sval. destruct (Z.ltb_spec z 0).
  - rewrite Z.abs_neq by lia. rewrite inject_Z_opp. ring.
  - rewrite Z.abs_eq by lia. reflexivity.
Qed.

Lemma Qle_bool_Z a b : Qle_bool (inject_Z a) (inject_Z b) = (a <=? b)%Z.
Proof.
  destruct (Z.leb_spec a b) as [H | H].
  - apply Qle_bool_iff. rewrite <- Zle_Qle. exact H.
  - destruct (Qle_bool _ _) eqn:E; [|reflexivity].
    apply Qle_bool_iff in E. rewrite <- Zle_Qle in E. lia.
Qed.

Lemma Qeq_bool_Z a b : Qeq_bool (inject_Z a) (inject_Z b) = (a =? b)%Z.
Proof.
  destruct (Z.eqb_spec a b) as [H | H].
  - subst. apply Qeq_bool_iff. reflexivity.
  - destruct (Qeq_bool _ _) eqn:E; [|reflexivity].
    apply Qeq_bool_iff in E. unfold Qeq in E. simpl in E. lia.
Qed.

Lemma Qle_bool_comp x x' y y' : x == x' -> y == y' -> Qle_bool x y = Qle_bool x' y'.
Proof.
  intros Ex Ey. destruct (Qle_bool x' y') eqn:E.
  - apply Qle_bool_iff. apply Qle_bool_iff in E. lra.
  - destruct (Qle_bool x y) eqn:E'; [|reflexivity].
    apply Qle_bool_iff in E'. assert (Qle_bool x' y' = true) by (apply Qle_bool_iff; lra).
    congruence.
Qed.

Lemma Qeq_bool_comp x x' y y' : x == x' -> y == y' -> Qeq_bool x y = Qeq_bool x' y'.
Proof.
  intros Ex Ey. destruct (Qeq_bool x' y') eqn:E.
  - apply Qeq_bool_iff. apply Qeq_bool_iff in E. lra.
  - destruct (Qeq_bool x y) eqn:E'; [|reflexivity].
    apply Qeq_bool_iff in E'. assert (Qeq_bool x' y' = true) by (apply Qeq_bool_iff; lra).
    congruence.
Qed.

(** Comparisons of small integers. *)
Lemma lt_int a b :
  (Z.abs a <= 2 ^ 53)%Z -> (Z.abs b <= 2 ^ 53)%Z -> lt (of_Z a) (of_Z b) = (a <? b)%Z.
Proof.
  intros Ha Hb. rewrite (of_Z_fin a Ha), (of_Z_fin b Hb). unfold lt.
  rewrite (Qle_bool_comp _ _ _ _ (sval_of_Z b) (sval_of_Z a)), Qle_bool_Z.
  rewrite Z.ltb_antisym. reflexivity.
Qed.

Lemma eq_int a b :
  (Z.abs a <= 2 ^ 53)%Z -> (Z.abs b <= 2 ^ 53)%Z -> eq (of_Z a) (of_Z b) = (a =? b)%Z.
Proof.
  intros Ha Hb. rewrite (of_Z_fin a Ha), (of_Z_fin b Hb). unfold eq.
  rewrite (Qeq_bool_comp _ _ _ _ (sval_of_Z a) (sval_of_Z b)), Qeq_bool_Z. reflexivity.
Qed.

Lemma gt_int a b :
  (Z.abs a <= 2 ^ 53)%Z -> (Z.abs b <= 2 ^ 53)%Z -> gt (of_Z a) (of_Z b) = (b <? a)%Z.
Proof. intros. unfold gt. apply lt_int; assumption. Qed.

Lemma ge_int a b :
  (Z.abs a <= 2 ^ 53)%Z -> (Z.abs b <= 2 ^ 53)%Z -> ge (of_Z a) (of_Z b) = (b <=? a)%Z.
Proof.
  intros Ha Hb. unfold ge. rewrite lt_int, eq_int by assumption.
  destruct (Z.ltb_spec b a), (Z.eqb_spec a b), (Z.leb_spec b a); simpl; try reflexivity; lia.
Qed.

Lemma neq_int a b :
  (Z.abs a <= 2 ^ 53)%Z -> (Z.abs b <= 2 ^ 53)%Z -> neq (of_Z a) (of_Z b) = negb (a =? b)%Z.
Proof. intros. unfold neq. rewrite eq_int by assumption. reflexivity. Qed.

(** Sums and differences of small integers are exact. *)
Lemma add_int a b :
  (Z.abs a <= 2 ^ 53)%Z -> (Z.abs b <= 2 ^ 53)%Z -> (Z.abs (a + b) <= 2 ^ 53)%Z ->
  (a + b = 0 -> 0 <= a \/ 0 <= b)%Z ->
  add (of_Z a) (of_Z b) = of_Z (a + b).
Proof.
  intros Ha Hb Hab Hz. rewrite (of_Z_fin a Ha), (of_Z_fin b Hb). unfold add.
  set (v := sval _ _ + sval _ _).
  assert (Ev : v == inject_Z (a + b)).
  { unfold v. rewrite (sval_of_Z a), (sval_of_Z b), inject_Z_plus. reflexivity. }
  rewrite (Qeq_bool_comp v _ 0 (inject_Z 0) Ev (Qeq_refl _)), Qeq_bool_Z.
  destruct (Z.eqb_spec (a + b) 0) as [E0 | N0].
  - rewrite E0. replace ((a <? 0)%Z && (b <? 0)%Z) with false; [reflexivity|].
    destruct (Z.ltb_spec a 0), (Z.ltb_spec b 0); simpl; try reflexivity; lia.
  - rewrite (Qle_bool_comp 0 (inject_Z 0) v _ (Qeq_refl _) Ev), Qle_bool_Z.
    rewrite (of_Z_fin (a + b) Hab).
    replace (negb (0 <=? a + b)%Z) with (a + b <? 0)%Z
      by (rewrite Z.ltb_antisym; reflexivity).
    apply round_int'; [|lia].
    rewrite Ev. destruct (Z.ltb_spec (a + b) 0).
    + rewrite Z.abs_neq by lia. rewrite Qabs_neg.
      * rewrite inject_Z_opp. reflexivity.
      * change 0 with (inject_Z 0). rewrite <- Zle_Qle. lia.
    + rewrite Z.abs_eq by lia. apply Qabs_pos.
      change 0 with (inject_Z 0). rewrite <- Zle_Qle. lia.
Qed.

Lemma neg_of_Z b : (Z.abs b <= 2 ^ 53)%Z -> b <> 0%Z -> neg (of_Z b) = of_Z (- b).
Proof.
  intros Hb Nb. rewrite (of_Z_fin b Hb), (of_Z_fin (- b)) by lia.
  unfold neg. rewrite Z.abs_opp.
  replace (- b <? 0)%Z with (negb (b <? 0)%Z); [reflexivity|].
  destruct (Z.ltb_spec b 0), (Z.ltb_spec (- b) 0); simpl; try reflexivity; lia.
Qed.

Lemma sub_int a b :
  (Z.abs a <= 2 ^ 53)%Z -> (0 < b <= 2 ^ 53)%Z -> (Z.abs (a - b) <= 2 ^ 53)%Z ->
  sub (of_Z a) (of_Z b) = of_Z (a - b).
Proof.
  intros Ha Hb Hab. unfold sub. rewrite neg_of_Z by lia.
  rewrite add_int; try lia. f_equal.
Qed.

Lemma rem_int a b :
  (0 <= a <= 2 ^ 53)%Z -> (0 < b <= 2 ^ 53)%Z ->
  rem (of_Z a) (of_Z b) = of_Z (a mod b).
Proof.
  intros Ha Hb. pose proof (Z.mod_pos_bound a b ltac:(lia)) as Hm.
  rewrite !of_Z_nonneg by lia. unfold rem.
  change (Qeq_bool (inject_Z b) 0) with (Qeq_bool (inject_Z b) (inject_Z 0)).
  rewrite Qeq_bool_Z. replace (b =? 0)%Z with false by (symmetry; apply Z.eqb_neq; lia).
  f_equal. rewrite <- Zdiv_Qdiv. rewrite <- (Qred_inject_Z (a mod b)).
  apply Qred_complete. rewrite (Z.mod_eq a b) by lia.
  unfold Z.sub. rewrite inject_Z_plus, inject_Z_opp, inject_Z_mult. ring.
Qed.

Lemma to_index_int a : (0 <= a <= 2 ^ 53)%Z -> to_index (of_Z a) = Some (Z.to_nat a).
Proof.
  intros Ha. rewrite of_Z_nonneg by lia. unfold to_index.
  rewrite Qfloor_Z, Qeq_bool_Z, Z.eqb_refl. reflexivity.
Qed.

End JsNumFacts.

(** ** The unit count of line 284 *)

Module DotsFacts.

Import Binary64 Binary64Facts JsNum JsNumFacts Download.
Local Open Scope Q_scope.

Lemma fl_one : fl 1 == 1.
Proof. apply (fl_exact_int 1). lia. Qed.

Lemma fl_ge_one n : (1 <= n)%Z -> 1 <= fl (inject_Z n).
Proof.
  intros H. rewrite <- fl_one. apply fl_mono.
  change 1 with (inject_Z 1). rewrite <- Zle_Qle. exact H.
Qed.

Lemma fl_le_int q z : (0 <= z <= 2 ^ 53)%Z -> q <= inject_Z z -> fl q <= inject_Z z.
Proof.
  intros Hz H. rewrite <- (fl_exact_int z Hz). apply fl_mono. exact H.
Qed.

Lemma quotient_bounds d t : 0 <= d -> 1 <= t -> 0 <= d / t /\ d / t <= d.
Proof.
  intros Hd Ht. split.
  - apply Qle_shift_div_l; lra.
  - apply Qle_shift_div_r; [lra|].
    setoid_replace d with (d * 1) at 1 by ring.
    apply Qmult_le_compat_nonneg; split; lra.
Qed.

Lemma inject_Z_nonneg z : (0 <= z)%Z -> 0 <= inject_Z z.
Proof. intros H. change 0 with (inject_Z 0). rewrite <- Zle_Qle. exact H. Qed.

(** The byte counts for which line 284 stays within the integers a double
    holds exactly: the count times 100 does, or the count does and is at
    most the declared total. *)
Lemma small_quotient d n :
  (1 <= n)%Z -> (0 <= d <= 2 ^ 53)%Z -> (d <= n)%Z ->
  fl (inject_Z d / fl (inject_Z n)) <= 1.
Proof.
  intros Hn Hd Hdn. rewrite <- fl_one. apply fl_mono.
  pose proof (fl_ge_one n Hn) as Ht.
  apply Qle_shift_div_r; [lra|]. rewrite Qmult_1_l.
  rewrite <- (fl_exact_int d Hd). apply fl_mono. rewrite <- Zle_Qle. exact Hdn.
Qed.

(** The rounded product [fl (fl (d / t) * 100)] lies between [0] and
    [100 * d], and below [100] while [d] is at most the declared total. *)
Lemma product_bounds d n :
  (1 <= n)%Z -> (0 <= d <= 2 ^ 53)%Z -> (100 * d <= 2 ^ 53 \/ d <= n)%Z ->
  let t := fl (inject_Z n) in
  0 <= fl (fl (inject_Z d / t) * inject_Z 100) /\
  fl (fl (inject_Z d / t) * inject_Z 100) <= inject_Z (2 ^ 53) /\
  fl (inject_Z d / t) <= inject_Z (2 ^ 53) /\
  ((100 * d <= 2 ^ 53)%Z ->
   fl (fl (inject_Z d / t) * inject_Z 100) <= inject_Z (100 * d)).
Proof.
  intros Hn Hd Hb t. pose proof (fl_ge_one n Hn) as Ht. fold t in Ht.
  destruct (quotient_bounds (inject_Z d) t (inject_Z_nonneg d (proj1 Hd)) Ht) as [Q0 Q1].
  assert (X1 : fl (inject_Z d / t) <= inject_Z d) by (apply fl_le_int; [lia | exact Q1]).
  assert (X2 : (100 * d <= 2 ^ 53)%Z ->
               fl (fl (inject_Z d / t) * inject_Z 100) <= inject_Z (100 * d)).
  { intros H. apply fl_le_int; [lia|]. rewrite inject_Z_mult, Qmult_comm.
    apply Qmult_le_l; [reflexivity | exact X1]. }
  split; [apply fl_nonneg|]. split; [|split; [|exact X2]].
  - destruct Hb as [Hb | Hb].
    + apply Qle_trans with (1 := X2 Hb). rewrite <- Zle_Qle. exact Hb.
    + apply fl_le_int; [lia|].
      apply Qle_trans with (1 * inject_Z 100).
      * apply Qmult_le_compat_r; [|discriminate]. apply small_quotient; assumption.
      * rewrite Qmult_1_l. rewrite <- Zle_Qle. lia.
  - apply Qle_trans with (1 := X1). rewrite <- Zle_Qle. lia.
Qed.

Lemma dotsZ_bounds n d :
  (1 <= n)%Z -> (0 <= d <= 2 ^ 53)%Z -> (100 * d <= 2 ^ 53 \/ d <= n)%Z ->
  (0 <= dotsZ n d <= 2 ^ 53)%Z.
Proof.
  intros Hn Hd Hb. unfold dotsZ. destruct (overflows _); [lia|].
  destruct (product_bounds d n Hn Hd Hb) as (P0 & P1 & _).
  split.
  - rewrite <- (Qfloor_Z 0). apply Qfloor_resp_le. exact P0.
  - rewrite <- (Qfloor_Z (2 ^ 53)). apply Qfloor_resp_le. exact P1.
Qed.

Lemma dotsZ_le n d :
  (1 <= n)%Z -> (0 <= d)%Z -> (100 * d <= 2 ^ 53)%Z -> (dotsZ n d <= 100 * d)%Z.
Proof.
  intros Hn Hd Hb. unfold dotsZ. destruct (overflows _); [lia|].
  destruct (product_bounds d n Hn ltac:(lia) (or_introl Hb)) as (_ & _ & _ & P).
  rewrite <- (Qfloor_Z (100 * d)). apply Qfloor_resp_le. exact (P Hb).
Qed.

Lemma dotsZ_mono n d1 d2 :
  (1 <= n)%Z -> (0 <= d1 <= d2)%Z -> (dotsZ n d1 <= dotsZ n d2)%Z.
Proof.
  intros Hn Hd. unfold dotsZ. destruct (overflows _); [lia|].
  pose proof (fl_ge_one n Hn) as Ht.
  apply Qfloor_resp_le, fl_mono.
  apply Qmult_le_compat_r; [|discriminate].
  apply fl_mono. apply Qmult_le_compat_r.
  - rewrite <- Zle_Qle. lia.
  - apply Qlt_le_weak, Qinv_lt_0_compat. lra.
Qed.

Lemma overflows_int n : (1 <= n <= 2 ^ 53)%Z -> overflows (fl (inject_Z n)) = false.
Proof.
  intros H. apply overflows_small. rewrite fl_exact_int by lia. rewrite <- Zle_Qle. lia.
Qed.

Lemma dotsZ_full n : (1 <= n <= 2 ^ 53)%Z -> dotsZ n n = 100%Z.
Proof.
  intros Hn. unfold dotsZ. rewrite overflows_int by lia.
  assert (E1 : inject_Z n / fl (inject_Z n) == 1).
  { rewrite fl_exact_int by lia. field. intros E. unfold Qeq in E. simpl in E. lia. }
  assert (E2 : fl (inject_Z n / fl (inject_Z n)) * inject_Z 100 == inject_Z 100).
  { rewrite (fl_comp _ _ E1), fl_one. ring. }
  rewrite (Qfloor_comp _ _ (fl_comp _ _ E2)).
  rewrite (Qfloor_comp _ _ (fl_exact_int 100 ltac:(lia))). apply Qfloor_Z.
Qed.

Lemma dotsZ_le_100 n d :
  (1 <= n <= 2 ^ 53)%Z -> (0 <= d <= n)%Z -> (dotsZ n d <= 100)%Z.
Proof.
  intros Hn Hd. rewrite <- (dotsZ_full n Hn). apply dotsZ_mono; lia.
Qed.

(** Line 284 on a transfer with a declared total of [n] bytes and [d] bytes
    received. *)
Lemma target_dots n d :
  (1 <= n)%Z -> (0 <= d <= 2 ^ 53)%Z -> (100 * d <= 2 ^ 53 \/ d <= n)%Z ->
  floor (mul (div (of_Z d) (of_Z n)) (of_Z 100)) = of_Z (dotsZ n d).
Proof.
  intros Hn Hd Hb. pose proof (dotsZ_bounds n d Hn Hd Hb) as Hu.
  rewrite (of_Z_nonneg d), (of_Z_nonneg 100), (of_Z_nonneg (dotsZ n d)) by lia.
  unfold of_Z, dotsZ in *.
  replace (n <? 0)%Z with false by (symmetry; apply Z.ltb_ge; lia).
  rewrite Z.abs_eq by lia. unfold round at 1.
  destruct (overflows (fl (inject_Z n))) eqn:Ov.
  - cbn [div mul xorb].
    rewrite (round_int' false (0 * inject_Z 100) 0) by (try ring; lia).
    cbn [floor]. rewrite Qfloor_Z. reflexivity.
  - pose proof (fl_ge_one n Hn) as Ht.
    destruct (product_bounds d n Hn Hd Hb) as (P0 & P1 & P2 & _).
    cbn [div xorb].
    destruct (Qeq_bool (fl (inject_Z n)) 0) eqn:Z0.
    { apply Qeq_bool_iff in Z0. lra. }
    unfold round at 1. rewrite overflows_small by exact P2.
    cbn [mul xorb]. unfold round. rewrite overflows_small by exact P1.
    reflexivity.
Qed.

End DotsFacts.

(** ** What every run does, whatever the response declares *)

Module ShapeFacts.

Import JsNum Download.

Section WithHost.

Context {host : Host}.

Lemma record_nil h : record [] h = h.
Proof. destruct h. unfold record. simpl. rewrite app_nil_r. reflexivity. Qed.

Lemma record_record l1 l2 h : record l2 (record l1 h) = record (l1 ++ l2) h.
Proof. unfold record. simpl. rewrite app_assoc. reflexivity. Qed.

Lemma state_record l h : state (record l h) = state h.
Proof. reflexivity. Qed.

Lemma while_false {L} fuel (c : L -> State -> bool) b l h :
  c l (state h) = false -> while (S fuel) c b l h = Some (Normal l, h).
Proof. intros H. cbn [while]. rewrite H. reflexivity. Qed.

Lemma while_true {L} fuel (c : L -> State -> bool) b l h l' h' :
  c l (state h) = true -> b l h = Some (Normal l', h') ->
  while (S fuel) c b l h = while fuel c b l' h'.
Proof. intros H B. cbn [while]. rewrite H, B. reflexivity. Qed.

Lemma draws_ret {A} (a : A) : draws (ret a).
Proof.
  intros h c h' E. unfold ret in E. injection E as <- <-.
  repeat split. exists []. cbn [map]. rewrite app_nil_r. reflexivity.
Qed.

Lemma draws_get_state : draws get_state.
Proof.
  intros h c h' E. unfold get_state in E. injection E as <- <-.
  repeat split. exists []. cbn [map]. rewrite app_nil_r. reflexivity.
Qed.

Lemma draws_stdout_write chunk : draws (stdout_write chunk).
Proof.
  intros h c h' E. destruct chunk as [s|]; cbn in E; injection E as <- <-.
  - repeat split. exists [s]. reflexivity.
  - repeat split. exists []. cbn [map]. rewrite app_nil_r. reflexivity.
Qed.

Lemma draws_set_currentDots v : draws (modify_state (set_currentDots v)).
Proof.
  intros h c h' E. unfold modify_state in E. injection E as <- <-.
  repeat split. exists []. cbn [map with_state trace]. rewrite app_nil_r. reflexivity.
Qed.

Lemma draws_bind {A B} (m : M A) (k : A -> M B) :
  draws m -> (forall a, draws (k a)) -> draws (bind m k).
Proof.
  intros Hm Hk h c h' E. unfold bind in E.
  destruct (m h) as [[[a | e] h1]|] eqn:E1; [| |discriminate].
  - destruct (Hm _ _ _ E1) as (P1 & D1 & T1 & U1 & ws1 & W1).
    destruct (Hk a _ _ _ E) as (P2 & D2 & T2 & U2 & ws2 & W2).
    repeat split; try congruence.
    exists (ws1 ++ ws2). rewrite W2, W1, map_app, app_assoc. reflexivity.
  - injection E as <- <-. exact (Hm _ _ _ E1).
Qed.

Lemma draws_while {L} fuel (c : L -> State -> bool) (b : L -> M L) :
  (forall l, draws (b l)) -> forall l, draws (while fuel c b l).
Proof.
  intros Hb. induction fuel as [|fuel IH]; intros l h r h' E; [discriminate|].
  cbn [while] in E. destruct (c l (state h)).
  - destruct (b l h) as [[[l1 | e] h1]|] eqn:E1; [| |discriminate].
    + destruct (Hb l _ _ _ E1) as (P1 & D1 & T1 & U1 & ws1 & W1).
      destruct (IH l1 _ _ _ E) as (P2 & D2 & T2 & U2 & ws2 & W2).
      repeat split; try congruence.
      exists (ws1 ++ ws2). rewrite W2, W1, map_app, app_assoc. reflexivity.
    + injection E as <- <-. exact (Hb l _ _ _ E1).
  - exact (draws_ret l _ _ _ E).
Qed.

Lemma draws_units_body l : draws (units_body l).
Proof.
  destruct l as [units remainWidth]. unfold units_body.
  apply draws_bind; [apply draws_stdout_write | intros; apply draws_ret].
Qed.

Lemma draws_filler_body l : draws (filler_body l).
Proof.
  unfold filler_body.
  apply draws_bind; [apply draws_stdout_write | intros; apply draws_ret].
Qed.

Lemma draws_showProgress fuel : draws (showProgress fuel).
Proof.
  unfold showProgress.
  apply draws_bind; [apply draws_get_state | intros st].
  apply draws_bind; [apply draws_stdout_write | intros _].
  apply draws_bind; [apply draws_while, draws_units_body | intros locals].
  apply draws_bind; [apply draws_while, draws_filler_body | intros _].
  apply draws_stdout_write.
Qed.

(** [showProgress] reads the [state] object and does not change it. *)
Lemma still_ret {A} (a : A) : still (ret a).
Proof. intros h c h' E. unfold ret in E. injection E as <- <-. reflexivity. Qed.

Lemma still_stdout_write chunk : still (stdout_write chunk).
Proof.
  intros h c h' E. destruct chunk as [s|]; cbn in E; injection E as <- <-; reflexivity.
Qed.

Lemma still_bind {A B} (m : M A) (k : A -> M B) :
  still m -> (forall a, still (k a)) -> still (bind m k).
Proof.
  intros Hm Hk h c h' E. unfold bind in E.
  destruct (m h) as [[[a | e] h1]|] eqn:E1; [| |discriminate].
  - rewrite (Hk a _ _ _ E). exact (Hm _ _ _ E1).
  - injection E as <- <-. exact (Hm _ _ _ E1).
Qed.

Lemma still_while {L} fuel (c : L -> State -> bool) (b : L -> M L) :
  (forall l, still (b l)) -> forall l, still (while fuel c b l).
Proof.
  intros Hb. induction fuel as [|fuel IH]; intros l h r h' E; [discriminate|].
  cbn [while] in E. destruct (c l (state h)).
  - destruct (b l h) as [[[l1 | e] h1]|] eqn:E1; [| |discriminate].
    + rewrite (IH l1 _ _ _ E). exact (Hb l _ _ _ E1).
    + injection E as <- <-. exact (Hb l _ _ _ E1).
  - injection E as <- <-. reflexivity.
Qed.

Lemma still_showProgress fuel : still (showProgress fuel).
Proof.
  unfold showProgress.
  apply still_bind; [intros h c h' E; injection E as <- <-; reflexivity | intros st].
  apply still_bind; [apply still_stdout_write | intros _].
  apply still_bind.
  { apply still_while. intros [units remainWidth]. unfold units_body.
    apply still_bind; [apply still_stdout_write | intros; apply still_ret]. }
  intros locals. apply still_bind; [|intros; apply still_stdout_write].
  apply still_while. intros remainWidth. unfold filler_body.
  apply still_bind; [apply still_stdout_write | intros; apply still_ret].
Qed.

Lemma draws_dots_body fuel v l : draws (dots_body fuel v l).
Proof.
  unfold dots_body.
  apply draws_bind; [apply draws_set_currentDots | intros _; apply draws_showProgress].
Qed.

(** One chunk, whatever the state: the byte count grows by the size of the
    chunk, the bar may be drawn, and the chunk is written to the sink unless
    an exception escapes. *)
Lemma onData_shape fuel (data : Buffer) h c h' :
  onData fuel data h = Some (c, h') ->
  promise h' = promise h /\
  doneSize (state h') = add (doneSize (state h)) (of_nat (List.length data)) /\
  totalSize (state h') = totalSize (state h) /\
  totalDots (state h') = totalDots (state h) /\
  exists ws,
    trace h' = trace h ++ map StdoutWrite ws
               ++ match c with Normal _ => [SinkWrite data] | Throw _ => [] end.
Proof.
  unfold onData, bind, modify_state, get_state. cbn [state with_state].
  set (h1 := with_state _ h).
  set (v := floor _).
  destruct (while fuel (dots_cond v) (dots_body fuel v) tt h1)
    as [[[[] | e] h2]|] eqn:W; [| |discriminate].
  - intros E. unfold emit in E. injection E as <- <-.
    destruct (draws_while fuel _ _ (draws_dots_body fuel v) tt _ _ _ W)
      as (P & D & T & U & ws & Tr).
    cbn [record promise state trace]. rewrite P, D, T, U, Tr.
    repeat split. exists ws. rewrite <- app_assoc. reflexivity.
  - intros E. injection E as <- <-.
    destruct (draws_while fuel _ _ (draws_dots_body fuel v) tt _ _ _ W)
      as (P & D & T & U & ws & Tr).
    rewrite P, D, T, U, Tr. repeat split. exists ws.
    rewrite app_nil_r. reflexivity.
Qed.

End WithHost.

End ShapeFacts.

(** ** Observations on traces *)

Module TraceFacts.

Import JsNum Download.

Lemma sink_log_app a b : sink_log (a ++ b) = sink_log a ++ sink_log b.
Proof. apply filter_app. Qed.

Lemma net_log_app a b : net_log (a ++ b) = net_log a ++ net_log b.
Proof. apply filter_app. Qed.

Lemma sink_writes_app a b : sink_writes (a ++ b) = sink_writes a ++ sink_writes b.
Proof.
  induction a as [|x a IH]; [reflexivity|].
  destruct x; cbn [app sink_writes]; rewrite IH; reflexivity.
Qed.

Lemma sink_closes_app a b : sink_closes (a ++ b) = (sink_closes a + sink_closes b)%nat.
Proof.
  induction a as [|x a IH]; [reflexivity|].
  destruct x; cbn [app sink_closes]; rewrite IH; reflexivity.
Qed.

Lemma res_closes_app a b : res_closes (a ++ b) = (res_closes a + res_closes b)%nat.
Proof.
  induction a as [|x a IH]; [reflexivity|].
  destruct x as [| | | | | | |[]]; cbn [app res_closes]; rewrite IH; reflexivity.
Qed.

Lemma requests_app a b : requests (a ++ b) = requests a ++ requests b.
Proof.
  induction a as [|x a IH]; [reflexivity|].
  destruct x; cbn [app requests]; rewrite IH; reflexivity.
Qed.

Lemma destroys_app a b : destroys (a ++ b) = (destroys a + destroys b)%nat.
Proof.
  induction a as [|x a IH]; [reflexivity|].
  destruct x; cbn [app destroys]; rewrite IH; reflexivity.
Qed.

Lemma emitted_app a b : emitted (a ++ b) = emitted a ++ emitted b.
Proof.
  induction a as [|x a IH]; [reflexivity|].
  destruct x; cbn [app emitted]; rewrite IH; reflexivity.
Qed.

(** Writes to the standard output are invisible to the other observations. *)
Lemma emitted_stdout ws : emitted (map StdoutWrite ws) = [].
Proof. induction ws as [|w ws IH]; [reflexivity | exact IH]. Qed.

Lemma sink_log_stdout ws : sink_log (map StdoutWrite ws) = [].
Proof. induction ws as [|w ws IH]; [reflexivity | exact IH]. Qed.

Lemma net_log_stdout ws : net_log (map StdoutWrite ws) = [].
Proof. induction ws as [|w ws IH]; [reflexivity | exact IH]. Qed.

Lemma sink_writes_stdout ws : sink_writes (map StdoutWrite ws) = [].
Proof. induction ws as [|w ws IH]; [reflexivity | exact IH]. Qed.

Lemma sink_closes_stdout ws : sink_closes (map StdoutWrite ws) = 0%nat.
Proof. induction ws as [|w ws IH]; [reflexivity | exact IH]. Qed.

Lemma res_closes_stdout ws : res_closes (map StdoutWrite ws) = 0%nat.
Proof. induction ws as [|w ws IH]; [reflexivity | exact IH]. Qed.

Lemma requests_stdout ws : requests (map StdoutWrite ws) = [].
Proof. induction ws as [|w ws IH]; [reflexivity | exact IH]. Qed.

Lemma destroys_stdout ws : destroys (map StdoutWrite ws) = 0%nat.
Proof. induction ws as [|w ws IH]; [reflexivity | exact IH]. Qed.

Lemma no_report_stdout ws size : ~ In (ConsoleLog (Downloaded size)) (map StdoutWrite ws).
Proof.
  intros H. apply in_map_iff in H. destruct H as (w & E & _). discriminate.
Qed.

Lemma sink_writes_log tr : sink_writes (sink_log tr) = sink_writes tr.
Proof.
  induction tr as [|x tr IH]; [reflexivity|].
  unfold sink_log in *.
  destruct x; cbn [filter on_sink sink_writes]; rewrite ?IH; reflexivity.
Qed.

Lemma requests_net_log tr : requests (net_log tr) = requests tr.
Proof.
  induction tr as [|x tr IH]; [reflexivity|].
  unfold net_log in *.
  destruct x; cbn [filter on_net requests]; rewrite ?IH; reflexivity.
Qed.

Lemma destroys_net_log tr : destroys (net_log tr) = destroys tr.
Proof.
  induction tr as [|x tr IH]; [reflexivity|].
  unfold net_log in *.
  destruct x; cbn [filter on_net destroys]; rewrite ?IH; reflexivity.
Qed.

Lemma sink_writes_map body : sink_writes (map SinkWrite body) = body.
Proof.
  induction body as [|b body IH]; [reflexivity|].
  cbn [map sink_writes]. f_equal. exact IH.
Qed.

Lemma report_follows_close_nil : report_follows_close [].
Proof. intros pre post size E. destruct pre; discriminate. Qed.

(** Appending to a trace keeps the order of report and confirmation, when
    the confirmation is already there or no report is appended. *)
Lemma report_follows_close_app tr l :
  report_follows_close tr ->
  In (Emitted OutClose) tr \/ (forall size, ~ In (ConsoleLog (Downloaded size)) l) ->
  report_follows_close (tr ++ l).
Proof.
  intros Htr Hl pre post size E.
  assert (Hin : forall x y, l = x ++ ConsoleLog (Downloaded size) :: y ->
                            In (Emitted OutClose) tr).
  { intros x y El. destruct Hl as [H | H]; [exact H|].
    exfalso. apply (H size). rewrite El. apply in_elt. }
  apply app_eq_app in E. destruct E as (x & [[E1 E2] | [E1 E2]]).
  - destruct x as [|a x].
    + rewrite app_nil_r in E1. subst pre. cbn [app] in E2.
      apply (Hin [] post). symmetry. exact E2.
    + cbn [app] in E2. injection E2 as <- E2. apply (Htr pre x size E1).
  - subst pre. apply in_or_app. left. apply (Hin x post). exact E2.
Qed.

Lemma sink_closes_zero l : sink_closes l = 0%nat -> ~ In SinkClose l.
Proof.
  induction l as [|x l IH]; intros H Hin; [exact Hin|].
  destruct Hin as [-> | Hin]; [discriminate|].
  apply IH; [|exact Hin]. destruct x; cbn [sink_closes] in H; try exact H. discriminate.
Qed.

Lemma closed_on_close_nil : closed_on_close [].
Proof. intros pre post E. destruct pre; discriminate. Qed.

Lemma closed_on_close_app tr l :
  closed_on_close tr -> sink_closes l = 0%nat -> closed_on_close (tr ++ l).
Proof.
  intros Htr Hl pre post E. pose proof (sink_closes_zero l Hl) as Hn.
  apply app_eq_app in E. destruct E as (x & [[E1 E2] | [E1 E2]]).
  - destruct x as [|a x].
    + exfalso. apply Hn. cbn [app] in E2. rewrite <- E2. left. reflexivity.
    + cbn [app] in E2. injection E2 as <- E2. apply (Htr pre x E1).
  - exfalso. apply Hn. rewrite E2. apply in_elt.
Qed.

Lemma closed_on_close_close tr :
  closed_on_close tr -> closed_on_close (tr ++ [Emitted ResClose; SinkClose]).
Proof.
  intros Htr pre post E.
  change [Emitted ResClose; SinkClose] with ([Emitted ResClose] ++ [SinkClose]) in E.
  rewrite app_assoc in E.
  apply app_eq_app in E. destruct E as (x & [[E1 E2] | [E1 E2]]).
  - destruct x as [|a x].
    + exists tr. rewrite app_nil_r in E1. symmetry. exact E1.
    + cbn [app] in E2. injection E2 as <- E2.
      apply (closed_on_close_app tr [Emitted ResClose] Htr eq_refl pre x E1).
  - destruct x as [|a x].
    + exists tr. rewrite app_nil_r in E1. exact E1.
    + exfalso. cbn [app] in E2. injection E2 as _ E2. destruct x; discriminate.
Qed.

End TraceFacts.

(** ** [showProgress] and [onData] on a transfer with a declared total *)

Module ProgressFacts.

Import Binary64 Binary64Facts JsNum JsNumFacts DotsFacts Download ShapeFacts.
Local Open Scope Z_scope.

Section WithHost.

Context {host : Host}.

Lemma drawn_zero : drawn 0 = [].
Proof. reflexivity. Qed.

Lemma drawn_small u :
  0 < u < 8 -> drawn u = [List.nth (Z.to_nat u) (chunks theme) ""%string].
Proof.
  intros H. unfold drawn. rewrite Z.div_small, Z.mod_small by lia.
  replace (u =? 0) with false by (symmetry; apply Z.eqb_neq; lia). reflexivity.
Qed.

Lemma drawn_step u : 8 <= u -> drawn u = "█"%string :: drawn (u - 8).
Proof.
  intros H. unfold drawn.
  assert (Ed : u / 8 = (u - 8) / 8 + 1).
  { rewrite <- Z.div_add by lia. f_equal. lia. }
  assert (Em : u mod 8 = (u - 8) mod 8).
  { rewrite <- (Z.mod_add (u - 8) 1 8) by lia. f_equal. lia. }
  rewrite Ed, Em.
  replace (Z.to_nat ((u - 8) / 8 + 1)) with (S (Z.to_nat ((u - 8) / 8))).
  - reflexivity.
  - pose proof (Z.div_pos (u - 8) 8). lia.
Qed.

Lemma chunks_at_int c :
  0 <= c <= 8 ->
  chunks_at (of_Z c) = Some (List.nth (Z.to_nat c) (chunks theme) ""%string).
Proof.
  intros H. unfold chunks_at. rewrite to_index_int by lia.
  assert (Hc : (Z.to_nat c < 9)%nat) by lia.
  revert Hc. generalize (Z.to_nat c). intros n Hn.
  do 9 (destruct n as [|n]; [reflexivity|]). lia.
Qed.

(** The loop of lines 261-270 draws [drawn u] and leaves no unit. *)
Lemma units_loop fuel : forall u r h,
  0 <= u <= 2 ^ 53 -> Z.abs r + (u + 7) / 8 <= 2 ^ 53 ->
  (Z.to_nat ((u + 7) / 8) < fuel)%nat ->
  while fuel units_cond units_body (of_Z u, of_Z r) h
  = Some (Normal (of_Z 0, of_Z (r - (u + 7) / 8)),
          record (map StdoutWrite (drawn u)) h).
Proof.
  induction fuel as [|fuel IH]; intros u r h Hu Hr Hf; [lia|].
  cbn [while units_cond]. rewrite gt_int by lia.
  destruct (Z.ltb_spec 0 u) as [Hpos | Hz].
  - cbn [units_body]. rewrite ge_int, rem_int by lia.
    assert (Hq : 1 <= (u + 7) / 8) by (apply Z.div_le_lower_bound; lia).
    destruct (Z.leb_spec 8 u) as [H8 | H8].
    + assert (E8 : (u + 7) / 8 = (u - 8 + 7) / 8 + 1).
      { rewrite <- Z.div_add by lia. f_equal. lia. }
      rewrite (chunks_at_int 8) by lia.
      unfold bind, stdout_write, emit, ret.
      rewrite !sub_int by lia.
      rewrite IH by lia.
      rewrite record_record. rewrite (drawn_step u H8).
      replace (r - 1 - (u - 8 + 7) / 8) with (r - (u + 7) / 8) by lia.
      reflexivity.
    + assert (E1 : (u + 7) / 8 = 1).
      { symmetry. apply Z.div_unique with (r := u - 1); lia. }
      rewrite Z.mod_small by lia. rewrite (chunks_at_int u) by lia.
      unfold bind, stdout_write, emit, ret.
      rewrite !sub_int by lia. rewrite Z.sub_diag.
      change ((0 + 7) / 8) with 0 in IH.
      rewrite IH.
      * rewrite record_record, drawn_zero, (drawn_small u), E1 by lia.
        change ((0 + 7) / 8) with 0. rewrite Z.sub_0_r, app_nil_r. reflexivity.
      * lia.
      * change ((0 + 7) / 8) with 0. lia.
      * change ((0 + 7) / 8) with 0. rewrite E1 in Hf. lia.
  - assert (u = 0) by lia. subst u. change ((0 + 7) / 8) with 0.
    rewrite Z.sub_0_r, drawn_zero. cbn [map]. rewrite record_nil. reflexivity.
Qed.

(** The loop of lines 271-274 pads with blanks. *)
Lemma filler_loop fuel : forall r h,
  Z.abs r <= 2 ^ 53 -> (Z.to_nat r < fuel)%nat ->
  exists r',
    while fuel filler_cond filler_body (of_Z r) h
    = Some (Normal r',
            record (map StdoutWrite (List.repeat " "%string (Z.to_nat r))) h).
Proof.
  induction fuel as [|fuel IH]; intros r h Hr Hf; [lia|].
  cbn [while]. unfold filler_cond at 1. rewrite gt_int by lia.
  destruct (Z.ltb_spec 0 r) as [Hpos | Hz].
  - unfold filler_body at 1. unfold bind, stdout_write, emit, ret.
    rewrite sub_int by lia.
    destruct (IH (r - 1) (record [StdoutWrite (filler theme)] h)) as [r' E]; [lia | lia |].
    exists r'. rewrite E, record_record.
    replace (Z.to_nat r) with (S (Z.to_nat (r - 1))) by lia. reflexivity.
  - exists (of_Z r). replace (Z.to_nat r) with 0%nat by lia.
    cbn [List.repeat map]. rewrite record_nil. reflexivity.
Qed.

Lemma width_13 : ceil (div (of_Z 100) (of_Z 8)) = of_Z 13.
Proof. vm_compute. reflexivity. Qed.

Lemma showProgress_int fuel h u :
  currentDots (state h) = of_Z u -> totalDots (state h) = of_Z 100 ->
  0 <= u <= 2 ^ 53 ->
  (Z.to_nat (u / 8) + 16 <= fuel)%nat ->
  showProgress fuel h = Some (Normal tt, record (rendering (state h) u) h).
Proof.
  intros Hc Ht Hu Hf.
  assert (Hq8 : u / 8 <= 2 ^ 50).
  { change (2 ^ 50) with (2 ^ 53 / 8). apply Z.div_le_mono; lia. }
  assert (Hq : 0 <= (u + 7) / 8 <= u / 8 + 1).
  { split; [apply Z.div_pos; lia|].
    replace (u / 8 + 1) with ((u + 1 * 8) / 8) by (rewrite Z.div_add; lia).
    apply Z.div_le_mono; lia. }
  assert (Hq' : u / 8 <= u) by (apply Z.div_le_upper_bound; lia).
  unfold showProgress, bind, get_state, stdout_write, emit.
  rewrite Hc, Ht, width_13.
  rewrite units_loop by (cbn [state record]; lia).
  cbn [snd].
  destruct (filler_loop fuel (13 - (u + 7) / 8)
              (record (map StdoutWrite (drawn u))
                 (record [StdoutWrite (CR ++ start theme)] h))) as [r' E]; [lia | lia |].
  rewrite E. rewrite !record_record. unfold rendering, bar.
  rewrite map_app. cbn [app]. rewrite <- !app_assoc. reflexivity.
Qed.

End WithHost.

End ProgressFacts.

(** ** The data listener and the event loop *)

Module TransferFacts.

Import Binary64 Binary64Facts JsNum JsNumFacts DotsFacts Download ProgressFacts.
Import ShapeFacts TraceFacts.
Local Open Scope Z_scope.

Section WithHost.

Context {host : Host}.

Lemma dotsZ_zero n : 1 <= n -> dotsZ n 0 = 0.
Proof.
  intros H. pose proof (dotsZ_bounds n 0 H ltac:(lia) ltac:(lia)).
  pose proof (dotsZ_le n 0 H ltac:(lia) ltac:(lia)). lia.
Qed.

(** Fuel that suffices to draw the bar at [u] units. *)
Lemma dots_fuel n d b fuel :
  1 <= n -> 0 <= d <= b ->
  dotsZ n b <= 2 ^ 53 ->
  (Z.to_nat (dotsZ n b / 8) + 16 <= fuel)%nat ->
  (Z.to_nat (dotsZ n d / 8) + 16 <= fuel)%nat.
Proof.
  intros Hn Hd Hb Hf. pose proof (dotsZ_mono n d b Hn Hd) as Hm.
  assert (dotsZ n d / 8 <= dotsZ n b / 8) by (apply Z.div_le_mono; lia).
  lia.
Qed.

(** One chunk on a transfer that declared [n] bytes: the byte count grows by
    the size of the chunk, the bar is drawn again if the unit count changed,
    and the chunk is written to the sink. *)
Lemma onData_progress fuel h (data : Buffer) n d :
  state h = progress_state n d ->
  1 <= n -> 0 <= d ->
  let d' := d + Z.of_nat (List.length data) in
  d' <= 2 ^ 53 -> (100 * d' <= 2 ^ 53 \/ d' <= n) ->
  (Z.to_nat (dotsZ n d' / 8) + 16 <= fuel)%nat ->
  let redraw :=
    if dotsZ n d =? dotsZ n d' then []
    else rendering (progress_state n d') (dotsZ n d') in
  onData fuel data h
  = Some (Normal tt,
          record (redraw ++ [SinkWrite data]) (with_state (progress_state n d') h)).
Proof.
  intros Hs Hn Hd d' Hd' Hb Hf redraw.
  assert (Hd0 : 0 <= d') by (unfold d'; lia).
  assert (Hbd : 100 * d <= 2 ^ 53 \/ d <= n) by (unfold d' in Hb; lia).
  pose proof (dotsZ_bounds n d Hn ltac:(unfold d' in Hd'; lia) Hbd) as Hu.
  pose proof (dotsZ_bounds n d' Hn ltac:(lia) Hb) as Hu'.
  unfold onData, bind, modify_state, get_state.
  cbn [state with_state]. rewrite Hs.
  cbn [set_doneSize progress_state doneSize totalSize totalDots currentDots prefix].
  unfold of_nat. rewrite add_int by (unfold d' in Hd'; lia). fold d'.
  rewrite target_dots by lia.
  set (h1 := with_state _ h).
  assert (C1 : dots_cond (of_Z (dotsZ n d')) tt (state h1)
               = negb (dotsZ n d =? dotsZ n d')).
  { unfold dots_cond, h1. cbn [state with_state currentDots]. apply neq_int; lia. }
  destruct fuel as [|fuel]; [lia|]. unfold redraw.
  destruct (Z.eqb_spec (dotsZ n d) (dotsZ n d')) as [E | N].
  - rewrite (while_false _ _ _ _ _ C1). unfold emit, h1. cbn [app].
    unfold progress_state. rewrite E. reflexivity.
  - destruct fuel as [|fuel]; [lia|].
    assert (B : dots_body (S (S fuel)) (of_Z (dotsZ n d')) tt h1
                = Some (Normal tt,
                        record (rendering (progress_state n d') (dotsZ n d'))
                          (with_state (progress_state n d') h))).
    { unfold dots_body, bind, modify_state, h1.
      cbn [state with_state set_currentDots doneSize totalSize totalDots prefix].
      fold (progress_state n d').
      rewrite (showProgress_int _ _ (dotsZ n d')); try reflexivity; lia. }
    rewrite (while_true _ _ _ _ _ _ _ C1 B).
    rewrite while_false.
    + unfold emit. rewrite record_record. reflexivity.
    + unfold dots_cond. cbn [state record with_state progress_state currentDots].
      rewrite neq_int by lia. rewrite Z.eqb_refl. reflexivity.
Qed.

Lemma with_state_record st l h : with_state st (record l h) = record l (with_state st h).
Proof. reflexivity. Qed.

Lemma size_cons (data : Buffer) body :
  size (data :: body) = Z.of_nat (List.length data) + size body.
Proof.
  unfold size. change (List.concat (data :: body)) with (data ++ List.concat body).
  rewrite length_app. lia.
Qed.

Lemma size_nonneg body : 0 <= size body.
Proof. unfold size. lia. Qed.

Lemma sink_log_rendering st u : sink_log (rendering st u) = [].
Proof.
  unfold rendering. change (StdoutWrite ?s :: ?l) with ([StdoutWrite s] ++ l).
  unfold sink_log. rewrite !filter_app. fold (sink_log (map StdoutWrite (bar 13 u))).
  rewrite sink_log_stdout. reflexivity.
Qed.

Lemma net_log_rendering st u : net_log (rendering st u) = [].
Proof.
  unfold rendering. change (StdoutWrite ?s :: ?l) with ([StdoutWrite s] ++ l).
  unfold net_log. rewrite !filter_app. fold (net_log (map StdoutWrite (bar 13 u))).
  rewrite net_log_stdout. reflexivity.
Qed.

Lemma emitted_rendering st u : emitted (rendering st u) = [].
Proof.
  unfold rendering. change (StdoutWrite ?s :: ?l) with ([StdoutWrite s] ++ l).
  rewrite !emitted_app, emitted_stdout. reflexivity.
Qed.

(** The chunks of a body, delivered in order to a pending transfer: each is
    written to the sink, and the call keeps waiting. *)
Lemma deliver_data n : forall body h d,
  state h = progress_state n d -> promise h = Pending ->
  1 <= n -> 0 <= d ->
  d + size body <= 2 ^ 53 ->
  (100 * (d + size body) <= 2 ^ 53 \/ d + size body <= n) ->
  exists l,
    (forall fuel,
       (Z.to_nat (dotsZ n (d + size body) / 8) + 16 <= fuel)%nat ->
       deliver fuel (map ResData body) Waiting h
       = Some (Waiting, record l (with_state (progress_state n (d + size body)) h))) /\
    sink_log l = map SinkWrite body /\ net_log l = [] /\
    emitted l = map ResData body.
Proof.
  induction body as [|data body IH]; intros h d Hs Hp Hn Hd Hb Hb'.
  - exists []. split; [|repeat split; reflexivity]. intros fuel _.
    unfold size. cbn [List.concat List.length map deliver Z.of_nat].
    rewrite Z.add_0_r, record_nil. rewrite <- Hs.
    destruct h; reflexivity.
  - rewrite size_cons in *. pose proof (size_nonneg body) as Hsz.
    set (d' := d + Z.of_nat (List.length data)) in *.
    assert (Hdd : d + (Z.of_nat (List.length data) + size body) = d' + size body)
      by (unfold d'; lia).
    rewrite Hdd in *.
    pose proof (dotsZ_bounds n (d' + size body) Hn ltac:(unfold d'; lia) Hb') as Hu.
    set (redraw := if dotsZ n d =? dotsZ n d' then []
                   else rendering (progress_state n d') (dotsZ n d')).
    destruct (IH (record ([Emitted (ResData data)] ++ redraw ++ [SinkWrite data])
                    (with_state (progress_state n d') h)) d')
      as (l & E & S1 & S2 & S3); try assumption; try reflexivity; try (unfold d'; lia).
    exists (([Emitted (ResData data)] ++ redraw ++ [SinkWrite data]) ++ l).
    assert (R1 : sink_log redraw = []).
    { unfold redraw. destruct (_ =? _); [reflexivity | apply sink_log_rendering]. }
    assert (R2 : net_log redraw = []).
    { unfold redraw. destruct (_ =? _); [reflexivity | apply net_log_rendering]. }
    assert (R3 : emitted redraw = []).
    { unfold redraw. destruct (_ =? _); [reflexivity | apply emitted_rendering]. }
    split; [|split; [|split]].
    + intros fuel Hf.
      assert (Hf' : (Z.to_nat (dotsZ n d' / 8) + 16 <= fuel)%nat).
      { apply (dots_fuel n d' (d' + size body)); lia. }
      pose proof (onData_progress fuel (record [Emitted (ResData data)] h) data n d
                    Hs Hn Hd ltac:(fold d'; lia) ltac:(fold d'; lia) Hf') as E1.
      fold d' in E1. cbv zeta in E1. fold redraw in E1.
      cbn [map deliver]. unfold bind at 1. unfold emit at 1. cbn [listener].
      rewrite E1. cbn [promise record with_state]. rewrite Hp.
      replace (record (redraw ++ [SinkWrite data])
                 (with_state (progress_state n d') (record [Emitted (ResData data)] h)))
        with (record ([Emitted (ResData data)] ++ redraw ++ [SinkWrite data])
                (with_state (progress_state n d') h)).
      * rewrite (E fuel Hf). f_equal. f_equal. unfold record, with_state.
        cbn [state promise trace]. rewrite <- !app_assoc. reflexivity.
      * unfold record, with_state. cbn [state promise trace].
        rewrite <- !app_assoc. reflexivity.
    + rewrite !sink_log_app, S1, R1. reflexivity.
    + rewrite !net_log_app, S2, R2. reflexivity.
    + rewrite !emitted_app, S3, R3. reflexivity.
Qed.

Lemma last_cons {A} (a d : A) l : last (a :: l) d = last l a.
Proof.
  revert a d. induction l as [|b l IH]; intros a d; [reflexivity|].
  change (last (a :: b :: l) d) with (last (b :: l) d).
  rewrite (IH b d), (IH b a). reflexivity.
Qed.

(** The unit counts chunk after chunk. *)
Lemma dots_after_progress n : forall body h d,
  state h = progress_state n d ->
  1 <= n -> 0 <= d ->
  d + size body <= 2 ^ 53 ->
  (100 * (d + size body) <= 2 ^ 53 \/ d + size body <= n) ->
  forall fuel,
    (Z.to_nat (dotsZ n (d + size body) / 8) + 16 <= fuel)%nat ->
    dots_after fuel body h = Some (map of_Z (dots_list n d body)).
Proof.
  induction body as [|data body IH]; intros h d Hs Hn Hd Hb Hb' fuel Hf.
  - reflexivity.
  - rewrite size_cons in *. pose proof (size_nonneg body) as Hsz.
    set (d' := d + Z.of_nat (List.length data)) in *.
    assert (Hdd : d + (Z.of_nat (List.length data) + size body) = d' + size body)
      by (unfold d'; lia).
    rewrite Hdd in *.
    pose proof (dotsZ_bounds n (d' + size body) Hn ltac:(unfold d'; lia) Hb') as Hu.
    assert (Hf' : (Z.to_nat (dotsZ n d' / 8) + 16 <= fuel)%nat).
    { apply (dots_fuel n d' (d' + size body)); lia. }
    pose proof (onData_progress fuel h data n d
                  Hs Hn Hd ltac:(fold d'; lia) ltac:(fold d'; lia) Hf') as E1.
    fold d' in E1. cbv zeta in E1.
    cbn [dots_after dots_list map]. fold d'. rewrite E1.
    rewrite (IH _ d'); try assumption; try reflexivity; try (unfold d'; lia).
Qed.

Lemma dots_list_sorted n : forall body d,
  1 <= n -> 0 <= d -> Sorted Z.le (dotsZ n d :: dots_list n d body).
Proof.
  induction body as [|data body IH]; intros d Hn Hd.
  - repeat constructor.
  - cbn [dots_list]. constructor.
    + apply IH; lia.
    + constructor. apply dotsZ_mono; lia.
Qed.

Lemma dots_list_last n : forall body d,
  last (dots_list n d body) (dotsZ n d) = dotsZ n (d + size body).
Proof.
  induction body as [|data body IH]; intros d.
  - unfold size. cbn. rewrite Z.add_0_r. reflexivity.
  - cbn [dots_list]. rewrite last_cons, IH, size_cons. f_equal. lia.
Qed.

(** After the body, the response closes and the sink confirms: the sink is
    closed, the line is cleared, the report is made and the call returns. *)
Lemma deliver_close fuel h :
  promise h = Pending ->
  deliver fuel [ResClose; OutClose] Waiting h
  = Some (Fulfilled,
          record ([Emitted ResClose; SinkClose; Emitted OutClose;
                   StdoutWrite blank_line]
                  ++ (if negb verbose then []
                      else [ConsoleLog (Downloaded (formatSize (totalSize (state h))))]))
            (with_state (state h)
               {| state := state h; promise := Resolved; trace := trace h |})).
Proof.
  intros Hp. cbn [deliver]. unfold bind, emit, listener, settle, report, debug,
    stdout_write, get_state, bind, emit, ret.
  cbn [promise record state trace]. rewrite Hp.
  destruct (negb verbose); unfold record, with_state; cbn [state promise trace];
    rewrite <- ?app_assoc; reflexivity.
Qed.

Lemma deliver_app fuel : forall e1 e2 o h o' h',
  deliver fuel e1 o h = Some (o', h') ->
  (forall e, o' <> Crashed e) ->
  deliver fuel (e1 ++ e2) o h = deliver fuel e2 o' h'.
Proof.
  induction e1 as [|ev e1 IH]; intros e2 o h o' h' E Hc.
  - cbn [deliver] in E. injection E as <- <-. reflexivity.
  - cbn [app deliver] in *.
    destruct ((emit (Emitted ev);; listener fuel ev) h) as [[[[] | e] h1]|];
      [| |discriminate].
    + destruct o; try (apply IH; assumption).
      destruct (promise h1); try (apply IH; assumption).
      destruct (report h1) as [[[[] | e] h2]|]; [| |discriminate];
        apply IH; assumption.
    + injection E as <- <-. exfalso. apply (Hc e). reflexivity.
Qed.

(** A complete response that declares [n] bytes: the bar is drawn, the body
    is copied to the sink, the sink is closed and the call returns once the
    sink has confirmed. *)
Lemma stream_complete res tr n body :
  totalSize (initial_state res) = of_Z n -> 1 <= n ->
  size body <= 2 ^ 53 -> (100 * size body <= 2 ^ 53 \/ size body <= n) ->
  events res = map ResData body ++ [ResClose; OutClose] ->
  exists l,
    (forall fuel,
       (Z.to_nat (dotsZ n (size body) / 8) + 16 <= fuel)%nat ->
       stream fuel res tr
       = Some {| outcome := Fulfilled;
                 transfer := Some (progress_state n (size body));
                 actions := tr ++ l |}) /\
    sink_log l = map SinkWrite body ++ [SinkClose] /\ net_log l = [] /\
    emitted l = events res.
Proof.
  intros Ht Hn Hb Hb' Hev. pose proof (size_nonneg body) as Hsz.
  assert (Hs0 : initial_state res = progress_state n 0).
  { unfold progress_state. rewrite <- Ht, dotsZ_zero by lia. reflexivity. }
  set (h0 := {| state := progress_state n 0; promise := Pending; trace := tr |}).
  pose proof (dotsZ_bounds n (size body) Hn ltac:(lia) Hb') as Hu.
  destruct (deliver_data n body (record (rendering (progress_state n 0) 0) h0) 0)
    as (l & E & S1 & S2 & S3).
  { reflexivity. }
  { reflexivity. }
  { lia. }
  { lia. }
  { lia. }
  { lia. }
  rewrite Z.add_0_l in E.
  set (rep := if negb verbose then []
              else [ConsoleLog (Downloaded (formatSize (totalSize (progress_state n (size body)))))]).
  exists (rendering (progress_state n 0) 0 ++ l
          ++ [Emitted ResClose; SinkClose; Emitted OutClose; StdoutWrite blank_line]
          ++ rep).
  assert (R1 : sink_log rep = []) by (unfold rep; destruct (negb verbose); reflexivity).
  assert (R2 : net_log rep = []) by (unfold rep; destruct (negb verbose); reflexivity).
  assert (R3 : emitted rep = []) by (unfold rep; destruct (negb verbose); reflexivity).
  split; [|split; [|split]].
  - intros fuel Hf. unfold stream. rewrite Hs0. fold h0.
    assert (E0 : showProgress fuel h0
                 = Some (Normal tt, record (rendering (progress_state n 0) 0) h0)).
    { apply showProgress_int.
      - cbn. rewrite dotsZ_zero by lia. reflexivity.
      - reflexivity.
      - lia.
      - change (0 / 8) with 0. lia. }
    rewrite E0.
    rewrite Hev, (deliver_app _ _ _ _ _ _ _ (E fuel Hf)) by discriminate.
    rewrite deliver_close by reflexivity.
    cbn [state record with_state promise trace h0]. fold rep.
    f_equal. f_equal. rewrite <- !app_assoc. reflexivity.
  - rewrite !sink_log_app, sink_log_rendering, S1, R1. reflexivity.
  - rewrite !net_log_app, net_log_rendering, S2, R2. reflexivity.
  - rewrite !emitted_app, emitted_rendering, S3, R3, Hev.
    cbn [emitted app]. rewrite ?app_nil_r. reflexivity.
Qed.

(** Following a chain takes one unit of fuel per hop and leads to the call
    on its final URL. *)
Lemma chain_followed : forall hops fuel k url tr,
  redirect_chain k url hops ->
  downloadToStream (List.length hops + fuel) k url tr
  = downloadToStream fuel (k + List.length hops) (final_url url hops)
      (tr ++ chain_actions url hops).
Proof.
  induction hops as [|[res next] hops IH]; intros fuel k url tr Hc.
  - cbn [List.length chain_actions final_url map last].
    rewrite Nat.add_0_r, app_nil_r. reflexivity.
  - destruct Hc as (Hreq & Hnet & Hloc & Hurl & Hc).
    cbn [List.length Nat.add downloadToStream].
    rewrite Hreq, Hnet, Hloc.
    destruct (URL_parse next) as [u|] eqn:Eu; [|contradiction].
    rewrite IH by exact Hc.
    unfold final_url. cbn [map snd]. rewrite last_cons.
    replace (S k + List.length hops)%nat with (k + S (List.length hops))%nat by lia.
    f_equal. cbn [chain_actions]. rewrite Eu.
    destruct (negb verbose); rewrite <- !app_assoc; reflexivity.
Qed.

Lemma chain_requests : forall hops url,
  requests (chain_actions url hops) ++ [final_url url hops] = url :: map snd hops.
Proof.
  induction hops as [|[res next] hops IH]; intros url; [reflexivity|].
  cbn [chain_actions]. unfold final_url. cbn [map snd]. rewrite last_cons.
  change (Request url :: ?l) with ([Request url] ++ l).
  rewrite !requests_app.
  replace (requests (if negb verbose then [] else _)) with (@nil string).
  - change (Destroy :: ?l) with ([Destroy] ++ l). rewrite requests_app.
    cbn [requests app]. f_equal. apply IH.
  - destruct (negb verbose); [reflexivity|]. destruct (URL_parse next); reflexivity.
Qed.

Lemma chain_destroys : forall hops url,
  destroys (chain_actions url hops) = List.length hops.
Proof.
  induction hops as [|[res next] hops IH]; intros url; [reflexivity|].
  cbn [chain_actions List.length].
  change (Request url :: ?l) with ([Request url] ++ l).
  rewrite !destroys_app.
  replace (destroys (if negb verbose then [] else _)) with 0%nat.
  - change (Destroy :: ?l) with ([Destroy] ++ l). rewrite destroys_app.
    cbn [destroys Nat.add]. f_equal. apply IH.
  - destruct (negb verbose); [reflexivity|]. destruct (URL_parse next); reflexivity.
Qed.

Lemma chain_sink : forall hops url, sink_log (chain_actions url hops) = [].
Proof.
  induction hops as [|[res next] hops IH]; intros url; [reflexivity|].
  cbn [chain_actions].
  change (Request url :: ?l) with ([Request url] ++ l).
  rewrite !sink_log_app.
  replace (sink_log (if negb verbose then [] else _)) with (@nil Action).
  - change (Destroy :: ?l) with ([Destroy] ++ l). rewrite sink_log_app.
    cbn [app]. apply IH.
  - destruct (negb verbose); [reflexivity|]. destruct (URL_parse next); reflexivity.
Qed.

Lemma chain_emitted : forall hops url, emitted (chain_actions url hops) = [].
Proof.
  induction hops as [|[res next] hops IH]; intros url; [reflexivity|].
  cbn [chain_actions].
  change (Request url :: ?l) with ([Request url] ++ l).
  rewrite !emitted_app.
  replace (emitted (if negb verbose then [] else _)) with (@nil Event).
  - change (Destroy :: ?l) with ([Destroy] ++ l). rewrite emitted_app.
    cbn [app]. apply IH.
  - destruct (negb verbose); [reflexivity|]. destruct (URL_parse next); reflexivity.
Qed.

End WithHost.

End TransferFacts.

(** ** A total that is not a number, or zero *)

Module HangFacts.

Import JsNum Download ShapeFacts.

Section WithHost.

Context {host : Host}.

Lemma eq_NaN_r a : eq a NaN = false.
Proof. destruct a; reflexivity. Qed.

Lemma lt_NaN_r a : lt a NaN = false.
Proof. destruct a; reflexivity. Qed.

Lemma div_NaN_r a : div a NaN = NaN.
Proof. destruct a; reflexivity. Qed.

Lemma filler_loop_returns fuel : forall r h e h',
  while fuel filler_cond filler_body r h <> Some (Throw e, h').
Proof.
  induction fuel as [|fuel IH]; intros r h e h'; [discriminate|].
  cbn [while]. destruct (filler_cond r (state h)); [|discriminate].
  unfold filler_body at 1. unfold bind, stdout_write, emit, ret. apply IH.
Qed.

(** With no unit to draw, [showProgress] throws nothing. *)
Lemma showProgress_returns fuel h e h' :
  gt (currentDots (state h)) (of_Z 0) = false ->
  showProgress fuel h <> Some (Throw e, h').
Proof.
  intros Hc. unfold showProgress, bind, get_state, stdout_write, emit.
  destruct fuel as [|fuel]; [discriminate|].
  rewrite while_false by exact Hc.
  cbn [snd]. intros E.
  destruct (while (S fuel) filler_cond filler_body _ _) as [[[r | e1] h1]|] eqn:W;
    [discriminate | | discriminate].
  exact (filler_loop_returns _ _ _ _ _ W).
Qed.

(** The loop of lines 287-290 with [NaN] for target: its condition holds
    before and after every pass, so no amount of fuel ends it. *)
Lemma dots_loop_NaN fuel' : forall fuel h,
  while fuel (dots_cond NaN) (dots_body fuel' NaN) tt h = None.
Proof.
  induction fuel as [|fuel IH]; intros h; [reflexivity|].
  cbn [while]. unfold dots_cond at 1. unfold neq. rewrite eq_NaN_r. cbn [negb].
  unfold dots_body at 1. unfold bind at 1. unfold modify_state at 1.
  destruct (showProgress fuel' _) as [[[[] | e] h1]|] eqn:E; [apply IH | | reflexivity].
  exfalso. revert E. apply showProgress_returns. cbn [state with_state set_currentDots currentDots].
  apply lt_NaN_r.
Qed.

Lemma onData_NaN fuel (data : Buffer) h :
  totalSize (state h) = NaN -> onData fuel data h = None.
Proof.
  intros Ht. unfold onData, bind, modify_state, get_state.
  cbn [state with_state set_doneSize totalSize doneSize totalDots].
  rewrite Ht, div_NaN_r. cbn [mul floor]. rewrite dots_loop_NaN. reflexivity.
Qed.

(** A transfer whose declared total is not a number never gets past its
    first chunk. *)
Lemma stream_hangs fuel res tr data rest :
  totalSize (initial_state res) = NaN ->
  events res = ResData data :: rest ->
  stream fuel res tr = None.
Proof.
  intros Ht Hev. unfold stream.
  set (h0 := {| state := initial_state res; promise := Pending; trace := tr |}).
  destruct (showProgress fuel h0) as [[[[] | e] h1]|] eqn:E; [| |reflexivity].
  - rewrite Hev. cbn [deliver]. unfold bind at 1. unfold emit at 1. cbn [listener].
    rewrite onData_NaN; [reflexivity|].
    destruct (draws_showProgress fuel _ _ _ E) as (_ & _ & T & _).
    cbn [state record]. rewrite T. exact Ht.
  - exfalso. revert E. apply showProgress_returns. reflexivity.
Qed.

(** An infinite unit count is never used up: the loop of lines 261-270 takes
    8 units off infinity for ever. *)
Lemma units_loop_Inf : forall fuel r h,
  while fuel units_cond units_body (Inf false, r) h = None.
Proof.
  induction fuel as [|fuel IH]; intros r h; [reflexivity|].
  cbn [while units_cond]. change (gt (Inf false) (of_Z 0)) with true. cbv iota.
  cbn [units_body]. change (ge (Inf false) (of_Z 8)) with true. cbv iota.
  change (chunks_at (of_Z 8)) with (Some "█"%string).
  unfold bind, stdout_write, emit, ret.
  change (sub (Inf false) (of_Z 8)) with (Inf false). apply IH.
Qed.

Lemma showProgress_Inf fuel h :
  currentDots (state h) = Inf false -> showProgress fuel h = None.
Proof.
  intros Hc. unfold showProgress, bind, get_state, stdout_write, emit.
  rewrite Hc, units_loop_Inf. reflexivity.
Qed.

(** A chunk whose target unit count is infinite, as for a positive byte
    count over a total of zero, never gets drawn. *)
Lemma onData_Inf fuel (data : Buffer) h :
  floor (mul (div (add (doneSize (state h)) (of_nat (List.length data)))
                (totalSize (state h)))
           (totalDots (state h))) = Inf false ->
  eq (currentDots (state h)) (Inf false) = false ->
  onData fuel data h = None.
Proof.
  intros Ht Hc. unfold onData, bind, modify_state, get_state.
  cbn [state with_state set_doneSize totalSize doneSize totalDots].
  rewrite Ht. destruct fuel as [|fuel]; [reflexivity|].
  cbn [while]. unfold dots_cond at 1. unfold neq.
  cbn [state with_state set_doneSize currentDots]. rewrite Hc. cbn [negb].
  unfold dots_body at 1. unfold bind at 1. unfold modify_state at 1.
  rewrite showProgress_Inf; reflexivity.
Qed.

End WithHost.

End HangFacts.

(** ** Order of events and actions in every run *)

Module OrderFacts.

Import JsNum JsNumFacts Download ShapeFacts TraceFacts.
Local Open Scope Z_scope.

Section WithHost.

Context {host : Host}.

(** One event: the listener appends its actions after the event.  The sink
    is closed by the ["close"] of the response and by nothing else; the
    promise is resolved by the ["close"] of the sink and by nothing else. *)
Lemma listener_step fuel ev h c h1 :
  (emit (Emitted ev) ;; listener fuel ev) h = Some (c, h1) ->
  exists l,
    trace h1 = trace h ++ Emitted ev :: l /\
    sink_closes l = res_closes [Emitted ev] /\
    res_closes l = 0%nat /\
    (forall size, ~ In (ConsoleLog (Downloaded size)) l) /\
    (promise h1 = Resolved -> promise h = Resolved \/ ev = OutClose) /\
    (ev = ResClose /\ l = [SinkClose] \/ sink_closes l = 0%nat).
Proof.
  unfold bind at 1. unfold emit at 1. destruct ev as [data| | | |e|e]; cbn [listener].
  - intros E. destruct (onData_shape _ _ _ _ _ E) as (P & _ & _ & _ & ws & T).
    unfold record in P, T. cbn [trace promise] in P, T. rewrite <- app_assoc in T.
    eexists. split; [exact T|]. repeat split.
    + rewrite sink_closes_app, sink_closes_stdout. destruct c; reflexivity.
    + rewrite res_closes_app, res_closes_stdout. destruct c; reflexivity.
    + intros size Hin. apply in_app_or in Hin. destruct Hin as [Hin | Hin].
      * exact (no_report_stdout _ _ Hin).
      * destruct c; cbn in Hin; [destruct Hin as [Hin | []]; discriminate | exact Hin].
    + intros Hr. left. rewrite <- P. exact Hr.
    + right. rewrite sink_closes_app, sink_closes_stdout. destruct c; reflexivity.
  - intros E. unfold emit in E. injection E as <- <-. exists [SinkClose].
    unfold record. cbn [trace promise]. rewrite <- app_assoc. repeat split.
    + intros size [Hin | []]. discriminate.
    + intros Hr. left. exact Hr.
    + left. split; reflexivity.
  - intros E. unfold bind, emit, settle in E. injection E as <- <-.
    exists [ConsoleWarn RequestAborted].
    unfold record. cbn [trace promise]. rewrite <- app_assoc. repeat split.
    + intros size [Hin | []]. discriminate.
    + intros Hr. left. destruct (promise h); try discriminate. reflexivity.
    + right. reflexivity.
  - intros E. unfold settle in E. injection E as <- <-. exists [].
    unfold record. cbn [trace promise]. repeat split.
    + intros size [].
    + intros _. right. reflexivity.
    + right. reflexivity.
  - intros E. unfold bind, emit, settle in E. injection E as <- <-.
    exists [ConsoleWarn (IOError e)].
    unfold record. cbn [trace promise]. rewrite <- app_assoc. repeat split.
    + intros size [Hin | []]. discriminate.
    + intros Hr. left. destruct (promise h); try discriminate. reflexivity.
    + right. reflexivity.
  - intros E. unfold emit in E. injection E as <- <-.
    exists [ConsoleLog (GotError e)].
    unfold record. cbn [trace promise]. rewrite <- app_assoc. repeat split.
    + intros size [Hin | []]. discriminate.
    + intros Hr. left. exact Hr.
    + right. reflexivity.
Qed.

Lemma report_eq h :
  report h
  = Some (Normal tt,
          record ([StdoutWrite blank_line]
                  ++ (if negb verbose then []
                      else [ConsoleLog (Downloaded (formatSize (totalSize (state h))))]))
            h).
Proof.
  unfold report, bind, stdout_write, emit, get_state, debug, ret.
  cbn [state record]. destruct (negb verbose).
  - reflexivity.
  - unfold emit. rewrite record_record. reflexivity.
Qed.

(** What holds of a trace at every point of a run: the sink was closed as
    often as the response emitted ["close"], a report follows the
    confirmation of the sink, and so does the resolution of the promise. *)
Lemma step_order fuel ev h c h1 :
  (emit (Emitted ev) ;; listener fuel ev) h = Some (c, h1) ->
  (promise h = Resolved -> In (Emitted OutClose) (trace h)) ->
  sink_closes (trace h) = res_closes (trace h) ->
  report_follows_close (trace h) /\ closed_on_close (trace h) ->
  (promise h1 = Resolved -> In (Emitted OutClose) (trace h1)) /\
  sink_closes (trace h1) = res_closes (trace h1) /\
  (report_follows_close (trace h1) /\ closed_on_close (trace h1)) /\
  exists l, trace h1 = trace h ++ l.
Proof.
  intros E I1 I2 [I3 I4].
  destruct (listener_step _ _ _ _ _ E) as (l & T & S1 & S2 & S3 & S4 & S5).
  rewrite T. split; [|split; [|split; [split|]]].
  - intros Hr. apply in_or_app. destruct (S4 Hr) as [Hp | ->].
    + left. exact (I1 Hp).
    + right. left. reflexivity.
  - change (Emitted ev :: l) with ([Emitted ev] ++ l).
    rewrite !sink_closes_app, !res_closes_app, I2, S1, S2.
    destruct ev; cbn; lia.
  - apply report_follows_close_app; [exact I3|]. right.
    intros size [Hin | Hin]; [discriminate | exact (S3 size Hin)].
  - destruct S5 as [[-> ->] | S5].
    + apply closed_on_close_close. exact I4.
    + apply closed_on_close_app; [exact I4|]. destruct ev; exact S5.
  - eexists. reflexivity.
Qed.

Lemma deliver_order fuel : forall evs o h o' h',
  deliver fuel evs o h = Some (o', h') ->
  (promise h = Resolved -> In (Emitted OutClose) (trace h)) ->
  (o = Fulfilled -> In (Emitted OutClose) (trace h)) ->
  sink_closes (trace h) = res_closes (trace h) ->
  report_follows_close (trace h) /\ closed_on_close (trace h) ->
  (o' = Fulfilled -> In (Emitted OutClose) (trace h')) /\
  sink_closes (trace h') = res_closes (trace h') /\
  (report_follows_close (trace h') /\ closed_on_close (trace h')) /\
  exists l, trace h' = trace h ++ l.
Proof.
  induction evs as [|ev evs IH]; intros o h o' h' E I1 I0 I2 I3.
  - cbn [deliver] in E. injection E as <- <-.
    split; [exact I0|]. split; [exact I2|]. split; [exact I3|].
    exists []. rewrite app_nil_r. reflexivity.
  - cbn [deliver] in E.
    destruct ((emit (Emitted ev);; listener fuel ev) h) as [[[[] | e] h1]|] eqn:St;
      [| |discriminate].
    + destruct (step_order _ _ _ _ _ St I1 I2 I3) as (J1 & J2 & J3 & l1 & T1).
      assert (K : In (Emitted OutClose) (trace h) -> In (Emitted OutClose) (trace h1)).
      { intros Hin. rewrite T1. apply in_or_app. left. exact Hin. }
      assert (Go : forall o1,
                 deliver fuel evs o1 h1 = Some (o', h') ->
                 (o1 = Fulfilled -> In (Emitted OutClose) (trace h1)) ->
                 (o' = Fulfilled -> In (Emitted OutClose) (trace h')) /\
                 sink_closes (trace h') = res_closes (trace h') /\
                 (report_follows_close (trace h') /\ closed_on_close (trace h')) /\
                 exists l, trace h' = trace h ++ l).
      { intros o1 E1 H1.
        destruct (IH _ _ _ _ E1 J1 H1 J2 J3) as (R1 & R2 & R3 & l2 & T2).
        split; [exact R1|]. split; [exact R2|]. split; [exact R3|].
        exists (l1 ++ l2). rewrite T2, T1, app_assoc. reflexivity. }
      destruct o.
      * destruct (promise h1) eqn:Ep.
        -- apply (Go Waiting E). discriminate.
        -- rewrite report_eq in E.
           set (rep := [StdoutWrite blank_line] ++ _) in E.
           assert (Hc : In (Emitted OutClose) (trace h1)) by (apply J1; reflexivity).
           destruct (IH _ _ _ _ E) as (R1 & R2 & R3 & l2 & T2).
           ++ intros _. cbn [record trace]. apply in_or_app. left. exact Hc.
           ++ intros _. cbn [record trace]. apply in_or_app. left. exact Hc.
           ++ cbn [record trace]. rewrite sink_closes_app, res_closes_app, J2.
              unfold rep. destruct (negb verbose); reflexivity.
           ++ cbn [record trace]. split.
              ** apply report_follows_close_app; [exact (proj1 J3)|]. left. exact Hc.
              ** apply closed_on_close_app; [exact (proj2 J3)|].
                 unfold rep. destruct (negb verbose); reflexivity.
           ++ split; [exact R1|]. split; [exact R2|]. split; [exact R3|].
              exists (l1 ++ rep ++ l2). rewrite T2. cbn [record trace].
              rewrite T1, <- !app_assoc. reflexivity.
        -- apply (Go (Failed e) E). discriminate.
      * apply (Go Fulfilled E). intros _. apply K, I0. reflexivity.
      * apply (Go (Failed e) E). discriminate.
      * apply (Go (Crashed e) E). discriminate.
    + injection E as <- <-.
      destruct (step_order _ _ _ _ _ St I1 I2 I3) as (J1 & J2 & J3 & l1 & T1).
      split; [discriminate|]. split; [exact J2|]. split; [exact J3|].
      exists l1. exact T1.
Qed.

(** The same for a whole call, from a trace [tr] on which it holds. *)
Lemma run_order : forall fuel k url tr r,
  downloadToStream fuel k url tr = Some r ->
  sink_closes tr = res_closes tr ->
  report_follows_close tr /\ closed_on_close tr ->
  (outcome r = Fulfilled -> In (Emitted OutClose) (actions r)) /\
  sink_closes (actions r) = res_closes (actions r) /\
  (report_follows_close (actions r) /\ closed_on_close (actions r)) /\
  exists l, actions r = tr ++ l /\
            (https_request url = None -> exists l', l = Request url :: l').
Proof.
  induction fuel as [|fuel IH]; intros k url tr r E I2 [I3 I4]; [discriminate|].
  cbn [downloadToStream] in E.
  assert (Quiet : forall l,
             sink_closes l = 0%nat -> res_closes l = 0%nat ->
             (forall size, ~ In (ConsoleLog (Downloaded size)) l) ->
             sink_closes (tr ++ l) = res_closes (tr ++ l) /\
             (report_follows_close (tr ++ l) /\ closed_on_close (tr ++ l))).
  { intros l H1 H2 H3. split; [|split].
    - rewrite sink_closes_app, res_closes_app, I2, H1, H2. reflexivity.
    - apply report_follows_close_app; [exact I3 | right; exact H3].
    - apply closed_on_close_app; [exact I4 | exact H1]. }
  assert (Fail : forall e l,
             sink_closes l = 0%nat -> res_closes l = 0%nat ->
             (forall size, ~ In (ConsoleLog (Downloaded size)) l) ->
             (https_request url = None -> exists l', l = Request url :: l') ->
             let r := failed e (tr ++ l) in
             (outcome r = Fulfilled -> In (Emitted OutClose) (actions r)) /\
             sink_closes (actions r) = res_closes (actions r) /\
             (report_follows_close (actions r) /\ closed_on_close (actions r)) /\
             exists l0, actions r = tr ++ l0 /\
                        (https_request url = None -> exists l', l0 = Request url :: l')).
  { intros e l H1 H2 H3 H4 r0. destruct (Quiet l H1 H2 H3) as [Q1 Q2].
    split; [discriminate|]. split; [exact Q1|]. split; [exact Q2|].
    exists l. split; [reflexivity | exact H4]. }
  destruct (https_request url) as [e|] eqn:Hreq.
  { injection E as <-.
    replace (failed e tr) with (failed e (tr ++ []))
      by (rewrite app_nil_r; reflexivity).
    apply (Fail e []); try reflexivity.
    - intros size [].
    - discriminate. }
  destruct (net k url) as [e | res].
  { injection E as <-. rewrite <- app_assoc. apply Fail; try reflexivity.
    - intros size [H | [H | []]]; discriminate.
    - intros _. eexists. reflexivity. }
  destruct (Quiet [Request url]) as [Q1 [Q2 Q2']]; try reflexivity.
  { intros size [H | []]; discriminate. }
  destruct (truthy (header "location" (headers res))) as [redirectURL|].
  - destruct (URL_parse redirectURL) as [u|].
    + set (tr1 := (if negb verbose then tr ++ [Request url] else _) ++ [Destroy]) in E.
      assert (T1 : exists l1, tr1 = tr ++ Request url :: l1 /\
                   sink_closes l1 = 0%nat /\ res_closes l1 = 0%nat /\
                   (forall size, ~ In (ConsoleLog (Downloaded size)) l1)).
      { unfold tr1. destruct (negb verbose).
        - exists [Destroy]. rewrite <- app_assoc. repeat split.
          intros size [H | []]; discriminate.
        - exists [ConsoleLog (RedirectedTo (hostname u)); Destroy].
          rewrite <- !app_assoc. repeat split.
          intros size [H | [H | []]]; discriminate. }
      destruct T1 as (l1 & T1 & A1 & A2 & A3).
      destruct (Quiet (Request url :: l1)) as [Q3 Q4].
      { exact A1. }
      { exact A2. }
      { intros size [H | H]; [discriminate | exact (A3 size H)]. }
      rewrite <- T1 in Q3, Q4.
      destruct (IH _ _ _ _ E Q3 Q4) as (R1 & R2 & R3 & l2 & T2 & _).
      split; [exact R1|]. split; [exact R2|]. split; [exact R3|].
      exists (Request url :: l1 ++ l2). split.
      * rewrite T2, T1, <- app_assoc. reflexivity.
      * intros _. eexists. reflexivity.
    + injection E as <-. apply Fail; try reflexivity.
      * intros size [H | []]; discriminate.
      * intros _. eexists. reflexivity.
  - destruct (negb (statusCode res =? 200)%N).
    + injection E as <-. apply Fail; try reflexivity.
      * intros size [H | []]; discriminate.
      * intros _. eexists. reflexivity.
    + unfold stream in E.
      set (h0 := {| state := initial_state res; promise := Pending;
                    trace := tr ++ [Request url] |}) in E.
      destruct (showProgress (S fuel) h0) as [[[[] | e] h1]|] eqn:Sp; [| |discriminate].
      * destruct (draws_showProgress _ _ _ _ Sp) as (P1 & _ & _ & _ & ws & W1).
        cbn [h0 promise trace] in P1, W1.
        assert (B2 : sink_closes (trace h1) = res_closes (trace h1)).
        { rewrite W1, sink_closes_app, res_closes_app, Q1,
            sink_closes_stdout, res_closes_stdout. reflexivity. }
        assert (B3 : report_follows_close (trace h1) /\ closed_on_close (trace h1)).
        { rewrite W1. split.
          - apply report_follows_close_app; [exact Q2|]. right.
            intros size. apply no_report_stdout.
          - apply closed_on_close_app; [exact Q2'|]. apply sink_closes_stdout. }
        destruct (deliver (S fuel) (events res) Waiting h1) as [[o' h']|] eqn:D;
          [|discriminate].
        injection E as <-. cbn [outcome actions].
        destruct (deliver_order _ _ _ _ _ _ D) as (R1 & R2 & R3 & l2 & T2);
          try assumption.
        { rewrite P1. discriminate. }
        { discriminate. }
        split; [exact R1|]. split; [exact R2|]. split; [exact R3|].
        exists (Request url :: map StdoutWrite ws ++ l2). split.
        -- rewrite T2, W1, <- !app_assoc. reflexivity.
        -- intros _. eexists. reflexivity.
      * injection E as <-. cbn [outcome actions].
        destruct (draws_showProgress _ _ _ _ Sp) as (P1 & _ & _ & _ & ws & W1).
        cbn [h0 promise trace] in P1, W1. rewrite W1.
        split; [discriminate|]. split; [|split; [split|]].
        -- rewrite sink_closes_app, res_closes_app, Q1,
             sink_closes_stdout, res_closes_stdout. reflexivity.
        -- apply report_follows_close_app; [exact Q2|]. right.
           intros size. apply no_report_stdout.
        -- apply closed_on_close_app; [exact Q2'|]. apply sink_closes_stdout.
        -- exists (Request url :: map StdoutWrite ws). split.
           ++ rewrite <- app_assoc. reflexivity.
           ++ intros _. eexists. reflexivity.
Qed.

(** While only chunks arrive, a waiting call keeps waiting and the sink
    receives each chunk in turn, unless an exception escapes. *)
Lemma deliver_data_shape fuel : forall body h o' h',
  deliver fuel (map ResData body) Waiting h = Some (o', h') ->
  promise h = Pending ->
  (o' = Waiting /\ promise h' = Pending /\
   sink_writes (trace h') = sink_writes (trace h) ++ body) \/
  (exists e, o' = Crashed e).
Proof.
  induction body as [|data body IH]; intros h o' h' E Hp.
  - cbn [map deliver] in E. injection E as <- <-. left.
    rewrite app_nil_r. repeat split. exact Hp.
  - cbn [map deliver] in E. unfold bind at 1 in E. unfold emit at 1 in E.
    cbn [listener] in E.
    destruct (onData fuel data (record [Emitted (ResData data)] h))
      as [[[[] | e] h1]|] eqn:D; [| |discriminate].
    + destruct (onData_shape _ _ _ _ _ D) as (P & _ & _ & _ & ws & T).
      cbn [record promise trace] in P, T. rewrite P, Hp in E.
      destruct (IH _ _ _ E) as [(R1 & R2 & R3) | R]; [congruence | left | right; exact R].
      repeat split; try assumption.
      rewrite R3, T, !sink_writes_app, sink_writes_stdout.
      cbn [sink_writes]. rewrite app_nil_r, <- app_assoc. reflexivity.
    + injection E as <- <-. right. exists e. reflexivity.
Qed.

(** The byte count after a sequence of chunks is the count before plus
    their sizes, as long as the sum is an integer a double holds exactly. *)
Lemma deliver_data_doneSize fuel : forall body h h' d,
  deliver fuel (map ResData body) Waiting h = Some (Waiting, h') ->
  promise h = Pending ->
  doneSize (state h) = of_Z d -> 0 <= d -> d + size body <= 2 ^ 53 ->
  doneSize (state h') = of_Z (d + size body) /\
  totalSize (state h') = totalSize (state h).
Proof.
  induction body as [|data body IH]; intros h h' d E Hp Hd H0 Hb.
  - cbn [map deliver] in E. injection E as <-.
    unfold size. cbn [List.concat List.length Z.of_nat]. rewrite Z.add_0_r.
    split; [exact Hd | reflexivity].
  - assert (Hs : size (data :: body) = Z.of_nat (List.length data) + size body).
    { unfold size. change (List.concat (data :: body)) with (data ++ List.concat body).
      rewrite length_app. lia. }
    assert (Hsz : 0 <= size body) by (unfold size; lia).
    rewrite Hs in *.
    cbn [map deliver] in E. unfold bind at 1 in E. unfold emit at 1 in E.
    cbn [listener] in E.
    destruct (onData fuel data (record [Emitted (ResData data)] h))
      as [[[[] | e] h1]|] eqn:D; [| discriminate | discriminate].
    destruct (onData_shape _ _ _ _ _ D) as (P & D1 & T1 & _).
    cbn [record promise state] in P, D1, T1. rewrite P, Hp in E.
    rewrite Hd in D1. unfold of_nat in D1. rewrite add_int in D1 by lia.
    destruct (IH _ _ (d + Z.of_nat (List.length data)) E) as [R1 R2];
      try assumption; try lia; try congruence.
    split; [|congruence]. rewrite R1. f_equal. lia.
Qed.

(** Events other than chunks always get handled, write nothing to the sink
    and leave a settled call as it is. *)
Lemma deliver_control fuel : forall rest o h,
  Forall not_data rest -> o <> Waiting ->
  exists h',
    deliver fuel rest o h = Some (o, h') /\
    sink_writes (trace h') = sink_writes (trace h).
Proof.
  induction rest as [|ev rest IH]; intros o h Hnd Ho.
  - exists h. split; reflexivity.
  - inversion Hnd as [|? ? Hev Hrest]; subst.
    assert (St : exists h1,
               (emit (Emitted ev);; listener fuel ev) h = Some (Normal tt, h1) /\
               sink_writes (trace h1) = sink_writes (trace h)).
    { destruct ev as [data| | | |e|e]; [destruct Hev| | | | |];
        (eexists; split; [reflexivity|]);
        cbn [record settle trace]; rewrite ?sink_writes_app; cbn [sink_writes];
        rewrite ?app_nil_r; reflexivity. }
    destruct St as (h1 & St & W1).
    destruct (IH o h1 Hrest Ho) as (h' & E & W).
    exists h'. split; [|congruence].
    cbn [deliver]. rewrite St. destruct o; try exact E. contradiction.
Qed.

End WithHost.

End OrderFacts.

(** ** Worked values *)

Module Illustrations.

Import JsNum Download HangFacts.
Local Open Scope Z_scope.
Local Open Scope string_scope.

(** The two roundings of line 284 are visible: 29 bytes of 100 give 28
    units, because [0.29 * 100] is [28.999999999999996] in doubles. *)
Example twenty_nine_percent :
  floor (mul (div (of_Z 29) (of_Z 100)) (of_Z 100)) = of_Z 28.
Proof. vm_compute. reflexivity. Qed.

(** Counting bytes is exact up to [2^53] and stops there. *)
Example counting_stops_at_2_53 :
  add (of_Z (2 ^ 53 - 1)) (of_Z 1) = of_Z (2 ^ 53) /\
  add (of_Z (2 ^ 53)) (of_Z 1) = of_Z (2 ^ 53).
Proof. split; vm_compute; reflexivity. Qed.

Example parseInt_values :
  parseInt "2560" = of_Z 2560 /\
  parseInt " 12abc" = of_Z 12 /\
  parseInt "-0" = Fin true 0 /\
  parseInt "" = NaN /\
  parseInt "chunked" = NaN.
Proof. repeat split; vm_compute; reflexivity. Qed.

Example division_by_zero_values :
  div (of_Z 5) (of_Z 0) = Inf false /\
  div (of_Z 0) (of_Z 0) = NaN /\
  neq NaN NaN = true.
Proof. repeat split; vm_compute; reflexivity. Qed.

(** The scenario of the specification runs to completion with the bar at
    100 units and 2560 bytes in the sink. *)
Example specification_scenario :
  exists r st,
    @downloadToStream redirected_host 40 0 "https://a.example/f" [] = Some r /\
    outcome r = Fulfilled /\
    transfer r = Some st /\
    doneSize st = of_Z 2560 /\ currentDots st = of_Z 100 /\
    List.length (sink_bytes (actions r)) = 2560%nat /\
    sink_closes (actions r) = 1%nat.
Proof.
  eexists. eexists. split; [vm_compute; reflexivity|].
  split; [reflexivity|]. split; [reflexivity|].
  repeat split; vm_compute; reflexivity.
Qed.

(** A declared total of zero with a byte delivered: the target unit count
    is infinite and the first chunk never gets drawn. *)
Example zero_total_hangs :
  forall fuel, @downloadToStream zero_host fuel 0 "https://a.example/f" [] = None.
Proof.
  intros [|fuel]; [reflexivity|].
  cbn [downloadToStream].
  change (@https_request zero_host "https://a.example/f") with (@None JsError).
  cbv iota beta.
  change (@net zero_host 0 "https://a.example/f")
    with (response 200 [("content-length", "0")]
            [ResData (bytes 1); ResClose; OutClose]).
  unfold response. cbv iota beta.
  cbn [headers header String.eqb Ascii.eqb Bool.eqb truthy statusCode N.eqb Pos.eqb negb].
  unfold stream.
  set (h0 := {| state := _; promise := Pending; trace := _ |}).
  destruct (showProgress (S fuel) h0) as [[[[] | e] h1]|] eqn:E; [| |reflexivity].
  - cbn [events deliver]. unfold bind at 1. unfold emit at 1. cbn [listener].
    pose proof (ShapeFacts.still_showProgress _ _ _ _ E) as St.
    rewrite onData_Inf; [reflexivity| |]; cbn [state record]; rewrite St;
      vm_compute; reflexivity.
  - exfalso. revert E. apply showProgress_returns. vm_compute. reflexivity.
Qed.

End Illustrations.

(** ** Every run: exceptions, outcome, forwarding, clean-up *)

Module RunFacts.

Import Binary64 Binary64Facts JsNum JsNumFacts DotsFacts Download ProgressFacts.
Import ShapeFacts TraceFacts TransferFacts HangFacts OrderFacts Runs.
Local Open Scope Z_scope.

(** *** Whole numbers stay whole *)

Local Open Scope Q_scope.

Lemma div_by_inverse q a b : 0 < a -> a * b == 1 -> q / a == q * b.
Proof.
  intros Ha E. setoid_replace (q / a) with (q / a * (a * b)) by (rewrite E; ring).
  field. lra.
Qed.

(** The double nearest to a whole number is a whole number. *)
Lemma fl_whole q z : q == inject_Z z -> exists z', fl q == inject_Z z'.
Proof.
  intros E. destruct (Qlt_le_dec 0 q) as [Hq | Hq].
  - pose proof (fl_pos_eq q Hq) as F. set (e := ulp_exp q) in *.
    destruct (Z_le_gt_dec 0 e) as [He | He].
    + exists (rne (q / pow2 e) * 2 ^ e)%Z.
      rewrite F, inject_Z_mult, (pow2_Z e He). reflexivity.
    + exists z. rewrite F.
      assert (P : pow2 e * pow2 (- e) == 1).
      { rewrite <- pow2_plus. replace (e + - e)%Z with 0%Z by lia. reflexivity. }
      pose proof (pow2_pos e) as Pe.
      assert (D : q / pow2 e == inject_Z (z * 2 ^ (- e))).
      { rewrite inject_Z_mult, (pow2_Z (- e)) by lia. rewrite <- E.
        apply div_by_inverse; assumption. }
      rewrite (rne_comp _ _ D), rne_Z, inject_Z_mult, (pow2_Z (- e)) by lia.
      rewrite <- E. rewrite <- Qmult_assoc, (Qmult_comm (pow2 (- e))), P. ring.
  - exists 0%Z. rewrite (fl_nonpos q Hq). reflexivity.
Qed.

Lemma whole_round s q z : q == inject_Z z -> whole (round s q).
Proof.
  intros E. unfold round. destruct (overflows (fl q)); [exact I|].
  split; [apply fl_nonneg | exact (fl_whole q z E)].
Qed.

(** A product is rounded, so its magnitude is not negative; its floor is
    whole. *)
Lemma whole_floor_mul a b : whole (floor (mul a b)).
Proof.
  assert (R : forall s q, whole (floor (round s q))).
  { intros s q. unfold round. destruct (overflows (fl q)); [exact I|].
    pose proof (fl_nonneg q) as Hn.
    assert (0 <= Qfloor (fl q))%Z by (apply Qfloor_resp_le in Hn; exact Hn).
    assert (0 <= Qceiling (fl q))%Z.
    { apply Qceiling_resp_le in Hn. exact Hn. }
    destruct s; cbn; (split; [|eexists; reflexivity]);
      change 0 with (inject_Z 0); rewrite <- Zle_Qle; assumption. }
  destruct a as [|sa|sa ma], b as [|sb|sb mb]; cbn [mul]; try exact I.
  - destruct (Qeq_bool mb 0); exact I.
  - destruct (Qeq_bool ma 0); exact I.
  - apply R.
Qed.

Local Close Scope Q_scope.

(** *** The observations on traces put end to end *)

Lemma console_logs_app a b : console_logs (a ++ b) = console_logs a ++ console_logs b.
Proof.
  induction a as [|[] a IH]; cbn [app console_logs]; rewrite ?IH; reflexivity.
Qed.

Lemma console_warns_app a b :
  console_warns (a ++ b) = console_warns a ++ console_warns b.
Proof.
  induction a as [|[] a IH]; cbn [app console_warns]; rewrite ?IH; reflexivity.
Qed.

Lemma blanks_app a b : blanks (a ++ b) = (blanks a + blanks b)%nat.
Proof.
  induction a as [|x a IH]; [reflexivity|].
  destruct x; cbn [app blanks]; rewrite ?IH; try reflexivity.
  destruct (String.eqb s blank_line); reflexivity.
Qed.

Lemma flow_app a b : flow (a ++ b) = flow a ++ flow b.
Proof. apply filter_app. Qed.

Lemma stdout_app a b : stdout (a ++ b) = stdout a ++ stdout b.
Proof.
  induction a as [|[] a IH]; cbn [app stdout]; rewrite ?IH; reflexivity.
Qed.

Lemma console_logs_stdout ws : console_logs (map StdoutWrite ws) = [].
Proof. induction ws; [reflexivity | exact IHws]. Qed.

Lemma debug_lines_app a b : debug_lines (a ++ b) = debug_lines a ++ debug_lines b.
Proof.
  induction a as [|x a IH]; [reflexivity|].
  destruct x as [| |[]| | | | |]; cbn [app debug_lines]; rewrite ?IH; reflexivity.
Qed.

Lemma got_errors_app a b : got_errors (a ++ b) = got_errors a ++ got_errors b.
Proof.
  induction a as [|x a IH]; [reflexivity|].
  destruct x as [| |[]| | | | |]; cbn [app got_errors]; rewrite ?IH; reflexivity.
Qed.

Lemma debug_lines_stdout ws : debug_lines (map StdoutWrite ws) = [].
Proof. induction ws; [reflexivity | exact IHws]. Qed.

Lemma got_errors_stdout ws : got_errors (map StdoutWrite ws) = [].
Proof. induction ws; [reflexivity | exact IHws]. Qed.

Lemma reports_app a b : reports (a ++ b) = reports a ++ reports b.
Proof.
  induction a as [|x a IH]; [reflexivity|].
  destruct x as [| |[]| | | | |]; cbn [app reports]; rewrite ?IH; reflexivity.
Qed.

Lemma reports_stdout ws : reports (map StdoutWrite ws) = [].
Proof. induction ws; [reflexivity | exact IHws]. Qed.

Lemma reports_debug_lines tr : debug_lines tr = [] -> reports tr = [].
Proof.
  induction tr as [|x tr IH]; [reflexivity|].
  destruct x as [| |[]| | | | |]; cbn [debug_lines reports]; intros H;
    try discriminate; exact (IH H).
Qed.

Lemma response_closes_app a b :
  response_closes (a ++ b) = (response_closes a + response_closes b)%nat.
Proof.
  induction a as [|ev a IH]; [reflexivity|].
  destruct ev; cbn [app response_closes]; rewrite ?IH; reflexivity.
Qed.




Lemma console_warns_stdout ws : console_warns (map StdoutWrite ws) = [].
Proof. induction ws; [reflexivity | exact IHws]. Qed.

Lemma flow_stdout ws : flow (map StdoutWrite ws) = [].
Proof. induction ws; [reflexivity | exact IHws]. Qed.

Lemma stdout_map ws : stdout (map StdoutWrite ws) = ws.
Proof. induction ws; [reflexivity | cbn; rewrite IHws; reflexivity]. Qed.

Lemma sink_writes_flow tr : sink_writes (flow tr) = sink_writes tr.
Proof.
  unfold flow. induction tr as [|a tr IH]; [reflexivity|].
  destruct a as [| | | | | |  |ev]; cbn [filter in_flow sink_writes]; try exact IH.
  - rewrite IH. reflexivity.
  - destruct ev; cbn [sink_writes]; exact IH.
Qed.

Lemma sink_writes_forwarded evs : sink_writes (forwarded evs) = chunks_of evs.
Proof.
  induction evs as [|ev evs IH]; [reflexivity|].
  destruct ev; cbn; rewrite ?IH; reflexivity.
Qed.

Lemma forwarded_app a b : forwarded (a ++ b) = forwarded a ++ forwarded b.
Proof.
  induction a as [|ev a IH]; [reflexivity|].
  destruct ev; cbn [app forwarded]; rewrite ?IH; reflexivity.
Qed.

Section WithHost.

Context {host : Host}.

(** *** No listener throws *)

Local Open Scope Q_scope.

Lemma chunks_at_whole q z :
  q == inject_Z z -> (0 <= z <= 8)%Z ->
  exists g, chunks_at (Fin false q) = Some g /\ In g (chunks theme).
Proof.
  intros E Hz. unfold chunks_at, to_index.
  rewrite (Qfloor_comp _ _ E), Qfloor_Z.
  assert (Qeq_bool q (inject_Z z) = true) as -> by (apply Qeq_bool_iff; exact E).
  cbn [negb andb orb].
  assert (C : (z = 0 \/ z = 1 \/ z = 2 \/ z = 3 \/ z = 4 \/ z = 5 \/ z = 6 \/ z = 7 \/ z = 8)%Z)
    by lia.
  destruct C as [-> | [-> | [-> | [-> | [-> | [-> | [-> | [-> | ->]]]]]]]];
    (eexists; split; [reflexivity | cbn; tauto]).
Qed.

(** One pass of the loop of lines 261-270 on a whole unit count: a glyph of
    [theme.chunks] is written and the count stays whole. *)
Lemma units_step units rw h :
  whole units -> units_cond (units, rw) (state h) = true ->
  exists units' g,
    units_body (units, rw) h
    = Some (Normal (units', sub rw (of_Z 1)), record [StdoutWrite g] h) /\
    whole units' /\ In g (chunks theme).
Proof.
  intros W C. unfold units_cond, gt in C. rewrite (of_Z_nonneg 0) in C by lia.
  unfold units_body. rewrite (of_Z_nonneg 8) by lia.
  destruct units as [|s|s m]; [discriminate| |].
  - destruct s; [discriminate|].
    destruct (chunks_at_whole (inject_Z 8) 8) as (g & G & Hin); [reflexivity | lia |].
    exists (Inf false), g. cbn [ge lt eq orb negb]. rewrite G.
    split; [reflexivity | split; [exact I | exact Hin]].
  - destruct W as (Hm & z & Ez).
    unfold lt, sval in C.
    assert (s = false) as ->.
    { destruct s; [|reflexivity]. exfalso.
      assert (Qle_bool (- m) (inject_Z 0) = true) by (apply Qle_bool_iff; change (inject_Z 0) with 0; lra).
      rewrite H in C. discriminate. }
    assert (Hpos : 0 < m).
    { destruct (Qlt_le_dec 0 m) as [|Hle]; [assumption|]. exfalso.
      assert (Qle_bool m (inject_Z 0) = true) by (apply Qle_bool_iff; exact Hle).
      rewrite H in C. discriminate. }
    assert (Hz : (0 < z)%Z).
    { rewrite Ez in Hpos. change 0 with (inject_Z 0) in Hpos.
      rewrite <- Zlt_Qlt in Hpos. exact Hpos. }
    destruct (ge (Fin false m) (Fin false (inject_Z 8))) eqn:G.
    + destruct (chunks_at_whole (inject_Z 8) 8) as (g & Hg & Hin); [reflexivity | lia |].
      exists (sub (Fin false m) (Fin false (inject_Z 8))), g. rewrite Hg.
      split; [reflexivity | split; [|exact Hin]].
      unfold sub, neg, add, sval. cbn [negb andb].
      destruct (Qeq_bool (m + - inject_Z 8) 0).
      * split; [lra | exists 0%Z; reflexivity].
      * apply (whole_round _ _ (Z.abs (z - 8))).
        assert (E8 : m + - inject_Z 8 == inject_Z (z - 8)).
        { rewrite Ez. unfold Z.sub. rewrite inject_Z_plus, inject_Z_opp. reflexivity. }
        rewrite E8. reflexivity.
    + unfold ge, lt, eq, sval in G. apply orb_false_iff in G. destruct G as [G1 G2].
      apply negb_false_iff, Qle_bool_iff in G1.
      assert (Hne : ~ m == inject_Z 8).
      { intros Heq. apply Qeq_bool_iff in Heq. rewrite Heq in G2. discriminate. }
      assert (Hz8 : (z < 8)%Z).
      { rewrite Ez in G1, Hne. rewrite <- Zle_Qle in G1.
        assert (z <> 8)%Z by (intros ->; apply Hne; reflexivity). lia. }
      unfold rem. change (Qeq_bool (inject_Z 8) 0) with false. cbn iota.
      assert (F : Qfloor (m / inject_Z 8) = 0%Z).
      { assert (D : m / inject_Z 8 == z # 8).
        { rewrite Ez. rewrite (Qmake_Qdiv z 8). reflexivity. }
        rewrite (Qfloor_comp _ _ D). unfold Qfloor. apply Z.div_small. lia. }
      rewrite F.
      set (q := Qred (m - inject_Z 8 * inject_Z 0)).
      assert (Eq : q == inject_Z z).
      { unfold q. rewrite Qred_correct, <- Ez. ring. }
      destruct (chunks_at_whole q z Eq) as (g & Hg & Hin); [lia|].
      exists (sub (Fin false m) (Fin false q)), g. rewrite Hg.
      split; [reflexivity | split; [|exact Hin]].
      unfold sub, neg, add, sval. cbn [negb andb].
      assert (Qeq_bool (m + - q) 0 = true) as ->.
      { apply Qeq_bool_iff. rewrite Eq, Ez. ring. }
      split; [lra | exists 0%Z; reflexivity].
Qed.

Local Close Scope Q_scope.

Lemma units_loop_safe fuel : forall units rw h,
  whole units -> does_not_throw (while fuel units_cond units_body (units, rw)) h.
Proof.
  induction fuel as [|fuel IH]; intros units rw h W; unfold does_not_throw; [exact I|].
  cbn [while]. destruct (units_cond (units, rw) (state h)) eqn:C; [|exact I].
  destruct (units_step units rw h W C) as (units' & g & B & W' & _).
  rewrite B. apply (IH units' _ _ W').
Qed.

(** [showProgress] never hands [undefined] to [process.stdout.write] when
    the unit count is whole. *)
Lemma showProgress_safe fuel h :
  whole (currentDots (state h)) -> does_not_throw (showProgress fuel) h.
Proof.
  intros W. unfold does_not_throw, showProgress, bind at 1, get_state.
  unfold bind at 1. cbn [stdout_write]. unfold emit at 1.
  unfold bind at 1.
  pose proof (units_loop_safe fuel (currentDots (state h))
                (ceil (div (totalDots (state h)) (of_Z 8)))
                (record [StdoutWrite (CR ++ start theme)] h) W) as U.
  unfold does_not_throw in U.
  destruct (while fuel units_cond units_body _ _) as [[[locals | e] h1]|];
    [| destruct U | exact I].
  unfold bind at 1.
  destruct (while fuel filler_cond filler_body (snd locals) h1)
    as [[[r | e] h2]|] eqn:F; [| | exact I].
  - cbn [stdout_write]. exact I.
  - exact (filler_loop_returns _ _ _ _ _ F).
Qed.

Lemma dots_loop_safe fuel v : forall fuel' h,
  whole v -> does_not_throw (while fuel' (dots_cond v) (dots_body fuel v) tt) h.
Proof.
  intros fuel' h W. revert h.
  induction fuel' as [|fuel' IH]; intros h; unfold does_not_throw; [exact I|].
  cbn [while]. destruct (dots_cond v tt (state h)); [|exact I].
  unfold dots_body at 1, bind at 1, modify_state.
  pose proof (showProgress_safe fuel (with_state (set_currentDots v (state h)) h) W) as S.
  unfold does_not_throw in S.
  destruct (showProgress fuel _) as [[[[] | e] h1]|]; [| destruct S | exact I].
  apply IH.
Qed.

(** [onData] does not throw, whatever the state. *)
Lemma onData_safe fuel (data : Buffer) h : does_not_throw (onData fuel data) h.
Proof.
  unfold does_not_throw, onData, bind at 1, modify_state.
  unfold bind at 1, get_state. cbn [state with_state].
  set (h1 := with_state _ h). set (v := floor _).
  unfold bind at 1.
  pose proof (dots_loop_safe fuel v fuel h1 (whole_floor_mul _ _)) as D.
  unfold does_not_throw in D.
  destruct (while fuel (dots_cond v) (dots_body fuel v) tt h1) as [[[[] | e] h2]|];
    [exact I | destruct D | exact I].
Qed.

Lemma listener_safe fuel ev h :
  does_not_throw (emit (Emitted ev) ;; listener fuel ev) h.
Proof.
  unfold does_not_throw, bind at 1, emit at 1.
  destruct ev as [data| | | |e|e]; cbn [listener]; try exact I.
  apply onData_safe.
Qed.

(** *** The progress line is blanked by nothing but the report *)

Lemma keeps_line_ret {A} (a : A) : keeps_line (ret a).
Proof. intros h c h' E. injection E as <- <-. reflexivity. Qed.

Lemma keeps_line_bind {A B} (m : M A) (k : A -> M B) :
  keeps_line m -> (forall a, keeps_line (k a)) -> keeps_line (bind m k).
Proof.
  intros Hm Hk h c h' E. unfold bind in E.
  destruct (m h) as [[[a | e] h1]|] eqn:E1; [| |discriminate].
  - rewrite (Hk a _ _ _ E). exact (Hm _ _ _ E1).
  - injection E as <- <-. exact (Hm _ _ _ E1).
Qed.

Lemma keeps_line_while {L} fuel (c : L -> State -> bool) (b : L -> M L) :
  (forall l, keeps_line (b l)) -> forall l, keeps_line (while fuel c b l).
Proof.
  intros Hb. induction fuel as [|fuel IH]; intros l h r h' E; [discriminate|].
  cbn [while] in E. destruct (c l (state h)).
  - destruct (b l h) as [[[l1 | e] h1]|] eqn:E1; [| |discriminate].
    + rewrite (IH l1 _ _ _ E). exact (Hb l _ _ _ E1).
    + injection E as <- <-. exact (Hb l _ _ _ E1).
  - injection E as <- <-. reflexivity.
Qed.

Lemma keeps_line_stdout_write chunk :
  (forall s, chunk = Some s -> String.eqb s blank_line = false) ->
  keeps_line (stdout_write chunk).
Proof.
  intros Hs h c h' E. destruct chunk as [s|]; cbn in E; injection E as <- <-.
  - unfold record. cbn [trace]. rewrite blanks_app. cbn [blanks].
    rewrite (Hs s eq_refl). apply Nat.add_0_r.
  - reflexivity.
Qed.

Lemma glyph_not_blank c g : chunks_at c = Some g -> String.eqb g blank_line = false.
Proof.
  unfold chunks_at. destruct (to_index c) as [i|]; [|discriminate].
  do 9 (destruct i as [|i]; [intros E; injection E as <-; reflexivity|]).
  destruct i; discriminate.
Qed.

Lemma keeps_line_showProgress fuel : keeps_line (showProgress fuel).
Proof.
  unfold showProgress.
  apply keeps_line_bind; [intros h c h' E; injection E as <- <-; reflexivity | intros st].
  apply keeps_line_bind.
  { apply keeps_line_stdout_write. intros s E. injection E as <-. reflexivity. }
  intros _. apply keeps_line_bind.
  { apply keeps_line_while. intros [units remainWidth]. unfold units_body.
    apply keeps_line_bind; [|intros; apply keeps_line_ret].
    apply keeps_line_stdout_write. intros s E. exact (glyph_not_blank _ _ E). }
  intros locals. apply keeps_line_bind.
  { apply keeps_line_while. intros remainWidth. unfold filler_body.
    apply keeps_line_bind; [|intros; apply keeps_line_ret].
    apply keeps_line_stdout_write. intros s E. injection E as <-. reflexivity. }
  intros _. apply keeps_line_stdout_write. intros s E. injection E as <-. reflexivity.
Qed.

Lemma keeps_line_onData fuel (data : Buffer) : keeps_line (onData fuel data).
Proof.
  unfold onData.
  apply keeps_line_bind; [intros h c h' E; injection E as <- <-; reflexivity | intros _].
  apply keeps_line_bind; [intros h c h' E; injection E as <- <-; reflexivity | intros st].
  apply keeps_line_bind.
  { apply keeps_line_while. intros []. unfold dots_body.
    apply keeps_line_bind; [intros h c h' E; injection E as <- <-; reflexivity|].
    intros _. apply keeps_line_showProgress. }
  intros _ h c h' E. injection E as <- <-. unfold record. cbn [trace].
  rewrite blanks_app. apply Nat.add_0_r.
Qed.

(** *** One event *)

(** What the delivery of one event does, whatever the state: the listener
    returns; a chunk is handed to the sink; an error of the sink and an
    abort are warned about; the promise, if pending, is settled by the
    ["close"] of the sink, by its ["error"] and by ["aborted"]; an error of
    the request is logged and nothing else is; the progress line is not
    blanked and the declared total is left alone. *)
Lemma step_facts fuel ev h c h1 :
  (emit (Emitted ev) ;; listener fuel ev) h = Some (c, h1) ->
  c = Normal tt /\
  totalSize (state h1) = totalSize (state h) /\
  flow (trace h1) = (flow (trace h) ++ forwarded [ev])%list /\
  console_warns (trace h1) = (console_warns (trace h) ++ warnings [ev])%list /\
  blanks (trace h1) = blanks (trace h) /\
  debug_lines (trace h1) = debug_lines (trace h) /\
  promise h1 = match promise h with
               | Pending =>
                   match ev with
                   | OutClose => Resolved
                   | OutError e => Rejected e
                   | ResAborted => Rejected (Error "Request aborted")
                   | _ => Pending
                   end
               | p => p
               end /\
  got_errors (trace h1) = (got_errors (trace h) ++ request_errors [ev])%list.
Proof.
  intros E. pose proof (listener_safe fuel ev h) as S.
  unfold does_not_throw in S. rewrite E in S.
  revert E. unfold bind at 1. unfold emit at 1.
  destruct ev as [data| | | |e|e]; cbn [listener].
  - intros E. pose proof (keeps_line_onData _ _ _ _ _ E) as B.
    destruct (onData_shape _ _ _ _ _ E) as (P & _ & T & _ & ws & Tr).
    unfold record in P, T, Tr, B. cbn [trace promise state] in P, T, Tr, B.
    destruct c as [[]|e]; [|destruct S].
    rewrite blanks_app in B. cbn [blanks] in B. rewrite Nat.add_0_r in B.
    rewrite Tr, !flow_app, !console_warns_app, !debug_lines_app, !got_errors_app,
      flow_stdout, console_warns_stdout, debug_lines_stdout, got_errors_stdout.
    cbn [flow filter in_flow console_warns debug_lines got_errors forwarded
         warnings request_errors app].
    rewrite !app_nil_r, <- app_assoc.
    repeat split; try assumption;
      [rewrite <- Tr; exact B | rewrite P; destruct (promise h); reflexivity].
  - intros E. unfold emit in E. injection E as <- <-.
    unfold record. cbn [trace promise state].
    rewrite !flow_app, !console_warns_app, !debug_lines_app, !got_errors_app,
      !blanks_app.
    cbn. rewrite ?app_nil_r, ?Nat.add_0_r.
    repeat split. destruct (promise h); reflexivity.
  - intros E. unfold bind, emit, settle in E. injection E as <- <-.
    unfold record. cbn [trace promise state].
    rewrite !flow_app, !console_warns_app, !debug_lines_app, !got_errors_app,
      !blanks_app.
    cbn. rewrite ?app_nil_r, ?Nat.add_0_r, <- ?app_assoc.
    repeat split.
  - intros E. unfold settle in E. injection E as <- <-.
    unfold record. cbn [trace promise state].
    rewrite !flow_app, !console_warns_app, !debug_lines_app, !got_errors_app,
      !blanks_app.
    cbn. rewrite ?app_nil_r, ?Nat.add_0_r.
    repeat split.
  - intros E. unfold bind, emit, settle in E. injection E as <- <-.
    unfold record. cbn [trace promise state].
    rewrite !flow_app, !console_warns_app, !debug_lines_app, !got_errors_app,
      !blanks_app.
    cbn. rewrite ?app_nil_r, ?Nat.add_0_r, <- ?app_assoc.
    repeat split.
  - intros E. unfold emit in E. injection E as <- <-.
    unfold record. cbn [trace promise state].
    rewrite !flow_app, !console_warns_app, !debug_lines_app, !got_errors_app,
      !blanks_app.
    cbn. rewrite ?app_nil_r, ?Nat.add_0_r, <- ?app_assoc.
    repeat split. destruct (promise h); reflexivity.
Qed.

(** *** Any list of events *)

(** The line the report logs for a declared total. *)
Lemma report_facts h :
  exists h2,
    report h = Some (Normal tt, h2) /\
    state h2 = state h /\
    flow (trace h2) = flow (trace h) /\
    console_warns (trace h2) = console_warns (trace h) /\
    blanks (trace h2) = S (blanks (trace h)) /\
    debug_lines (trace h2)
    = (debug_lines (trace h)
       ++ if verbose then [Downloaded (formatSize (totalSize (state h)))] else [])%list /\
    got_errors (trace h2) = got_errors (trace h).
Proof.
  eexists. split; [apply report_eq|].
  unfold record. cbn [state trace].
  rewrite flow_app, console_warns_app, blanks_app, debug_lines_app, got_errors_app.
  destruct verbose;
    cbn [negb app flow filter in_flow console_warns debug_lines got_errors blanks];
    rewrite String.eqb_refl, ?app_nil_r; repeat split; lia.
Qed.

Lemma deliver_facts fuel : forall evs o h o' h',
  deliver fuel evs o h = Some (o', h') ->
  (o = Waiting -> promise h = Pending) ->
  (forall e, o <> Crashed e) ->
  o' = match o with Waiting => verdict evs | _ => o end /\
  totalSize (state h') = totalSize (state h) /\
  flow (trace h') = (flow (trace h) ++ forwarded evs)%list /\
  console_warns (trace h') = (console_warns (trace h) ++ warnings evs)%list /\
  blanks (trace h')
  = (blanks (trace h) + match o, o' with Waiting, Fulfilled => 1 | _, _ => 0 end)%nat /\
  debug_lines (trace h')
  = (debug_lines (trace h)
     ++ match o, o' with
        | Waiting, Fulfilled =>
            if verbose then [Downloaded (formatSize (totalSize (state h)))] else []
        | _, _ => []
        end)%list /\
  got_errors (trace h') = (got_errors (trace h) ++ request_errors evs)%list.
Proof.
  induction evs as [|ev evs IH]; intros o h o' h' E Hp Hc.
  - cbn [deliver] in E. injection E as <- <-.
    destruct o; cbn [verdict forwarded warnings request_errors];
      rewrite ?app_nil_r, ?Nat.add_0_r; repeat split.
  - cbn [deliver] in E.
    destruct ((emit (Emitted ev);; listener fuel ev) h) as [[c h1]|] eqn:St;
      [|discriminate].
    destruct (step_facts _ _ _ _ _ St) as (-> & T1 & F1 & W1 & B1 & L1 & P1 & G1).
    destruct o as [| |e0|e0]; [| | |destruct (Hc e0 eq_refl)].
    + rewrite (Hp eq_refl) in P1.
      destruct ev as [data| | | |e|e]; rewrite P1 in E.
      * destruct (IH _ _ _ _ E (fun _ => P1)) as (-> & T & F & W & B & L & G);
          [discriminate|].
        cbn [verdict forwarded warnings request_errors].
        rewrite T, F, W, B, L, G, T1, F1, W1, B1, L1, G1.
        cbn [forwarded warnings request_errors].
        rewrite <- !app_assoc. repeat split.
      * destruct (IH _ _ _ _ E (fun _ => P1)) as (-> & T & F & W & B & L & G);
          [discriminate|].
        cbn [verdict forwarded warnings request_errors].
        rewrite T, F, W, B, L, G, T1, F1, W1, B1, L1, G1.
        cbn [forwarded warnings request_errors].
        rewrite <- !app_assoc. repeat split.
      * destruct (IH _ _ _ _ E) as (-> & T & F & W & B & L & G);
          [discriminate | discriminate |].
        cbn [verdict forwarded warnings request_errors].
        rewrite T, F, W, B, L, G, T1, F1, W1, B1, L1, G1.
        cbn [forwarded warnings request_errors].
        rewrite <- !app_assoc, !app_nil_r. repeat split.
      * destruct (report_facts h1) as (h2 & R & S2 & F2 & W2 & B2 & L2 & G2).
        rewrite R in E.
        destruct (IH _ _ _ _ E) as (-> & T & F & W & B & L & G);
          [discriminate | discriminate |].
        cbn [verdict forwarded warnings request_errors].
        rewrite T, F, W, B, L, G, S2, F2, W2, B2, L2, G2, T1, F1, W1, B1, L1, G1.
        cbn [forwarded warnings request_errors].
        rewrite <- !app_assoc, !app_nil_r. repeat split. lia.
      * destruct (IH _ _ _ _ E) as (-> & T & F & W & B & L & G);
          [discriminate | discriminate |].
        cbn [verdict forwarded warnings request_errors].
        rewrite T, F, W, B, L, G, T1, F1, W1, B1, L1, G1.
        cbn [forwarded warnings request_errors].
        rewrite <- !app_assoc, !app_nil_r. repeat split.
      * destruct (IH _ _ _ _ E (fun _ => P1)) as (-> & T & F & W & B & L & G);
          [discriminate|].
        cbn [verdict forwarded warnings request_errors].
        rewrite T, F, W, B, L, G, T1, F1, W1, B1, L1, G1.
        cbn [forwarded warnings request_errors].
        rewrite <- !app_assoc. repeat split.
    + assert (E' : deliver fuel evs Fulfilled h1 = Some (o', h')).
      { destruct (promise h1); exact E. }
      destruct (IH _ _ _ _ E') as (-> & T & F & W & B & L & G);
        [discriminate | discriminate |].
      replace (forwarded (ev :: evs)) with (forwarded [ev] ++ forwarded evs)%list
        by (destruct ev; reflexivity).
      replace (warnings (ev :: evs)) with (warnings [ev] ++ warnings evs)%list
        by (destruct ev; reflexivity).
      replace (request_errors (ev :: evs))
        with (request_errors [ev] ++ request_errors evs)%list
        by (destruct ev; reflexivity).
      rewrite T, F, W, B, L, G, T1, F1, W1, B1, L1, G1, <- !app_assoc. repeat split.
    + assert (E' : deliver fuel evs (Failed e0) h1 = Some (o', h')).
      { destruct (promise h1); exact E. }
      destruct (IH _ _ _ _ E') as (-> & T & F & W & B & L & G);
        [discriminate | discriminate |].
      replace (forwarded (ev :: evs)) with (forwarded [ev] ++ forwarded evs)%list
        by (destruct ev; reflexivity).
      replace (warnings (ev :: evs)) with (warnings [ev] ++ warnings evs)%list
        by (destruct ev; reflexivity).
      replace (request_errors (ev :: evs))
        with (request_errors [ev] ++ request_errors evs)%list
        by (destruct ev; reflexivity).
      rewrite T, F, W, B, L, G, T1, F1, W1, B1, L1, G1, <- !app_assoc. repeat split.
Qed.

(** *** A whole transfer *)

Lemma whole_zero : whole (of_Z 0).
Proof.
  rewrite (of_Z_nonneg 0) by lia. split; [apply Qle_refl | exists 0; reflexivity].
Qed.

Lemma stream_facts fuel res tr r :
  stream fuel res tr = Some r ->
  outcome r = verdict (events res) /\
  (exists st, transfer r = Some st /\ totalSize st = totalSize (initial_state res)) /\
  flow (actions r) = (flow tr ++ forwarded (events res))%list /\
  console_warns (actions r) = (console_warns tr ++ warnings (events res))%list /\
  blanks (actions r)
  = (blanks tr + match outcome r with Fulfilled => 1 | _ => 0 end)%nat /\
  debug_lines (actions r)
  = (debug_lines tr
     ++ match outcome r with
        | Fulfilled =>
            if verbose
            then [Downloaded (formatSize (totalSize (initial_state res)))] else []
        | _ => []
        end)%list /\
  got_errors (actions r) = (got_errors tr ++ request_errors (events res))%list.
Proof.
  unfold stream.
  set (h0 := {| state := initial_state res; promise := Pending; trace := tr |}).
  pose proof (showProgress_safe fuel h0 whole_zero) as S0. unfold does_not_throw in S0.
  destruct (showProgress fuel h0) as [[[[] | e] h1]|] eqn:Sp;
    [| destruct S0 | discriminate].
  destruct (draws_showProgress _ _ _ _ Sp) as (P1 & _ & T1 & _ & ws & W1).
  pose proof (keeps_line_showProgress _ _ _ _ Sp) as B1.
  cbn [h0 promise trace state] in P1, T1, W1, B1.
  destruct (deliver fuel (events res) Waiting h1) as [[o' h2]|] eqn:D; [|discriminate].
  intros E. injection E as <-. cbn [outcome transfer actions].
  destruct (deliver_facts _ _ _ _ _ _ D (fun _ => P1)) as (-> & T & F & W & B & L & G);
    [discriminate|].
  rewrite F, W, B, L, G, B1, T1, W1.
  rewrite flow_app, console_warns_app, debug_lines_app, got_errors_app,
    flow_stdout, console_warns_stdout, debug_lines_stdout, got_errors_stdout,
    !app_nil_r.
  repeat split. exists (state h2). split; [reflexivity | congruence].
Qed.

(** A URL answered with status 200 and no redirect target: the call is the
    transfer of that response. *)
Lemma terminal_run fuel k url tr res :
  https_request url = None ->
  net k url = Response res ->
  truthy (header "location" (headers res)) = None ->
  statusCode res = 200%N ->
  downloadToStream fuel k url tr
  = match fuel with
    | O => None
    | S _ => stream fuel res (tr ++ [Request url])
    end.
Proof.
  intros Hreq Hnet Hloc Hcode. destruct fuel as [|fuel]; [reflexivity|].
  cbn [downloadToStream]. rewrite Hreq, Hnet, Hloc, Hcode. reflexivity.
Qed.

Lemma terminal_stream fuel k url tr res r :
  https_request url = None ->
  net k url = Response res ->
  truthy (header "location" (headers res)) = None ->
  statusCode res = 200%N ->
  downloadToStream fuel k url tr = Some r ->
  stream fuel res (tr ++ [Request url]) = Some r.
Proof.
  intros Hreq Hnet Hloc Hcode E.
  rewrite (terminal_run fuel k url tr res Hreq Hnet Hloc Hcode) in E.
  destruct fuel; [discriminate | exact E].
Qed.

(** *** A transfer with a declared total gets through any list of events *)

Lemma deliver_returns n fuel : forall evs o h d,
  state h = progress_state n d -> 1 <= n -> 0 <= d ->
  d + size (chunks_of evs) <= 2 ^ 53 ->
  (100 * (d + size (chunks_of evs)) <= 2 ^ 53 \/ d + size (chunks_of evs) <= n) ->
  (Z.to_nat (dotsZ n (d + size (chunks_of evs)) / 8) + 16 <= fuel)%nat ->
  exists o' h',
    deliver fuel evs o h = Some (o', h') /\
    state h' = progress_state n (d + size (chunks_of evs)).
Proof.
  induction evs as [|ev evs IH]; intros o h d Hs Hn Hd Hb Hb' Hf.
  - exists o, h. split; [reflexivity|].
    unfold size. cbn [chunks_of List.concat List.length Z.of_nat].
    rewrite Z.add_0_r. exact Hs.
  - set (d' := d + match ev with
                   | ResData data => Z.of_nat (List.length data)
                   | _ => 0
                   end).
    assert (Hdd : d + size (chunks_of (ev :: evs)) = d' + size (chunks_of evs)).
    { unfold d'. destruct ev; cbn [chunks_of]; rewrite ?size_cons; lia. }
    rewrite Hdd in *. pose proof (size_nonneg (chunks_of evs)) as Hsz.
    assert (Hd' : d <= d').
    { unfold d'. destruct ev; lia. }
    assert (St : exists h1,
               (emit (Emitted ev);; listener fuel ev) h = Some (Normal tt, h1) /\
               state h1 = progress_state n d').
    { destruct ev as [data| | | |e|e].
      - unfold bind at 1, emit at 1. cbn [listener].
        assert (Hf' : (Z.to_nat (dotsZ n d' / 8) + 16 <= fuel)%nat).
        { apply (dots_fuel n d' (d' + size (chunks_of evs))); try lia.
          apply (dotsZ_bounds n (d' + size (chunks_of evs))); lia. }
        pose proof (onData_progress fuel (record [Emitted (ResData data)] h) data n d
                      Hs Hn Hd ltac:(fold d'; lia) ltac:(fold d'; lia) Hf') as E1.
        cbv zeta in E1. rewrite E1. eexists. split; reflexivity.
      - eexists. split; [reflexivity|]. cbn. unfold d'. rewrite Z.add_0_r. exact Hs.
      - eexists. split; [reflexivity|]. cbn. unfold d'. rewrite Z.add_0_r. exact Hs.
      - eexists. split; [reflexivity|]. cbn. unfold d'. rewrite Z.add_0_r. exact Hs.
      - eexists. split; [reflexivity|]. cbn. unfold d'. rewrite Z.add_0_r. exact Hs.
      - eexists. split; [reflexivity|]. cbn. unfold d'. rewrite Z.add_0_r. exact Hs. }
    destruct St as (h1 & St & S1). cbn [deliver]. rewrite St.
    assert (K : forall o1 h2, state h2 = progress_state n d' ->
              exists o' h',
                deliver fuel evs o1 h2 = Some (o', h') /\
                state h' = progress_state n (d' + size (chunks_of evs))).
    { intros o1 h2 S2. apply IH; try assumption. lia. }
    destruct o; destruct (promise h1); try (apply K; assumption).
    destruct (report_facts h1) as (h2 & R & S2 & _). rewrite R.
    apply K. congruence.
Qed.

Lemma stream_returns res tr n fuel :
  totalSize (initial_state res) = of_Z n -> 1 <= n ->
  100 * size (chunks_of (events res)) <= 2 ^ 53 ->
  (Z.to_nat (dotsZ n (size (chunks_of (events res))) / 8) + 16 <= fuel)%nat ->
  exists r,
    stream fuel res tr = Some r /\
    transfer r = Some (progress_state n (size (chunks_of (events res)))).
Proof.
  intros Ht Hn Hb Hf. pose proof (size_nonneg (chunks_of (events res))) as Hsz.
  assert (Hs0 : initial_state res = progress_state n 0).
  { unfold progress_state. rewrite <- Ht, dotsZ_zero by lia. reflexivity. }
  unfold stream. rewrite Hs0.
  set (h0 := {| state := progress_state n 0; promise := Pending; trace := tr |}).
  assert (E0 : showProgress fuel h0
               = Some (Normal tt, record (rendering (progress_state n 0) 0) h0)).
  { apply showProgress_int.
    - cbn. rewrite dotsZ_zero by lia. reflexivity.
    - reflexivity.
    - lia.
    - change (0 / 8) with 0. lia. }
  rewrite E0.
  destruct (deliver_returns n fuel (events res) Waiting
              (record (rendering (progress_state n 0) 0) h0) 0)
    as (o' & h' & D & S'); try reflexivity; try lia.
  { rewrite Z.add_0_l. exact Hf. }
  rewrite D. eexists. split; [reflexivity|]. cbn [transfer].
  rewrite S', Z.add_0_l. reflexivity.
Qed.

(** *** Before the transfer *)

Lemma resolving_facts l :
  Forall resolving l ->
  stdout l = [] /\ sink_log l = [] /\ emitted l = [] /\ flow l = [] /\
  console_warns l = [] /\ blanks l = 0%nat /\
  (verbose = false -> console_logs l = []).
Proof.
  induction 1 as [|a l Ha _ IH]; [repeat split|].
  destruct IH as (I1 & I2 & I3 & I4 & I5 & I6 & I7).
  destruct a as [url| |m|m|s0|data| |ev]; try (exfalso; exact Ha);
    try (repeat split; assumption).
  destruct m; try (exfalso; exact Ha). cbn in Ha.
  repeat split; try assumption. intros Hv. rewrite Hv in Ha. discriminate.
Qed.

Lemma resolving_quiet l :
  Forall resolving l -> reports l = [] /\ sink_closes l = 0%nat.
Proof.
  induction 1 as [|a l Ha _ [I1 I2]]; [split; reflexivity|].
  destruct a as [url| |m|m|s0|data| |ev]; try (exfalso; exact Ha);
    try (split; assumption).
  destruct m; try (exfalso; exact Ha). split; assumption.
Qed.

Lemma verdict_not_crashed evs e : verdict evs <> Crashed e.
Proof. induction evs as [|[] evs IH]; cbn; try discriminate; exact IH. Qed.

(** Every completed call either failed before a transfer started, after
    nothing but requests, destructions and diagnostic lines, or is the
    transfer of one response. *)
Lemma run_shape : forall fuel k url tr r,
  downloadToStream fuel k url tr = Some r ->
  exists l,
    Forall resolving l /\
    ((transfer r = None /\
      exists e, outcome r = Failed e /\
                (actions r = tr ++ l \/
                 actions r = tr ++ l ++ [ConsoleLog (GotError e)]))
     \/ exists fuel' res, stream fuel' res (tr ++ l) = Some r)%list.
Proof.
  induction fuel as [|fuel IH]; intros k url tr r E; [discriminate|].
  cbn [downloadToStream] in E.
  destruct (https_request url) as [e|].
  { injection E as <-. exists []. split; [constructor|]. left.
    split; [reflexivity|]. exists e. split; [reflexivity|]. left.
    cbn. rewrite app_nil_r. reflexivity. }
  destruct (net k url) as [e|res].
  { injection E as <-. exists [Request url].
    split; [repeat constructor|]. left.
    split; [reflexivity|]. exists e. split; [reflexivity|]. right.
    cbn. rewrite <- app_assoc. reflexivity. }
  destruct (truthy (header "location" (headers res))) as [next|].
  - destruct (URL_parse next) as [u|].
    + destruct verbose eqn:V; cbn [negb] in E.
      * destruct (IH _ _ _ _ E) as (l & Hl & C).
        exists ([Request url; ConsoleLog (RedirectedTo (hostname u)); Destroy] ++ l).
        split.
        { apply Forall_app. split; [|exact Hl].
          repeat constructor. cbn. exact V. }
        rewrite <- !app_assoc in C. cbn [app] in C |- *.
        destruct C as [(T & e & O & A) | C]; [left | right; exact C].
        split; [exact T|]. exists e. split; [exact O|].
        rewrite <- !app_assoc in A. exact A.
      * destruct (IH _ _ _ _ E) as (l & Hl & C).
        exists ([Request url; Destroy] ++ l).
        split.
        { apply Forall_app. split; [|exact Hl]. repeat constructor. }
        rewrite <- !app_assoc in C. cbn [app] in C |- *.
        destruct C as [(T & e & O & A) | C]; [left | right; exact C].
        split; [exact T|]. exists e. split; [exact O|].
        rewrite <- !app_assoc in A. exact A.
    + injection E as <-. exists [Request url].
      split; [repeat constructor|]. left.
      split; [reflexivity|]. eexists. split; [reflexivity|]. left. reflexivity.
  - destruct (negb (statusCode res =? 200)%N).
    + injection E as <-. exists [Request url].
      split; [repeat constructor|]. left.
      split; [reflexivity|]. eexists. split; [reflexivity|]. left. reflexivity.
    + exists [Request url]. split; [repeat constructor|]. right.
      exists (S fuel), res. exact E.
Qed.

(** *** Actions are only added *)

Lemma deliver_extends fuel : forall evs o h o' h',
  deliver fuel evs o h = Some (o', h') -> exists l, trace h' = trace h ++ l.
Proof.
  induction evs as [|ev evs IH]; intros o h o' h' E.
  - injection E as <- <-. exists []. rewrite app_nil_r. reflexivity.
  - cbn [deliver] in E.
    destruct ((emit (Emitted ev);; listener fuel ev) h) as [[c h1]|] eqn:St;
      [|discriminate].
    destruct (listener_step _ _ _ _ _ St) as (l1 & T1 & _).
    destruct (step_facts _ _ _ _ _ St) as (-> & _).
    assert (K : forall o1, deliver fuel evs o1 h1 = Some (o', h') ->
                           exists l, trace h' = trace h ++ l).
    { intros o1 E1. destruct (IH _ _ _ _ E1) as (l & T).
      exists (Emitted ev :: l1 ++ l). rewrite T, T1, <- app_assoc. reflexivity. }
    destruct o; destruct (promise h1); try (eapply K; exact E).
    destruct (report_facts h1) as (h2 & R & _). rewrite R in E.
    rewrite report_eq in R. injection R as <-.
    destruct (IH _ _ _ _ E) as (l & T).
    eexists. rewrite T. unfold record. cbn [trace]. rewrite T1, <- !app_assoc.
    reflexivity.
Qed.

Lemma stream_extends fuel res tr r :
  stream fuel res tr = Some r -> exists l, actions r = tr ++ l.
Proof.
  unfold stream.
  set (h0 := {| state := initial_state res; promise := Pending; trace := tr |}).
  destruct (showProgress fuel h0) as [[[[] | e] h1]|] eqn:Sp; [| |discriminate].
  - destruct (draws_showProgress _ _ _ _ Sp) as (_ & _ & _ & _ & ws & W1).
    destruct (deliver fuel (events res) Waiting h1) as [[o' h2]|] eqn:D; [|discriminate].
    intros E. injection E as <-. cbn [actions].
    destruct (deliver_extends _ _ _ _ _ _ D) as (l & T).
    eexists. rewrite T, W1. cbn [h0 trace]. rewrite <- app_assoc. reflexivity.
  - destruct (draws_showProgress _ _ _ _ Sp) as (_ & _ & _ & _ & ws & W1).
    intros E. injection E as <-. cbn [actions]. eexists. exact W1.
Qed.

Lemma run_extends fuel k url tr r :
  downloadToStream fuel k url tr = Some r -> exists l, actions r = tr ++ l.
Proof.
  intros E.
  destruct (run_shape _ _ _ _ _ E) as (l & _ & [(_ & e & _ & A) | (f & res & S)]).
  - destruct A as [-> | ->]; eexists; reflexivity.
  - destruct (stream_extends _ _ _ _ S) as (l' & ->).
    eexists. rewrite <- app_assoc. reflexivity.
Qed.

(** *** The moment of completion *)

(** What the delivery of one event adds to the trace: the event, then what
    its listener does, which is no other event, no blanking of the progress
    line and no line of [debug], and is [out.close()] for the ["close"] of
    the response and for nothing else. *)
Lemma step_trace fuel ev h c h1 :
  (emit (Emitted ev) ;; listener fuel ev) h = Some (c, h1) ->
  exists l,
    trace h1 = (trace h ++ Emitted ev :: l)%list /\
    emitted l = [] /\
    sink_closes l = response_closes [ev] /\
    blanks l = 0%nat /\
    debug_lines l = [].
Proof.
  intros E.
  destruct (step_facts _ _ _ _ _ E) as (_ & _ & _ & _ & B & L & _).
  destruct (listener_step _ _ _ _ _ E) as (l & T & S1 & _).
  exists l. split; [exact T|].
  rewrite T, blanks_app in B. rewrite T, debug_lines_app in L.
  cbn [blanks debug_lines] in B, L.
  rewrite <- (app_nil_r (debug_lines (trace h))) in L at 2.
  apply app_inv_head in L.
  assert (Em : emitted (trace h1) = (emitted (trace h) ++ [ev])%list).
  { revert E. unfold bind at 1. unfold emit at 1.
    destruct ev as [data| | | |e|e]; cbn [listener].
    - intros E. destruct (onData_shape _ _ _ _ _ E) as (_ & _ & _ & _ & ws & Tr).
      rewrite Tr. unfold record. cbn [trace].
      rewrite !emitted_app, emitted_stdout. cbn [emitted].
      destruct c; cbn [emitted]; rewrite ?app_nil_r; reflexivity.
    - intros E. unfold emit in E. injection E as <- <-.
      unfold record. cbn [trace]. rewrite !emitted_app. cbn. rewrite app_nil_r.
      reflexivity.
    - intros E. unfold bind, emit, settle in E. injection E as <- <-.
      unfold record. cbn [trace]. rewrite !emitted_app. cbn. rewrite app_nil_r.
      reflexivity.
    - intros E. unfold settle in E. injection E as <- <-.
      unfold record. cbn [trace]. rewrite !emitted_app. reflexivity.
    - intros E. unfold bind, emit, settle in E. injection E as <- <-.
      unfold record. cbn [trace]. rewrite !emitted_app. cbn. rewrite app_nil_r.
      reflexivity.
    - intros E. unfold emit in E. injection E as <- <-.
      unfold record. cbn [trace]. rewrite !emitted_app. cbn. rewrite app_nil_r.
      reflexivity. }
  rewrite T, emitted_app in Em. cbn [emitted] in Em.
  apply app_inv_head in Em. injection Em as Em.
  split; [exact Em|]. split; [|split; [lia | exact L]].
  rewrite S1. destruct ev; reflexivity.
Qed.

(** Every event is delivered, the sink is closed once for each ["close"] of
    the response, and a call that was waiting and ends fulfilled has met the
    ["close"] of the sink with nothing settled before it: the progress line
    is blanked and the report logged right after that event, and at no
    other point. *)
Lemma deliver_completion fuel : forall evs o h o' h',
  deliver fuel evs o h = Some (o', h') ->
  (o = Waiting -> promise h = Pending) ->
  (forall e, o <> Crashed e) ->
  exists l,
    trace h' = (trace h ++ l)%list /\
    emitted l = evs /\
    sink_closes l = response_closes evs /\
    match o, o' with
    | Waiting, Fulfilled =>
        exists before after,
          l = (before ++ [Emitted OutClose; StdoutWrite blank_line]
                 ++ report_line (totalSize (state h)) ++ after)%list /\
          verdict (emitted before) = Waiting /\
          blanks before = 0%nat /\ reports before = [] /\
          blanks after = 0%nat /\ reports after = []
    | _, _ => blanks l = 0%nat /\ reports l = []
    end.
Proof.
  induction evs as [|ev evs IH]; intros o h o' h' E Hp Hc.
  - cbn [deliver] in E. injection E as <- <-. exists [].
    rewrite app_nil_r. repeat split. destruct o; split; reflexivity.
  - destruct (deliver_facts _ _ _ _ _ _ E Hp Hc) as (O & _).
    cbn [deliver] in E.
    destruct ((emit (Emitted ev);; listener fuel ev) h) as [[c h1]|] eqn:St;
      [|discriminate].
    destruct (step_facts _ _ _ _ _ St) as (-> & T1 & _ & _ & _ & _ & P1 & _).
    destruct (step_trace _ _ _ _ _ St) as (l1 & Tr1 & E1 & S1 & B1 & L1).
    pose proof (reports_debug_lines _ L1) as R1.
    assert (Settled : forall o1 : Outcome,
               o1 <> Waiting -> (forall e, o1 <> Crashed e) ->
               deliver fuel evs o1 h1 = Some (o', h') ->
               exists l,
                 trace h' = (trace h ++ l)%list /\
                 emitted l = ev :: evs /\
                 sink_closes l = response_closes (ev :: evs) /\
                 blanks l = 0%nat /\ reports l = []).
    { intros o1 Ho1 Hc1 E'.
      destruct (IH _ _ _ _ E') as (l & T & Em & Sc & Q);
        [intros ->; destruct (Ho1 eq_refl) | exact Hc1 |].
      assert (Q' : blanks l = 0%nat /\ reports l = [])
        by (destruct o1; try exact Q; destruct (Ho1 eq_refl)).
      destruct Q' as [Bl Rl].
      exists (Emitted ev :: l1 ++ l)%list.
      rewrite T, Tr1, <- app_assoc. split; [reflexivity|].
      change (Emitted ev :: l1 ++ l)%list with ([Emitted ev] ++ l1 ++ l)%list.
      rewrite !emitted_app, !sink_closes_app, !blanks_app, !reports_app,
        E1, Em, S1, Sc, B1, R1, Bl, Rl.
      change (ev :: evs) with ([ev] ++ evs)%list at 2.
      rewrite response_closes_app. repeat split. }
    destruct o as [| |e0|e0]; [| | |destruct (Hc e0 eq_refl)].
    + rewrite (Hp eq_refl) in P1.
      assert (Pending_on : promise h1 = Pending ->
                 verdict [ev] = Waiting ->
                 deliver fuel evs Waiting h1 = Some (o', h') ->
                 exists l,
                   trace h' = (trace h ++ l)%list /\
                   emitted l = ev :: evs /\
                   sink_closes l = response_closes (ev :: evs) /\
                   match o' with
                   | Fulfilled =>
                       exists before after,
                         l = (before ++ [Emitted OutClose; StdoutWrite blank_line]
                                ++ report_line (totalSize (state h)) ++ after)%list /\
                         verdict (emitted before) = Waiting /\
                         blanks before = 0%nat /\ reports before = [] /\
                         blanks after = 0%nat /\ reports after = []
                   | _ => blanks l = 0%nat /\ reports l = []
                   end).
      { intros Pp Hv E'.
        destruct (IH _ _ _ _ E' (fun _ => Pp)) as (l & T & Em & Sc & Q);
          [discriminate|].
        exists (Emitted ev :: l1 ++ l)%list.
        rewrite T, Tr1, <- app_assoc. split; [reflexivity|].
        change (Emitted ev :: l1 ++ l)%list with ([Emitted ev] ++ l1 ++ l)%list.
        rewrite !emitted_app, !sink_closes_app, E1, Em, S1, Sc.
        change (ev :: evs) with ([ev] ++ evs)%list at 2.
        rewrite response_closes_app. repeat split.
        assert (Quiet : blanks l = 0%nat /\ reports l = [] ->
                        blanks ([Emitted ev] ++ l1 ++ l) = 0%nat /\
                        reports ([Emitted ev] ++ l1 ++ l) = []).
        { intros [Bl Rl]. rewrite !blanks_app, !reports_app, B1, R1, Bl, Rl.
          split; reflexivity. }
        destruct o'; try (apply Quiet; exact Q).
        destruct Q as (before & after & -> & V & Bb & Rb & Ba & Ra).
        exists ([Emitted ev] ++ l1 ++ before)%list, after.
        rewrite T1, <- !app_assoc. split; [reflexivity|].
        rewrite !emitted_app, !blanks_app, !reports_app, E1, B1, R1, Bb, Rb.
        cbn [emitted app blanks reports Nat.add].
        repeat split; try assumption.
        destruct ev; try discriminate Hv; exact V. }
      destruct ev as [data| | | |e|e]; rewrite P1 in E.
      * apply Pending_on; [exact P1 | reflexivity | exact E].
      * apply Pending_on; [exact P1 | reflexivity | exact E].
      * cbn [verdict] in O. subst o'.
        apply (Settled (Failed (Error "Request aborted")));
          [discriminate | discriminate | exact E].
      * cbn [verdict] in O. subst o'.
        rewrite report_eq in E.
        revert Tr1 E1 S1 B1 L1 R1 P1 E. revert St.
        unfold bind at 1, emit at 1. cbn [listener]. unfold settle.
        intros St. injection St as <-.
        intros Tr1 E1 S1 B1 L1 R1 P1 E.
        destruct (IH _ _ _ _ E) as (l & T & Em & Sc & [Bl Rl]);
          [discriminate | discriminate |].
        cbn [record trace state] in T.
        exists ([Emitted OutClose; StdoutWrite blank_line]
                  ++ report_line (totalSize (state h)) ++ l)%list.
        split; [|split; [|split]].
        -- rewrite T, <- !app_assoc. unfold report_line.
           destruct verbose; reflexivity.
        -- unfold report_line. destruct verbose; cbn; rewrite Em; reflexivity.
        -- unfold report_line. destruct verbose; cbn; rewrite Sc; reflexivity.
        -- exists [], l. repeat split; assumption.
      * cbn [verdict] in O. subst o'.
        apply (Settled (Failed e)); [discriminate | discriminate | exact E].
      * apply Pending_on; [exact P1 | reflexivity | exact E].
    + subst o'. apply (Settled Fulfilled); [discriminate | discriminate |].
      destruct (promise h1); exact E.
    + subst o'. apply (Settled (Failed e0)); [discriminate | discriminate |].
      destruct (promise h1); exact E.
Qed.

(** The same of a whole transfer. *)
Lemma stream_completion fuel res tr r :
  stream fuel res tr = Some r ->
  emitted (actions r) = (emitted tr ++ events res)%list /\
  sink_closes (actions r) = (sink_closes tr + response_closes (events res))%nat /\
  match outcome r with
  | Fulfilled =>
      exists before after,
        actions r
        = (tr ++ before ++ [Emitted OutClose; StdoutWrite blank_line]
             ++ report_line (totalSize (initial_state res)) ++ after)%list /\
        verdict (emitted before) = Waiting /\
        blanks before = 0%nat /\ reports before = [] /\
        blanks after = 0%nat /\ reports after = []
  | _ =>
      exists l,
        actions r = (tr ++ l)%list /\ blanks l = 0%nat /\ reports l = []
  end.
Proof.
  unfold stream.
  set (h0 := {| state := initial_state res; promise := Pending; trace := tr |}).
  pose proof (showProgress_safe fuel h0 whole_zero) as S0. unfold does_not_throw in S0.
  destruct (showProgress fuel h0) as [[[[] | e] h1]|] eqn:Sp;
    [| destruct S0 | discriminate].
  destruct (draws_showProgress _ _ _ _ Sp) as (P1 & _ & T1 & _ & ws & W1).
  pose proof (keeps_line_showProgress _ _ _ _ Sp) as B1.
  cbn [h0 promise trace state] in P1, T1, W1, B1.
  assert (Bw : blanks (map StdoutWrite ws) = 0%nat).
  { rewrite W1, blanks_app in B1. lia. }
  destruct (deliver fuel (events res) Waiting h1) as [[o' h2]|] eqn:D; [|discriminate].
  intros E. injection E as <-. cbn [outcome transfer actions].
  destruct (deliver_completion _ _ _ _ _ _ D (fun _ => P1))
    as (l & T & Em & Sc & Q); [discriminate|].
  rewrite T, W1, !emitted_app, !sink_closes_app, emitted_stdout, sink_closes_stdout,
    Em, Sc, app_nil_r, Nat.add_0_r.
  split; [reflexivity|]. split; [reflexivity|].
  assert (Quiet : blanks l = 0%nat /\ reports l = [] ->
                  exists l0,
                    ((tr ++ map StdoutWrite ws) ++ l)%list = (tr ++ l0)%list /\
                    blanks l0 = 0%nat /\ reports l0 = []).
  { intros [Bl Rl]. exists (map StdoutWrite ws ++ l)%list.
    rewrite <- app_assoc, blanks_app, reports_app, reports_stdout, Bw, Bl, Rl.
    repeat split. }
  destruct o'; try (apply Quiet; exact Q).
  destruct Q as (before & after & -> & V & Bb & Rb & Ba & Ra).
  exists (map StdoutWrite ws ++ before)%list, after.
  rewrite T1, <- !app_assoc. split; [reflexivity|].
  rewrite emitted_app, emitted_stdout, blanks_app, reports_app, reports_stdout,
    Bw, Bb, Rb.
  repeat split; assumption.
Qed.

(** *** Redirect chains *)

Lemma chain_logs : forall hops url,
  console_logs (chain_actions url hops) = if verbose then redirect_lines hops else [].
Proof.
  induction hops as [|[res next] hops IH]; intros url.
  - destruct verbose; reflexivity.
  - cbn [chain_actions redirect_lines console_logs].
    rewrite console_logs_app. cbn [console_logs]. rewrite IH.
    destruct verbose; cbn [negb]; [|reflexivity].
    destruct (URL_parse next); reflexivity.
Qed.

Lemma redirect_lines_length : forall hops k url,
  redirect_chain k url hops -> List.length (redirect_lines hops) = List.length hops.
Proof.
  induction hops as [|[res next] hops IH]; intros k url Hc; [reflexivity|].
  destruct Hc as (_ & _ & _ & Hp & Hc). cbn [redirect_lines].
  destruct (URL_parse next); [|destruct (Hp eq_refl)].
  cbn. rewrite (IH _ _ Hc). reflexivity.
Qed.

Lemma chain_resolving : forall hops url, Forall resolving (chain_actions url hops).
Proof.
  induction hops as [|[res next] hops IH]; intros url; [constructor|].
  cbn [chain_actions]. constructor; [exact I|].
  apply Forall_app. split.
  - destruct verbose eqn:V; cbn [negb]; [|constructor].
    destruct (URL_parse next); repeat constructor. exact V.
  - constructor; [exact I | apply IH].
Qed.

Lemma chain_stdout hops url : stdout (chain_actions url hops) = [].
Proof. apply (resolving_facts _ (chain_resolving hops url)). Qed.

(** *** A declared total of zero *)

Lemma onData_zero fuel (data : Buffer) h :
  doneSize (state h) = of_Z 0 -> totalSize (state h) = of_Z 0 ->
  currentDots (state h) = of_Z 0 -> totalDots (state h) = of_Z 100 ->
  onData fuel data h = None.
Proof.
  intros Hd Ht Hc Hu. destruct (List.length data) as [|len] eqn:L.
  - unfold onData, bind at 1, modify_state. unfold bind at 1, get_state.
    cbn [state with_state set_doneSize doneSize totalSize totalDots].
    rewrite Hd, Ht, L.
    replace (floor (mul (div (add (of_Z 0) (of_nat 0)) (of_Z 0)) (totalDots (state h))))
      with NaN by (vm_compute; reflexivity).
    unfold bind at 1. rewrite dots_loop_NaN. reflexivity.
  - apply onData_Inf.
    + rewrite Hd, Ht, Hu, L.
      rewrite (of_Z_nonneg 0), (of_Z_nonneg 100) by lia.
      unfold of_nat, of_Z.
      replace (Z.of_nat (S len) <? 0) with false by (symmetry; apply Z.ltb_ge; lia).
      rewrite Z.abs_eq by lia.
      pose proof (fl_ge_one (Z.of_nat (S len)) ltac:(lia)) as G.
      unfold round at 1. set (q := fl (inject_Z (Z.of_nat (S len)))) in *.
      destruct (overflows q); [reflexivity|].
      unfold add, sval.
      assert (Qeq_bool (inject_Z 0 + q) 0 = false) as ->.
      { apply not_true_is_false. intros Hq. apply Qeq_bool_iff in Hq.
        change (inject_Z 0) with 0%Q in Hq. lra. }
      assert (Qle_bool 0 (inject_Z 0 + q) = true) as ->.
      { apply Qle_bool_iff. change (inject_Z 0) with 0%Q. lra. }
      cbn [negb]. unfold round.
      set (q' := fl (Qabs (inject_Z 0 + q))).
      assert (G' : (1 <= q')%Q).
      { unfold q'. rewrite <- fl_one. apply fl_mono.
        rewrite Qabs_pos; change (inject_Z 0) with 0%Q; lra. }
      destruct (overflows q'); [reflexivity|].
      unfold div. change (Qeq_bool (inject_Z 0) 0) with true. cbn iota.
      assert (Qeq_bool q' 0 = false) as ->.
      { apply not_true_is_false. intros Hq. apply Qeq_bool_iff in Hq. lra. }
      reflexivity.
    + rewrite Hc. reflexivity.
Qed.

End WithHost.

End RunFacts.

(** ** Decimal digits, read and written *)

Module FormatFacts.

Import Binary64 Binary64Facts JsNum JsNumFacts Download Format.
Local Open Scope Z_scope.
Local Open Scope string_scope.

(** *** [parseInt] on what [decimal] writes *)

Lemma digits_step a c d r :
  digit_of c = Some d -> digits (Some a) (String c r) = digits (Some (10 * a + d)) r.
Proof. intros H. cbn [digits]. rewrite H. reflexivity. Qed.

Lemma digits_stop acc rest :
  match rest with String c _ => digit_of c = None | EmptyString => True end ->
  digits acc rest = acc.
Proof. destruct rest as [|c r]; [reflexivity|]. intros H. cbn [digits]. rewrite H. reflexivity. Qed.

Lemma digits_uint_acc rest : forall u p,
  digits (Some (Z.pos p)) (NilEmpty.string_of_uint u ++ rest)
  = digits (Some (Z.pos (Pos.of_uint_acc u p))) rest.
Proof.
  induction u as [|u IH|u IH|u IH|u IH|u IH|u IH|u IH|u IH|u IH|u IH]; intros p;
    [reflexivity | ..];
    cbn [NilEmpty.string_of_uint append Pos.of_uint_acc];
    erewrite digits_step by (vm_compute; reflexivity); rewrite <- IH;
    f_equal; f_equal; lia.
Qed.

Lemma digits_uint rest : forall u,
  digits (Some 0) (NilEmpty.string_of_uint u ++ rest)
  = digits (Some (Z.of_N (Pos.of_uint u))) rest.
Proof.
  induction u as [|u IH|u IH|u IH|u IH|u IH|u IH|u IH|u IH|u IH|u IH];
    [reflexivity | ..];
    cbn [NilEmpty.string_of_uint append Pos.of_uint];
    erewrite digits_step by (vm_compute; reflexivity);
    [exact IH | ..]; cbn [Z.of_N]; rewrite <- digits_uint_acc; reflexivity.
Qed.

(** [decimal] writes at least one character, a digit. *)
Lemma decimal_head n :
  exists c s d, decimal n = String c s /\ digit_of c = Some d /\
                digits None (decimal n) = digits (Some 0) (decimal n).
Proof.
  unfold decimal. destruct n as [|p]; [exists "0"%char, "", 0; repeat split|].
  cbn [N.to_uint]. pose proof (DecimalPos.Unsigned.to_uint_nonnil p) as Hn.
  destruct (Pos.to_uint p) as [|u|u|u|u|u|u|u|u|u|u]; [destruct (Hn eq_refl) | ..];
    cbn [NilZero.string_of_uint NilEmpty.string_of_uint];
    eexists; eexists; eexists; (split; [reflexivity|]); split; reflexivity.
Qed.

Lemma decimal_NilEmpty n : decimal n = NilEmpty.string_of_uint (N.to_uint n).
Proof.
  unfold decimal. destruct n as [|p]; [reflexivity|]. cbn [N.to_uint].
  pose proof (DecimalPos.Unsigned.to_uint_nonnil p) as Hn.
  destruct (Pos.to_uint p); [destruct (Hn eq_refl) | ..]; reflexivity.
Qed.

Lemma digits_decimal n rest :
  match rest with String c _ => digit_of c = None | EmptyString => True end ->
  digits None (decimal n ++ rest) = Some (Z.of_N n).
Proof.
  intros Hrest.
  assert (E : digits None (decimal n ++ rest) = digits (Some 0) (decimal n ++ rest)).
  { destruct (decimal_head n) as (c & s & d & -> & Hd & _).
    cbn [append digits]. rewrite Hd. reflexivity. }
  rewrite E, decimal_NilEmpty, digits_uint.
  change (Pos.of_uint (N.to_uint n)) with (N.of_uint (N.to_uint n)).
  rewrite DecimalN.Unsigned.of_to. apply digits_stop. exact Hrest.
Qed.

(** [parseInt] reads back what [decimal] wrote, whatever follows the
    digits. *)
Lemma parseInt_decimal n rest :
  match rest with String c _ => digit_of c = None | EmptyString => True end ->
  parseInt (decimal n ++ rest) = of_Z (Z.of_N n).
Proof.
  intros Hrest. unfold parseInt.
  destruct (decimal_head n) as (c & s & d & E & Hd & _).
  assert (Hc : is_white_space c = false /\ c <> "-"%char /\ c <> "+"%char).
  { unfold digit_of in Hd.
    destruct ((48 <=? nat_of_ascii c)%nat && (nat_of_ascii c <=? 57)%nat) eqn:B;
      [|discriminate].
    apply andb_true_iff in B. destruct B as [B1 B2].
    apply Nat.leb_le in B1, B2.
    split; [|split].
    - unfold is_white_space.
      repeat (apply orb_false_iff; split); try apply andb_false_iff;
        try (right; apply Nat.leb_gt; lia); apply Nat.eqb_neq; lia.
    - intros ->. cbn in B1. lia.
    - intros ->. cbn in B1. lia. }
  destruct Hc as (Hw & Hm & Hp).
  assert (T : trim_start (decimal n ++ rest) = decimal n ++ rest).
  { rewrite E. cbn [append trim_start]. rewrite Hw. reflexivity. }
  rewrite T.
  assert (S : (let '(sign, s0) :=
                 match decimal n ++ rest with
                 | String "-"%char r => (true, r)
                 | String "+"%char r => (false, r)
                 | _ => (false, decimal n ++ rest)
                 end in
               match digits None s0 with
               | Some n0 => round sign (inject_Z n0)
               | None => NaN
               end)
              = match digits None (decimal n ++ rest) with
                | Some n0 => round false (inject_Z n0)
                | None => NaN
                end).
  { rewrite E. cbn [append].
    destruct c as [[] [] [] [] [] [] [] []]; try reflexivity;
      [destruct (Hp eq_refl) | destruct (Hm eq_refl)]. }
  rewrite S, (digits_decimal n rest Hrest).
  unfold of_Z. replace (Z.of_N n <? 0)%Z with false by (symmetry; apply Z.ltb_ge; lia).
  rewrite Z.abs_eq by lia. reflexivity.
Qed.

(** *** The digits of a number, by tens *)

Lemma append_assoc a b c : (a ++ b) ++ c = a ++ (b ++ c).
Proof. induction a as [|x a IH]; [reflexivity|]. cbn [append]. rewrite IH. reflexivity. Qed.

Lemma length_append a b : String.length (a ++ b) = (String.length a + String.length b)%nat.
Proof. induction a as [|x a IH]; [reflexivity|]. cbn. rewrite IH. reflexivity. Qed.

Lemma substring_prefix a b : substring 0 (String.length a) (a ++ b) = a.
Proof. induction a as [|x a IH]; [destruct b; reflexivity|]. cbn. rewrite IH. reflexivity. Qed.

Lemma substring_suffix a b : substring (String.length a) (String.length b) (a ++ b) = b.
Proof.
  induction a as [|x a IH]; [|exact IH].
  cbn. induction b as [|y b IHb]; [reflexivity|]. cbn. rewrite IHb. reflexivity.
Qed.

Lemma string_of_revapp : forall l acc,
  NilEmpty.string_of_uint (Decimal.revapp l acc)
  = NilEmpty.string_of_uint (Decimal.rev l) ++ NilEmpty.string_of_uint acc.
Proof.
  assert (A : forall a b c, (a ++ String c "") ++ b = a ++ String c b).
  { induction a as [|x a IH]; intros b c; [reflexivity|].
    cbn [append]. rewrite IH. reflexivity. }
  unfold Decimal.rev.
  induction l as [|l IH|l IH|l IH|l IH|l IH|l IH|l IH|l IH|l IH|l IH]; intros acc;
    [reflexivity | ..];
    cbn [Decimal.revapp]; rewrite IH; symmetry; rewrite IH;
    cbn [NilEmpty.string_of_uint]; apply A.
Qed.

Lemma to_lu_digit p d :
  (d < 10)%N ->
  DecimalPos.Unsigned.to_lu (10 * N.pos p + d)
  = match d with
    | 0 => Decimal.D0 | 1 => Decimal.D1 | 2 => Decimal.D2 | 3 => Decimal.D3
    | 4 => Decimal.D4 | 5 => Decimal.D5 | 6 => Decimal.D6 | 7 => Decimal.D7
    | 8 => Decimal.D8 | _ => Decimal.D9
    end%N (DecimalPos.Unsigned.to_lu (N.pos p)).
Proof.
  intros Hd.
  pose proof (DecimalPos.Unsigned.to_ldec_tenfold p) as T.
  assert (S : forall n k, DecimalPos.Unsigned.to_lu (n + N.of_nat k)
                          = Nat.iter k Decimal.Little.succ (DecimalPos.Unsigned.to_lu n)).
  { intros n k. induction k as [|k IH]; [rewrite N.add_0_r; reflexivity|].
    rewrite Nnat.Nat2N.inj_succ, N.add_succ_r, DecimalPos.Unsigned.to_lu_succ, IH.
    reflexivity. }
  assert (C : (d = 0 \/ d = 1 \/ d = 2 \/ d = 3 \/ d = 4 \/ d = 5 \/ d = 6 \/ d = 7
               \/ d = 8 \/ d = 9)%N) by lia.
  destruct C as [-> | [-> | [-> | [-> | [-> | [-> | [-> | [-> | [-> | ->]]]]]]]]];
    [rewrite N.add_0_r; exact T | ..];
    match goal with
    | |- context [(_ + ?k)%N] =>
        change k with (N.of_nat (N.to_nat k)); rewrite S, T; reflexivity
    end.
Qed.

(** One more digit: the digits of [10 q + d] are those of [q >= 1] followed
    by [d]. *)
Lemma decimal_snoc q d :
  (0 < q)%N -> (d < 10)%N ->
  decimal (10 * q + d) = decimal q ++ String (digit_char d) "".
Proof.
  intros Hq Hd. destruct q as [|p]; [lia|].
  rewrite !decimal_NilEmpty.
  assert (E : exists p', (10 * N.pos p + d = N.pos p')%N).
  { destruct (10 * N.pos p + d)%N as [|p'] eqn:E; [lia | exists p'; reflexivity]. }
  destruct E as (p' & E).
  pose proof (to_lu_digit p d Hd) as L. rewrite E in L. rewrite E.
  cbn [N.to_uint DecimalPos.Unsigned.to_lu] in *. unfold Pos.to_uint. rewrite L.
  assert (C : (d = 0 \/ d = 1 \/ d = 2 \/ d = 3 \/ d = 4 \/ d = 5 \/ d = 6 \/ d = 7
               \/ d = 8 \/ d = 9)%N) by lia.
  destruct C as [-> | [-> | [-> | [-> | [-> | [-> | [-> | [-> | [-> | ->]]]]]]]]];
    unfold Decimal.rev at 1; cbn [Decimal.revapp]; rewrite string_of_revapp;
    reflexivity.
Qed.

Lemma decimal_digit d : (d < 10)%N -> decimal d = String (digit_char d) "".
Proof.
  intros Hd.
  assert (C : (d = 0 \/ d = 1 \/ d = 2 \/ d = 3 \/ d = 4 \/ d = 5 \/ d = 6 \/ d = 7
               \/ d = 8 \/ d = 9)%N) by lia.
  destruct C as [-> | [-> | [-> | [-> | [-> | [-> | [-> | [-> | [-> | ->]]]]]]]]];
    reflexivity.
Qed.

(** The digits of [n] are those of [n / 100], if any, followed by the two
    digits of [n mod 100]. *)
Lemma decimal_hundreds n :
  (100 <= n)%N -> decimal n = decimal (n / 100) ++ two_digits (n mod 100).
Proof.
  intros Hn.
  assert (Hq : (0 < n / 100)%N) by (apply N.div_str_pos; lia).
  pose proof (N.mod_lt n 100 ltac:(lia)) as Hr.
  pose proof (N.mod_lt (n mod 100) 10 ltac:(lia)) as Hr2.
  assert (Hr1 : (n mod 100 / 10 < 10)%N) by (apply N.Div0.div_lt_upper_bound; lia).
  assert (E : (n = 10 * (10 * (n / 100) + n mod 100 / 10) + n mod 100 mod 10)%N).
  { pose proof (N.div_mod n 100 ltac:(lia)).
    pose proof (N.div_mod (n mod 100) 10 ltac:(lia)). lia. }
  rewrite E at 1.
  rewrite decimal_snoc by lia. rewrite decimal_snoc by lia.
  unfold two_digits. rewrite append_assoc. reflexivity.
Qed.

(** [fixed 2]: the digits of [n / 100], a point, the two digits of
    [n mod 100]. *)
Lemma fixed_two n : fixed 2 n = decimal (n / 100) ++ "." ++ two_digits (n mod 100).
Proof.
  destruct (N.lt_ge_cases n 100) as [Hn | Hn].
  - assert (B : forallb (fun i => String.eqb
                                    (fixed 2 (N.of_nat i))
                                    (decimal (N.of_nat i / 100) ++ "."
                                     ++ two_digits (N.of_nat i mod 100)))
                  (seq 0 100) = true) by (vm_compute; reflexivity).
    rewrite forallb_forall in B.
    specialize (B (N.to_nat n)). rewrite Nnat.N2Nat.id in B.
    apply String.eqb_eq, B, in_seq. lia.
  - unfold fixed. cbn [Nat.eqb].
    rewrite (decimal_hundreds n Hn).
    set (a := decimal (n / 100)). set (b := two_digits (n mod 100)).
    assert (Lb : String.length b = 2%nat) by reflexivity.
    assert (La : (1 <= String.length a)%nat).
    { unfold a. destruct (decimal_head (n / 100)) as (c & s & d & -> & _). cbn. lia. }
    rewrite length_append, Lb.
    replace (String.length a + 2 <=? 2)%nat with false
      by (symmetry; apply Nat.leb_gt; lia).
    replace (String.length a + 2 - 2)%nat with (String.length a) by lia.
    rewrite substring_prefix. rewrite <- Lb at 1. rewrite substring_suffix.
    reflexivity.
Qed.

Lemma fixed_zero n : fixed 0 n = decimal n.
Proof. reflexivity. Qed.

Lemma js_host_standard v n : standard_format (js_host v n).
Proof.
  split; [reflexivity|]. intros x. cbn [ToString js_host].
  destruct x as [|s|s m]; try reflexivity. unfold Number_toString.
  destruct (Qeq_bool m (inject_Z (Qfloor m)) && Qle_bool m (inject_Z (2 ^ 53)));
    reflexivity.
Qed.

(** *** Division by a power of two is exact *)

Local Open Scope Q_scope.

Lemma fl_scaled b j :
  (0 < b <= 2 ^ 53)%Z -> (-1000 <= j <= 0)%Z ->
  fl (inject_Z b * pow2 j) == inject_Z b * pow2 j.
Proof.
  intros Hb Hj. set (q := inject_Z b * pow2 j).
  pose proof (pow2_pos j) as Pj.
  assert (Hb0 : 0 < inject_Z b).
  { change 0 with (inject_Z 0). rewrite <- Zlt_Qlt. lia. }
  assert (Hq : 0 < q) by (unfold q; apply Qmult_lt_0_compat; assumption).
  set (L := Z.log2 b).
  assert (HL : (0 <= L <= 53)%Z).
  { unfold L. split; [apply Z.log2_nonneg|].
    change 53%Z with (Z.log2 (2 ^ 53)). apply Z.log2_le_mono. lia. }
  destruct (log2_binade b ltac:(lia)) as [B1 B2]. fold L in B1, B2.
  assert (Il : ilog2 q = (L + j)%Z).
  { apply ilog2_unique; unfold q.
    - rewrite pow2_plus. apply Qmult_le_compat_r; [exact B1 | lra].
    - replace (L + j + 1)%Z with ((L + 1) + j)%Z by lia. rewrite pow2_plus.
      apply Qmult_lt_compat_r; assumption. }
  assert (Ue : ulp_exp q = (L + j - 52)%Z).
  { unfold ulp_exp. rewrite Il. unfold prec, emin. lia. }
  destruct (Z_le_gt_dec L 52) as [Hs | Hs].
  - apply (fl_exact q (b * 2 ^ (52 - L))); [exact Hq|].
    rewrite Ue, inject_Z_mult, (pow2_Z (52 - L)) by lia. unfold q.
    rewrite <- Qmult_assoc, <- pow2_plus.
    replace (52 - L + (L + j - 52))%Z with j by lia. reflexivity.
  - assert (L = 53%Z) by lia.
    assert (Eb : b = (2 ^ 53)%Z).
    { pose proof (Z.log2_spec b ltac:(lia)) as S. fold L in S. rewrite H in S. lia. }
    apply (fl_exact q (2 ^ 52)); [exact Hq|].
    rewrite Ue, H. unfold q. rewrite Eb, (pow2_Z 53), (pow2_Z 52) by lia.
    rewrite <- !pow2_plus. replace (52 + (53 + j - 52))%Z with (53 + j)%Z by lia.
    reflexivity.
Qed.

Lemma fl_div_pow2 b k :
  (0 < b <= 2 ^ 53)%Z -> (0 <= k <= 1000)%Z ->
  fl (inject_Z b / inject_Z (2 ^ k)) == inject_Z b / inject_Z (2 ^ k).
Proof.
  intros Hb Hk.
  assert (E : inject_Z b / inject_Z (2 ^ k) == inject_Z b * pow2 (- k)).
  { rewrite (pow2_Z k) by lia. apply RunFacts.div_by_inverse; [apply pow2_pos|].
    rewrite <- pow2_plus. replace (k + - k)%Z with 0%Z by lia. reflexivity. }
  rewrite (fl_comp _ _ E), E. apply fl_scaled; lia.
Qed.

(** A byte count divided by [2^k]: the quotient is the exact one. *)
Lemma div_pow2 b k :
  (0 < b <= 2 ^ 53)%Z -> (0 <= k <= 53)%Z ->
  exists q, div (of_Z b) (of_Z (2 ^ k)) = Fin false q /\
            q == inject_Z b / inject_Z (2 ^ k).
Proof.
  intros Hb Hk.
  assert (Hp : (0 < 2 ^ k <= 2 ^ 53)%Z).
  { split; [apply Z.pow_pos_nonneg; lia | apply Z.pow_le_mono_r; lia]. }
  rewrite (of_Z_nonneg b), (of_Z_nonneg (2 ^ k)) by lia.
  unfold div.
  assert (Qeq_bool (inject_Z (2 ^ k)) 0 = false) as ->.
  { change 0 with (inject_Z 0). rewrite Qeq_bool_Z. apply Z.eqb_neq. lia. }
  cbn [xorb]. unfold round.
  pose proof (fl_div_pow2 b k Hb ltac:(lia)) as F.
  assert (Hle : inject_Z b / inject_Z (2 ^ k) <= inject_Z b).
  { apply Qle_shift_div_r.
    - change 0 with (inject_Z 0). rewrite <- Zlt_Qlt. lia.
    - rewrite <- inject_Z_mult, <- Zle_Qle. nia. }
  rewrite overflows_small.
  - eexists. split; [reflexivity | exact F].
  - rewrite F. eapply Qle_trans; [exact Hle|]. rewrite <- Zle_Qle. lia.
Qed.

(** Rounding half up, in integers. *)
Lemma half_up_floor q b (d : positive) f :
  q == inject_Z b / inject_Z (Z.pos d) ->
  Qfloor (q * inject_Z f + (1 # 2)) = ((2 * b * f + Z.pos d) / (2 * Z.pos d))%Z.
Proof.
  intros E.
  assert (X : q * inject_Z f + (1 # 2) == (2 * b * f + Z.pos d) # (2 * d)).
  { rewrite E, (Qmake_Qdiv (2 * b * f + Z.pos d) (2 * d)).
    rewrite inject_Z_plus, !inject_Z_mult.
    change (inject_Z (Z.pos (2 * d))) with (inject_Z (2 * Z.pos d)).
    rewrite inject_Z_mult. field.
    change 0 with (inject_Z 0). rewrite inject_Z_injective. lia. }
  rewrite (Qfloor_comp _ _ X). reflexivity.
Qed.

Local Close Scope Q_scope.

End FormatFacts.

(** ** The properties of [downloadToStream] *)

Module Claims.

Import Binary64 Binary64Facts JsNum JsNumFacts DotsFacts Download ProgressFacts.
Import ShapeFacts TraceFacts TransferFacts HangFacts OrderFacts Runs RunFacts.
Local Open Scope Z_scope.
Local Open Scope string_scope.

(** The bytes of the sink, from the log of what was done to it. *)
Lemma sink_bytes_log tr body :
  sink_log tr = (map SinkWrite body ++ [SinkClose])%list ->
  sink_bytes tr = List.concat body.
Proof.
  intros H. unfold sink_bytes. rewrite <- sink_writes_log, H, sink_writes_app.
  cbn [sink_writes]. rewrite app_nil_r, sink_writes_map. reflexivity.
Qed.

(** C1, as amended.  For every redirect chain of N hops whose targets are
    absolute [https] URLs, ending in a response with status 200 that
    declares a content length of at least one byte and delivers a body of at
    most 2^53/100 bytes: [downloadToStream] requests every URL of the chain
    in order, whatever N is, and destroys each redirect response; the only
    events delivered to a listener are those of the final response, so the
    body of a redirect response is never read; the sink is handed exactly
    the chunks of the final body, in the order received, and is closed once
    after the last of them; and the call returns.  The events a redirect
    response holds are arbitrary and have no effect. *)
Theorem redirect_chain_followed {host : Host} url hops res body n :
  redirect_chain 0 url hops ->
  https_request (final_url url hops) = None ->
  net (List.length hops) (final_url url hops) = Response res ->
  truthy (header "location" (headers res)) = None ->
  statusCode res = 200%N ->
  totalSize (initial_state res) = of_Z n -> 1 <= n ->
  100 * size body <= 2 ^ 53 ->
  events res = (map ResData body ++ [ResClose; OutClose])%list ->
  exists fuel0 r,
    (forall fuel, (fuel0 <= fuel)%nat -> downloadToStream fuel 0 url [] = Some r) /\
    outcome r = Fulfilled /\
    requests (actions r) = url :: map snd hops /\
    destroys (actions r) = List.length hops /\
    emitted (actions r) = events res /\
    sink_log (actions r) = (map SinkWrite body ++ [SinkClose])%list /\
    sink_bytes (actions r) = List.concat body.
Proof.
  intros Hchain Hreq Hnet Hloc Hcode Ht Hn Hb Hev.
  pose proof (size_nonneg body) as Hsz.
  destruct (stream_complete res (chain_actions url hops ++ [Request (final_url url hops)])
              n body Ht Hn ltac:(lia) ltac:(lia) Hev) as (l & E & S1 & S2 & S3).
  exists (List.length hops + S (Z.to_nat (dotsZ n (size body) / 8) + 16))%nat.
  eexists. split; [|split; [|split; [|split; [|split; [|split]]]]].
  - intros fuel Hf.
    replace fuel with (List.length hops + S (fuel - List.length hops - 1))%nat by lia.
    rewrite (chain_followed hops _ 0 url [] Hchain).
    cbn [Nat.add app downloadToStream]. rewrite Hreq, Hnet, Hloc, Hcode.
    cbn [N.eqb Pos.eqb negb]. apply E. lia.
  - reflexivity.
  - cbn [actions]. rewrite !requests_app, <- (requests_net_log l), S2.
    cbn [requests]. rewrite app_nil_r. apply chain_requests.
  - cbn [actions]. rewrite !destroys_app, chain_destroys, <- (destroys_net_log l), S2.
    cbn [destroys]. lia.
  - cbn [actions]. rewrite !emitted_app, chain_emitted, S3. reflexivity.
  - cbn [actions]. rewrite !sink_log_app, chain_sink, S1. reflexivity.
  - apply sink_bytes_log. cbn [actions]. rewrite !sink_log_app, chain_sink, S1. reflexivity.
Qed.

(** The scenario of the specification: one redirect, then 2560 bytes in ten
    chunks of 256. *)
Lemma redirect_chain_followed_witness :
  exists fuel0 r,
    (forall fuel, (fuel0 <= fuel)%nat ->
       @downloadToStream redirected_host fuel 0 "https://a.example/f" [] = Some r) /\
    outcome r = Fulfilled /\
    requests (actions r) = ["https://a.example/f"; "https://b.example/g"] /\
    destroys (actions r) = 1%nat /\
    emitted (actions r)
    = (map ResData (List.repeat (bytes 256) 10) ++ [ResClose; OutClose])%list /\
    sink_log (actions r)
    = (map SinkWrite (List.repeat (bytes 256) 10) ++ [SinkClose])%list /\
    sink_bytes (actions r) = List.concat (List.repeat (bytes 256) 10).
Proof.
  apply (@redirect_chain_followed redirected_host
           "https://a.example/f"
           [({| statusCode := 301;
                headers := [("location", "https://b.example/g")];
                events := [ResData (bytes 7); ResClose] |},
             "https://b.example/g")]
           {| statusCode := 200;
              headers := [("content-length", "2560")];
              events := (map ResData (List.repeat (bytes 256) 10)
                         ++ [ResClose; OutClose])%list |}
           (List.repeat (bytes 256) 10) 2560).
  - cbn [redirect_chain]. repeat split; try reflexivity. discriminate.
  - reflexivity.
  - reflexivity.
  - reflexivity.
  - reflexivity.
  - vm_compute. reflexivity.
  - lia.
  - vm_compute. discriminate.
  - reflexivity.
Defined.

(** C1 as stated fails on two chains that end in a response with status
    200.  A redirect whose target is relative is not followed: [new URL]
    rejects it and the call fails after one request.  A final response that
    declares no length is never copied: no amount of fuel lets the call get
    past its first chunk. *)
Lemma redirect_chain_counterexample :
  (forall fuel,
     @downloadToStream relative_host (S fuel) 0 "https://a.example/f" []
     = Some {| outcome := Failed (TypeError "ERR_INVALID_URL");
               transfer := None;
               actions := [Request "https://a.example/f"] |}) /\
  (forall fuel,
     @downloadToStream chunked_host fuel 0 "https://a.example/f" [] = None).
Proof.
  split.
  - intros fuel. reflexivity.
  - intros [|fuel]; [reflexivity|].
    cbn [downloadToStream]. 
    change (@https_request chunked_host "https://a.example/f") with (@None JsError).
    cbv iota beta.
    change (@net chunked_host 0 "https://a.example/f")
      with (response 200 [("transfer-encoding", "chunked")]
              [ResData (bytes 1); ResClose; OutClose]).
    unfold response. cbv iota beta.
    cbn [headers header String.eqb Ascii.eqb Bool.eqb truthy statusCode N.eqb Pos.eqb negb].
    apply (stream_hangs _ _ _ (bytes 1) [ResClose; OutClose]); reflexivity.
Qed.

(** C3, evaluated on the code.  When the final response has status 200 and
    its [content-length] is absent or does not start with a number, the
    total is [NaN]; nothing is divided by zero and nothing is thrown, but
    the first chunk never leaves the loop of lines 287-290: whatever the
    fuel, the call yields no result, so nothing is written to the sink and
    the transfer does not complete. *)
Theorem transfer_without_length_hangs {host : Host} fuel k url tr res data rest :
  https_request url = None ->
  net k url = Response res ->
  truthy (header "location" (headers res)) = None ->
  statusCode res = 200%N ->
  header "content-length" (headers res) = None \/
  (exists v, header "content-length" (headers res) = Some v /\ parseInt v = NaN) ->
  events res = ResData data :: rest ->
  totalSize (initial_state res) = NaN /\
  downloadToStream fuel k url tr = None.
Proof.
  intros Hreq Hnet Hloc Hcode Hlen Hev.
  assert (Ht : totalSize (initial_state res) = NaN).
  { unfold initial_state. cbn [totalSize].
    destruct Hlen as [-> | (v & -> & Hv)]; [reflexivity|].
    destruct v; [reflexivity | exact Hv]. }
  split; [exact Ht|].
  destruct fuel as [|fuel]; [reflexivity|].
  cbn [downloadToStream]. rewrite Hreq, Hnet, Hloc, Hcode.
  cbn [N.eqb Pos.eqb negb]. apply (stream_hangs _ _ _ data rest Ht Hev).
Qed.

(** A chunked response of one byte. *)
Lemma transfer_without_length_hangs_witness :
  totalSize (initial_state
               {| statusCode := 200;
                  headers := [("transfer-encoding", "chunked")];
                  events := [ResData (bytes 1); ResClose; OutClose] |}) = NaN /\
  @downloadToStream chunked_host 1000 0 "https://a.example/f" [] = None.
Proof.
  apply (@transfer_without_length_hangs chunked_host 1000 0 "https://a.example/f" []
           {| statusCode := 200;
              headers := [("transfer-encoding", "chunked")];
              events := [ResData (bytes 1); ResClose; OutClose] |}
           (bytes 1) [ResClose; OutClose]).
  - reflexivity.
  - reflexivity.
  - reflexivity.
  - reflexivity.
  - left. reflexivity.
  - reflexivity.
Defined.

(** C4.  At the end of any redirect chain, a response without redirect
    target whose status is not 200 makes the call fail with the error
    [Got HTTP <code> for <url>], naming the status and the URL last
    requested.  The request is the last thing the call does: no transfer
    state is created and no listener is attached, so whatever events the
    response holds, none is delivered and the sink is neither written to
    nor closed. *)
Theorem unexpected_status_fails {host : Host} url hops res :
  redirect_chain 0 url hops ->
  https_request (final_url url hops) = None ->
  net (List.length hops) (final_url url hops) = Response res ->
  truthy (header "location" (headers res)) = None ->
  statusCode res <> 200%N ->
  exists r,
    (forall fuel, (List.length hops < fuel)%nat ->
       downloadToStream fuel 0 url [] = Some r) /\
    outcome r
    = Failed (Error ("Got HTTP " ++ decimal (statusCode res)
                     ++ " for " ++ final_url url hops)) /\
    transfer r = None /\
    actions r = (chain_actions url hops ++ [Request (final_url url hops)])%list /\
    emitted (actions r) = [] /\
    sink_log (actions r) = [] /\
    requests (actions r) = url :: map snd hops.
Proof.
  intros Hchain Hreq Hnet Hloc Hcode.
  eexists. split; [|split; [|split; [|split; [|split; [|split]]]]].
  - intros fuel Hf.
    replace fuel with (List.length hops + S (fuel - List.length hops - 1))%nat by lia.
    rewrite (chain_followed hops _ 0 url [] Hchain).
    cbn [Nat.add app downloadToStream]. rewrite Hreq, Hnet, Hloc.
    replace (statusCode res =? 200)%N with false
      by (symmetry; apply N.eqb_neq; exact Hcode).
    cbn [negb]. reflexivity.
  - reflexivity.
  - reflexivity.
  - reflexivity.
  - cbn [failed actions]. rewrite emitted_app, chain_emitted. reflexivity.
  - cbn [failed actions]. rewrite sink_log_app, chain_sink. reflexivity.
  - cbn [failed actions]. rewrite requests_app. cbn [requests]. apply chain_requests.
Qed.

(** A resource answered with 404 and a body of nine bytes. *)
Lemma unexpected_status_fails_witness :
  exists r,
    (forall fuel, (0 < fuel)%nat ->
       @downloadToStream missing_host fuel 0 "https://a.example/f" [] = Some r) /\
    outcome r = Failed (Error "Got HTTP 404 for https://a.example/f") /\
    transfer r = None /\
    actions r = [Request "https://a.example/f"] /\
    emitted (actions r) = [] /\
    sink_log (actions r) = [] /\
    requests (actions r) = ["https://a.example/f"].
Proof.
  apply (@unexpected_status_fails missing_host "https://a.example/f" []
           {| statusCode := 404;
              headers := [("content-length", "9")];
              events := [ResData (bytes 9); ResClose] |}).
  - exact I.
  - reflexivity.
  - reflexivity.
  - reflexivity.
  - discriminate.
Defined.

(** C5.  Take a call whose redirect chain, if any, ends at a response with
    status 200.  Whenever the call completes:
    - it is fulfilled exactly when the ["close"] of the sink is the first
      event to settle it, before any ["error"] of the sink and any
      ["aborted"] of the response;
    - every event is delivered, [out.close()] is called once for each
      ["close"] of the response, right after that event is delivered, and at
      no other point: exactly once for a response that closes once;
    - if it is fulfilled, the trace splits at the ["close"] of the sink that
      fulfilled it: nothing delivered before had settled the call, the
      progress line is blanked and, with [verbose] set, the report naming the
      declared total is logged right after that event, and neither happens
      anywhere else; if it is not fulfilled, neither happens at all.
    And the call does complete when the response declares its length. *)
Theorem completion_follows_sink_close {host : Host} url hops res :
  redirect_chain 0 url hops ->
  https_request (final_url url hops) = None ->
  net (List.length hops) (final_url url hops) = Response res ->
  truthy (header "location" (headers res)) = None ->
  statusCode res = 200%N ->
  (forall fuel r,
     downloadToStream (List.length hops + fuel) 0 url [] = Some r ->
     outcome r = verdict (events res) /\
     emitted (actions r) = events res /\
     sink_closes (actions r) = response_closes (events res) /\
     closed_on_close (actions r) /\
     match outcome r with
     | Fulfilled =>
         exists before after,
           actions r
           = (before
              ++ [Emitted OutClose; StdoutWrite blank_line]
              ++ (if verbose
                  then [ConsoleLog
                          (Downloaded (formatSize (totalSize (initial_state res))))]
                  else [])
              ++ after)%list /\
           verdict (emitted before) = Waiting /\
           blanks before = 0%nat /\ reports before = [] /\
           blanks after = 0%nat /\ reports after = []
     | _ => blanks (actions r) = 0%nat /\ reports (actions r) = []
     end) /\
  (forall n,
     totalSize (initial_state res) = of_Z n -> 1 <= n ->
     100 * size (chunks_of (events res)) <= 2 ^ 53 ->
     exists fuel0,
       forall fuel, (fuel0 <= fuel)%nat ->
         exists r, downloadToStream (List.length hops + fuel) 0 url [] = Some r).
Proof.
  intros Hchain Hreq Hnet Hloc Hcode.
  pose proof (chain_resolving hops url) as Hres.
  destruct (resolving_facts _ Hres) as (_ & _ & Ce & _ & _ & Cb & _).
  destruct (resolving_quiet _ Hres) as (Cr & Cs).
  split.
  - intros fuel r E.
    destruct (run_order _ _ _ _ _ E eq_refl
                (conj report_follows_close_nil closed_on_close_nil))
      as (_ & _ & [_ Cl] & _).
    rewrite (chain_followed hops fuel 0 url [] Hchain) in E. cbn [Nat.add app] in E.
    apply (terminal_stream _ _ _ _ _ _ Hreq Hnet Hloc Hcode) in E.
    destruct (stream_facts _ _ _ _ E) as (O & _).
    destruct (stream_completion _ _ _ _ E) as (Em & Sc & Q).
    split; [exact O|]. split; [|split; [|split; [exact Cl|]]].
    + rewrite Em, emitted_app, Ce. reflexivity.
    + rewrite Sc, sink_closes_app, Cs. reflexivity.
    + destruct (outcome r).
      * destruct Q as (l & -> & Bl & Rl).
        rewrite !blanks_app, !reports_app, Cb, Cr, Bl, Rl. split; reflexivity.
      * destruct Q as (before & after & -> & V & Bb & Rb & Ba & Ra).
        exists ((chain_actions url hops ++ [Request (final_url url hops)]) ++ before)%list,
          after.
        unfold report_line. rewrite <- !app_assoc. split; [reflexivity|].
        rewrite !emitted_app, !blanks_app, !reports_app, Ce, Cb, Cr, Bb, Rb.
        repeat split; assumption.
      * destruct Q as (l & -> & Bl & Rl).
        rewrite !blanks_app, !reports_app, Cb, Cr, Bl, Rl. split; reflexivity.
      * destruct Q as (l & -> & Bl & Rl).
        rewrite !blanks_app, !reports_app, Cb, Cr, Bl, Rl. split; reflexivity.
  - intros n Ht Hn Hb.
    exists (Z.to_nat (dotsZ n (size (chunks_of (events res))) / 8) + 16)%nat.
    intros fuel Hf.
    rewrite (chain_followed hops fuel 0 url [] Hchain). cbn [Nat.add app].
    rewrite (terminal_run fuel _ _ _ res Hreq Hnet Hloc Hcode).
    destruct fuel as [|fuel]; [lia|].
    destruct (stream_returns res
                (chain_actions url hops ++ [Request (final_url url hops)]) n
                (S fuel) Ht Hn Hb Hf) as (r & E & _).
    exists r. exact E.
Qed.

(** The scenario of the specification, with [verbose] set: the call is
    fulfilled, the sink was closed once, and the blank line and the report
    come right after the ["close"] of the sink. *)
Lemma completion_follows_sink_close_witness :
  exists r,
    @downloadToStream redirected_host 40 0 "https://a.example/f" [] = Some r /\
    outcome r = Fulfilled /\
    sink_closes (actions r) = 1%nat /\
    closed_on_close (actions r) /\
    exists before after,
      actions r
      = (before
         ++ [Emitted OutClose; StdoutWrite blank_line]
         ++ [ConsoleLog
               (Downloaded
                  (@formatSize redirected_host
                     (totalSize
                        (@initial_state
                           {| statusCode := 200;
                              headers := [("content-length", "2560")];
                              events :=
                                (List.map ResData (List.repeat (bytes 256) 10)
                                   ++ [ResClose; OutClose])%list |}))))]
         ++ after)%list /\
      verdict (emitted before) = Waiting /\
      blanks before = 0%nat /\ reports before = [] /\
      blanks after = 0%nat /\ reports after = [].
Proof.
  eexists. split; [vm_compute; reflexivity|].
  match goal with
  | |- outcome ?R = _ /\ _ =>
      destruct (proj1
                  (@completion_follows_sink_close redirected_host
                     "https://a.example/f"
                     [({| statusCode := 301;
                          headers := [("location", "https://b.example/g")];
                          events := [ResData (bytes 7); ResClose] |},
                       "https://b.example/g")]
                     {| statusCode := 200;
                        headers := [("content-length", "2560")];
                        events :=
                          (List.map ResData (List.repeat (bytes 256) 10)
                             ++ [ResClose; OutClose])%list |}
                     ltac:(cbn [redirect_chain]; repeat split; try reflexivity;
                           discriminate)
                     ltac:(vm_compute; reflexivity) ltac:(vm_compute; reflexivity)
                     ltac:(vm_compute; reflexivity) ltac:(vm_compute; reflexivity))
                  39%nat R ltac:(vm_compute; reflexivity))
        as (O & _ & Sc & Cl & Q)
  end.
  split; [reflexivity|]. split; [vm_compute; reflexivity|]. split; [exact Cl|].
  exact Q.
Defined.

(** C6.  Take a final response with status 200 whose events are the chunks
    [body], then ["aborted"], then events other than ["data"].  If the run
    cut at the abort is waiting, that is, the chunks of [body] have been
    forwarded to the sink and the call is pending, then the whole run ends
    with the call rejected by the error [Request aborted]; at the abort the
    sink had been handed exactly the chunks of [body], and it holds the same
    chunks at the end: nothing is taken back and nothing is added. *)
Theorem abort_keeps_forwarded_bytes {host : Host} fuel k url tr res body rest r0 :
  https_request url = None ->
  net k url = Response res ->
  truthy (header "location" (headers res)) = None ->
  statusCode res = 200%N ->
  events res = (map ResData body ++ ResAborted :: rest)%list ->
  Forall not_data rest ->
  stream (S fuel) (with_events (map ResData body) res) (tr ++ [Request url]) = Some r0 ->
  outcome r0 = Waiting ->
  exists r,
    downloadToStream (S fuel) k url tr = Some r /\
    outcome r = Failed (Error "Request aborted") /\
    sink_writes (actions r0) = (sink_writes tr ++ body)%list /\
    sink_writes (actions r) = sink_writes (actions r0).
Proof.
  intros Hreq Hnet Hloc Hcode Hev Hrest Hcut Hwait.
  cbn [downloadToStream]. rewrite Hreq, Hnet, Hloc, Hcode.
  cbn [N.eqb Pos.eqb negb].
  unfold stream in *.
  change (initial_state (with_events (map ResData body) res))
    with (initial_state res) in Hcut.
  set (h0 := {| state := initial_state res; promise := Pending;
                trace := (tr ++ [Request url])%list |}) in *.
  destruct (showProgress (S fuel) h0) as [[[[] | e] h1]|] eqn:Sp;
    [| injection Hcut as <-; discriminate | discriminate].
  destruct (draws_showProgress _ _ _ _ Sp) as (P1 & _ & _ & _ & ws & W1).
  cbn [h0 promise trace] in P1, W1.
  cbn [with_events events] in Hcut.
  destruct (deliver (S fuel) (map ResData body) Waiting h1) as [[o' h2]|] eqn:D;
    [|discriminate].
  injection Hcut as <-. cbn [outcome actions] in *. subst o'.
  destruct (deliver_data_shape _ _ _ _ _ D P1) as [(_ & P2 & W2) | [e He]];
    [|discriminate].
  rewrite Hev, (deliver_app _ _ _ _ _ _ _ D) by discriminate.
  cbn [deliver]. unfold bind at 1. unfold emit at 1. cbn [listener].
  unfold bind at 1. unfold emit at 1. unfold settle at 1.
  cbn [record promise state trace]. rewrite P2.
  set (h3 := {| state := state h2; promise := Rejected (Error "Request aborted");
                trace := _ |}).
  destruct (deliver_control (S fuel) rest (Failed (Error "Request aborted")) h3 Hrest)
    as (h4 & E4 & W4); [discriminate|].
  rewrite E4. eexists. split; [reflexivity|]. cbn [outcome actions].
  split; [reflexivity|]. split.
  - rewrite W2, W1, !sink_writes_app, sink_writes_stdout. cbn [sink_writes].
    rewrite !app_nil_r. reflexivity.
  - rewrite W4. unfold h3. cbn [trace]. rewrite !sink_writes_app. cbn [sink_writes].
    rewrite !app_nil_r. reflexivity.
Qed.

(** Three chunks of 256 bytes, then the abort. *)
Lemma abort_keeps_forwarded_bytes_witness :
  exists r0 r,
    stream (host := aborting_host) 40
      (aborting_response (map ResData (List.repeat (bytes 256) 3)))
      [Request "https://a.example/f"] = Some r0 /\
    outcome r0 = Waiting /\
    @downloadToStream aborting_host 40 0 "https://a.example/f" [] = Some r /\
    outcome r = Failed (Error "Request aborted") /\
    sink_writes (actions r0) = List.repeat (bytes 256) 3 /\
    sink_writes (actions r) = sink_writes (actions r0).
Proof.
  eexists. 
  assert (Hcut : stream (host := aborting_host) 40
                   (with_events (map ResData (List.repeat (bytes 256) 3))
                      (aborting_response
                         (map ResData (List.repeat (bytes 256) 3)
                          ++ [ResAborted; ResClose; OutClose])%list))
                   ([] ++ [Request "https://a.example/f"])
                 = Some _) by (vm_compute; reflexivity).
  destruct (@abort_keeps_forwarded_bytes aborting_host 39 0 "https://a.example/f" []
              (aborting_response
                 (map ResData (List.repeat (bytes 256) 3)
                  ++ [ResAborted; ResClose; OutClose])%list)
              (List.repeat (bytes 256) 3) [ResClose; OutClose] _
              eq_refl eq_refl eq_refl eq_refl eq_refl
              (Forall_cons ResClose (I : not_data ResClose)
                 (Forall_cons OutClose (I : not_data OutClose) (Forall_nil _)))
              Hcut eq_refl) as (r & E & O & W0 & W).
  exists r. split; [exact Hcut|]. split; [reflexivity|].
  split; [exact E|]. split; [exact O|]. split; [exact W0 | exact W].
Defined.

(** C7, as amended.  While chunks are delivered to a pending transfer and
    their sizes add up to an integer a double holds exactly, [doneSize] is
    the byte count before them plus the sum of their sizes: it never
    decreases, the total is left as it is, and nothing keeps [doneSize] at
    or below a known total; it exceeds the total exactly when the sizes
    received do. *)
Theorem doneSize_is_sum_of_chunks {host : Host} fuel body h h' d :
  deliver fuel (map ResData body) Waiting h = Some (Waiting, h') ->
  promise h = Pending ->
  doneSize (state h) = of_Z d -> 0 <= d -> d + size body <= 2 ^ 53 ->
  doneSize (state h') = of_Z (d + size body) /\
  lt (doneSize (state h')) (doneSize (state h)) = false /\
  totalSize (state h') = totalSize (state h) /\
  (forall n, 0 <= n <= 2 ^ 53 -> totalSize (state h) = of_Z n ->
     lt (totalSize (state h')) (doneSize (state h')) = (n <? d + size body)%Z).
Proof.
  intros E Hp Hd H0 Hb. pose proof (size_nonneg body) as Hsz.
  destruct (deliver_data_doneSize _ _ _ _ _ E Hp Hd H0 Hb) as [R1 R2].
  split; [exact R1|]. split; [|split; [exact R2|]].
  - rewrite R1, Hd, lt_int by lia. apply Z.ltb_ge. lia.
  - intros n Hn Ht. rewrite R2, R1, Ht. apply lt_int; lia.
Qed.

(** One byte declared, a chunk of two bytes received. *)
Lemma doneSize_is_sum_of_chunks_witness :
  let h := {| state := progress_state 1 0; promise := Pending; trace := [] |} in
  exists h',
    deliver (host := oversized_host) 60 (map ResData [bytes 2]) Waiting h
    = Some (Waiting, h') /\
    doneSize (state h') = of_Z 2 /\
    lt (doneSize (state h')) (doneSize (state h)) = false /\
    totalSize (state h') = totalSize (state h) /\
    (forall n, 0 <= n <= 2 ^ 53 -> totalSize (state h) = of_Z n ->
       lt (totalSize (state h')) (doneSize (state h')) = (n <? 0 + size [bytes 2])%Z).
Proof.
  intros h. eexists. split; [vm_compute; reflexivity|].
  apply (@doneSize_is_sum_of_chunks oversized_host 60 [bytes 2] h _ 0).
  - vm_compute. reflexivity.
  - reflexivity.
  - reflexivity.
  - lia.
  - vm_compute. discriminate.
Defined.

(** C7 as stated fails: a response that declares one byte and delivers two
    leaves [doneSize] at 2, above the total of 1. *)
Lemma doneSize_bound_counterexample :
  exists r st,
    @downloadToStream oversized_host 60 0 "https://a.example/f" [] = Some r /\
    transfer r = Some st /\
    totalSize st = of_Z 1 /\ doneSize st = of_Z 2 /\
    lt (totalSize st) (doneSize st) = true.
Proof.
  eexists. eexists. split; [vm_compute; reflexivity|].
  split; [reflexivity|]. repeat split; vm_compute; reflexivity.
Qed.

(** C9, as amended.  A URL that parses with the protocol [https:] is
    accepted and the GET request is sent to it: the call acts on what the
    network answers to that request, and whatever the answer, the request
    is the first thing it has done.  An ["error"] of the request is logged
    and rejects the call; a response with another status than 200 and no
    redirect target rejects it; a response with status 200 is copied to the
    sink, and the call completes when the length is declared; a redirect is
    followed by the call on its target, or rejects the call when the target
    does not parse.  A URL that parses with any other protocol, [http:]
    included, makes the call fail with [ERR_INVALID_PROTOCOL] before any
    request is sent. *)
Theorem https_accepted_http_refused {host : Host} fuel url u :
  URL_parse url = Some u ->
  (protocol u = "https:" ->
   https_request url = None /\
   (forall r, downloadToStream fuel 0 url [] = Some r ->
              exists rest, actions r = Request url :: rest) /\
   (forall e,
      net 0 url = ReqError e ->
      downloadToStream (S fuel) 0 url []
      = Some (failed e [Request url; ConsoleLog (GotError e)])) /\
   (forall res,
      net 0 url = Response res ->
      truthy (header "location" (headers res)) = None ->
      statusCode res <> 200%N ->
      downloadToStream (S fuel) 0 url []
      = Some (failed (Error ("Got HTTP " ++ decimal (statusCode res)
                             ++ " for " ++ url)) [Request url])) /\
   (forall res,
      net 0 url = Response res ->
      truthy (header "location" (headers res)) = None ->
      statusCode res = 200%N ->
      downloadToStream (S fuel) 0 url [] = stream (S fuel) res [Request url] /\
      forall n,
        totalSize (initial_state res) = of_Z n -> 1 <= n ->
        100 * size (chunks_of (events res)) <= 2 ^ 53 ->
        exists fuel0,
          forall fuel', (fuel0 <= fuel')%nat ->
            exists r rest,
              downloadToStream fuel' 0 url [] = Some r /\
              outcome r = verdict (events res) /\
              actions r = Request url :: rest) /\
   (forall res next,
      net 0 url = Response res ->
      truthy (header "location" (headers res)) = Some next ->
      match URL_parse next with
      | None =>
          downloadToStream (S fuel) 0 url []
          = Some (failed (TypeError "ERR_INVALID_URL") [Request url])
      | Some target =>
          downloadToStream (S fuel) 0 url []
          = downloadToStream fuel 1 next
              (Request url
               :: (if verbose
                   then [ConsoleLog (RedirectedTo (hostname target))] else [])
               ++ [Destroy])%list
      end)) /\
  (protocol u <> "https:" ->
   downloadToStream (S fuel) 0 url []
   = Some {| outcome := Failed (TypeError "ERR_INVALID_PROTOCOL");
             transfer := None; actions := [] |}).
Proof.
  intros Hu. split.
  - intros Hp.
    assert (Hreq : https_request url = None).
    { unfold https_request. rewrite Hu, Hp. reflexivity. }
    split; [exact Hreq|]. split; [|split; [|split; [|split]]].
    + intros r E.
      destruct (run_order _ _ _ _ _ E eq_refl
                  (conj report_follows_close_nil closed_on_close_nil))
        as (_ & _ & _ & l & T & F).
      destruct (F Hreq) as [rest ->]. exists rest. exact T.
    + intros e Hnet. cbn [downloadToStream]. rewrite Hreq, Hnet. reflexivity.
    + intros res Hnet Hloc Hcode. cbn [downloadToStream].
      rewrite Hreq, Hnet, Hloc.
      replace (statusCode res =? 200)%N with false
        by (symmetry; apply N.eqb_neq; exact Hcode).
      reflexivity.
    + intros res Hnet Hloc Hcode. split.
      * rewrite (terminal_run (S fuel) 0 url [] res Hreq Hnet Hloc Hcode).
        reflexivity.
      * intros n Ht Hn Hb.
        exists (Z.to_nat (dotsZ n (size (chunks_of (events res))) / 8) + 16)%nat.
        intros fuel' Hf.
        rewrite (terminal_run fuel' 0 url [] res Hreq Hnet Hloc Hcode).
        destruct fuel' as [|fuel']; [lia|].
        destruct (stream_returns res ([] ++ [Request url]) n (S fuel') Ht Hn Hb Hf)
          as (r & E & _).
        destruct (stream_facts _ _ _ _ E) as (O & _).
        destruct (stream_extends _ _ _ _ E) as (rest & A).
        exists r, rest. split; [exact E|]. split; [exact O | exact A].
    + intros res next Hnet Hloc. cbn [downloadToStream].
      rewrite Hreq, Hnet, Hloc.
      destruct (URL_parse next) as [target|]; [|reflexivity].
      destruct verbose; reflexivity.
  - intros Hp. cbn [downloadToStream]. unfold https_request. rewrite Hu.
    replace (protocol u =? "https:")%string with false; [reflexivity|].
    symmetry. apply String.eqb_neq. exact Hp.
Qed.

(** An [https] URL on three networks: the scenario of the specification, a
    resource answered with 404, and no network at all.  The request is sent
    on each. *)
Lemma https_accepted_http_refused_witness :
  (@https_request redirected_host "https://a.example/f" = None /\
   exists r rest,
     @downloadToStream redirected_host 40 0 "https://a.example/f" [] = Some r /\
     actions r = Request "https://a.example/f" :: rest) /\
  @downloadToStream missing_host 5 0 "https://a.example/f" []
  = Some (failed (Error "Got HTTP 404 for https://a.example/f")
            [Request "https://a.example/f"]) /\
  @downloadToStream offline_host 5 0 "https://a.example/f" []
  = Some (failed (SystemError "ENOTFOUND")
            [Request "https://a.example/f";
             ConsoleLog (GotError (SystemError "ENOTFOUND"))]).
Proof.
  pose (u := {| protocol := "https:"; hostname := "a.example" |}).
  split; [|split].
  - destruct (proj1 (@https_accepted_http_refused redirected_host 40
                       "https://a.example/f" u eq_refl) eq_refl)
      as (A & B & _).
    split; [exact A|].
    eexists. 
    match goal with
    | |- exists rest, ?E = Some ?R /\ _ =>
        assert (Run : E = Some R) by (vm_compute; reflexivity)
    end.
    destruct (B _ Run) as [rest T]. exists rest. split; [exact Run | exact T].
  - destruct (proj1 (@https_accepted_http_refused missing_host 4
                       "https://a.example/f" u eq_refl) eq_refl)
      as (_ & _ & _ & C & _).
    exact (C {| statusCode := 404; headers := [("content-length", "9")];
                events := [ResData (bytes 9); ResClose] |}
             eq_refl eq_refl ltac:(discriminate)).
  - destruct (proj1 (@https_accepted_http_refused offline_host 4
                       "https://a.example/f" u eq_refl) eq_refl)
      as (_ & _ & C & _).
    exact (C (SystemError "ENOTFOUND") eq_refl).
Defined.

(** C9 as stated fails: for a well-formed [http] URL no request is sent; the
    call is rejected with [ERR_INVALID_PROTOCOL]. *)
Lemma http_url_counterexample :
  simple_URL "http://a.example/f"
  = Some {| protocol := "http:"; hostname := "a.example" |} /\
  forall fuel,
    @downloadToStream plain_host (S fuel) 0 "http://a.example/f" []
    = Some {| outcome := Failed (TypeError "ERR_INVALID_PROTOCOL");
              transfer := None; actions := [] |}.
Proof. split; [reflexivity | intros fuel; reflexivity]. Qed.

(** C10, evaluated on the code.  When the declared total is [NaN], the
    target unit count of line 284 is [NaN] for every chunk; the condition of
    the loop of lines 287-290 then holds in every state, also right after a
    pass has stored the target, so the loop does not terminate: for no
    amount of fuel does [onData] return. *)
Theorem progress_loop_spins_on_NaN {host : Host} fuel (data : Buffer) h :
  totalSize (state h) = NaN ->
  let target :=
    floor (mul (div (add (doneSize (state h)) (of_nat (List.length data)))
                  (totalSize (state h)))
             (totalDots (state h))) in
  target = NaN /\
  (forall s, dots_cond target tt s = true) /\
  onData fuel data h = None.
Proof.
  intros Ht target.
  assert (E : target = NaN).
  { unfold target. rewrite Ht, div_NaN_r. reflexivity. }
  split; [exact E|]. split.
  - intros s. rewrite E. unfold dots_cond, neq. rewrite eq_NaN_r. reflexivity.
  - apply onData_NaN. exact Ht.
Qed.

(** The state created for a response without [content-length]. *)
Lemma progress_loop_spins_on_NaN_witness :
  let h := {| state := @initial_state
                         {| statusCode := 200; headers := []; events := [] |};
              promise := Pending; trace := [] |} in
  floor (mul (div (add (doneSize (state h)) (of_nat (List.length (bytes 1))))
                (totalSize (state h)))
           (totalDots (state h))) = NaN /\
  (forall s, dots_cond NaN tt s = true) /\
  onData (host := chunked_host) 1000 (bytes 1) h = None.
Proof.
  intros h.
  apply (@progress_loop_spins_on_NaN chunked_host 1000 (bytes 1) h).
  reflexivity.
Defined.

(** C2.  On a transfer that declared a total of [n] bytes, a known total
    being one from 1 to [2^53], up to which doubles count bytes exactly: for
    every sequence of chunks whose sizes add up to [n], every chunk is
    processed, the unit count left in [state.currentDots] after each chunk
    never decreases, starting from 0, and after the last chunk it is 100. *)
Theorem dots_nondecreasing_and_full {host : Host} res h n body :
  state h = initial_state res ->
  totalSize (initial_state res) = of_Z n ->
  1 <= n <= 2 ^ 53 ->
  size body = n ->
  exists zs,
    (forall fuel, (28 <= fuel)%nat ->
       dots_after fuel body h = Some (map of_Z zs)) /\
    Sorted Z.le (0 :: zs) /\
    last zs 0 = 100.
Proof.
  intros Hs Ht Hn Hb.
  assert (Hs0 : state h = progress_state n 0).
  { rewrite Hs. unfold progress_state. rewrite <- Ht, dotsZ_zero by lia. reflexivity. }
  exists (dots_list n 0 body). split; [|split].
  - intros fuel Hf. apply (dots_after_progress n body h 0); try assumption; try lia.
    rewrite Z.add_0_l, Hb, dotsZ_full by lia. change (100 / 8) with 12. lia.
  - replace (0 :: dots_list n 0 body) with (dotsZ n 0 :: dots_list n 0 body)
      by (rewrite dotsZ_zero by lia; reflexivity).
    apply dots_list_sorted; lia.
  - replace (last (dots_list n 0 body) 0)
      with (last (dots_list n 0 body) (dotsZ n 0))
      by (rewrite dotsZ_zero by lia; reflexivity).
    rewrite dots_list_last, Z.add_0_l, Hb. apply dotsZ_full. lia.
Qed.

(** 2560 bytes declared, ten chunks of 256. *)
Lemma dots_nondecreasing_and_full_witness :
  let res := {| statusCode := 200; headers := [("content-length", "2560")];
                events := [] |} in
  let h := {| state := @initial_state res; promise := Pending; trace := [] |} in
  exists zs,
    (forall fuel, (28 <= fuel)%nat ->
       dots_after (host := redirected_host) fuel (List.repeat (bytes 256) 10) h
       = Some (map of_Z zs)) /\
    Sorted Z.le (0 :: zs) /\
    last zs 0 = 100.
Proof.
  intros res h.
  apply (@dots_nondecreasing_and_full redirected_host res h 2560
           (List.repeat (bytes 256) 10)).
  - reflexivity.
  - vm_compute. reflexivity.
  - lia.
  - vm_compute. reflexivity.
Defined.

(** The cells of the bar for every unit count up to 100, by enumeration. *)
Lemma bar_cells u :
  0 <= u <= 100 ->
  List.length (bar 13 u) = 13%nat /\
  Forall (fun g => In g (chunks theme) /\ (glyph_units g <= 8)%nat) (bar 13 u) /\
  list_sum (map glyph_units (bar 13 u)) = Z.to_nat u.
Proof.
  intros Hu.
  assert (H : forallb
                (fun k =>
                   let cells := bar 13 (Z.of_nat k) in
                   (List.length cells =? 13)%nat
                   && forallb (fun g => existsb (String.eqb g) (chunks theme)
                                        && (glyph_units g <=? 8)%nat) cells
                   && (list_sum (map glyph_units cells) =? k)%nat)
                (seq 0 101) = true) by (vm_compute; reflexivity).
  rewrite forallb_forall in H.
  specialize (H (Z.to_nat u)). rewrite Z2Nat.id in H by lia.
  assert (Hin : In (Z.to_nat u) (seq 0 101)) by (apply in_seq; lia).
  specialize (H Hin). cbv zeta in H.
  apply andb_prop in H. destruct H as [H H3].
  apply andb_prop in H. destruct H as [H1 H2].
  split; [apply Nat.eqb_eq; exact H1|]. split; [|apply Nat.eqb_eq; exact H3].
  apply Forall_forall. intros g Hg.
  rewrite forallb_forall in H2. specialize (H2 g Hg).
  apply andb_prop in H2. destruct H2 as [H2 H2'].
  split; [|apply Nat.leb_le; exact H2'].
  apply existsb_exists in H2. destruct H2 as (x & Hx & Ex).
  apply String.eqb_eq in Ex. subst x. exact Hx.
Qed.

(** C8.  With a unit budget of 100, for every unit count [u] from 0 to 100
    [showProgress] writes the start marker, then exactly
    [ceil(100 / 8) = 13] cells, then the end marker with the suffix.  Each
    cell is one of the 9 glyphs of [theme.chunks] and stands for as many
    sub-units as its index there, from 0 to 8; the sub-units of the 13
    cells add up to [u]. *)
Theorem bar_has_13_cells {host : Host} fuel h u :
  currentDots (state h) = of_Z u ->
  totalDots (state h) = of_Z 100 ->
  0 <= u <= 100 ->
  (28 <= fuel)%nat ->
  ceil (div (totalDots (state h)) (of_Z 8)) = of_Z 13 /\
  List.length (chunks theme) = 9%nat /\
  exists cells,
    showProgress fuel h
    = Some (Normal tt,
            record (StdoutWrite (CR ++ start theme)
                    :: map StdoutWrite cells
                    ++ [StdoutWrite (end_ theme ++ " " ++ suffix_of (state h))])%list
              h) /\
    List.length cells = 13%nat /\
    Forall (fun g => In g (chunks theme) /\ (glyph_units g <= 8)%nat) cells /\
    list_sum (map glyph_units cells) = Z.to_nat u.
Proof.
  intros Hc Ht Hu Hf.
  split; [rewrite Ht; apply width_13|]. split; [reflexivity|].
  exists (bar 13 u). split; [|apply bar_cells; exact Hu].
  apply showProgress_int; try assumption; try lia.
  assert (u / 8 <= 100 / 8) by (apply Z.div_le_mono; lia).
  change (100 / 8) with 12 in *. lia.
Qed.

(** The bar at 30 units. *)
Lemma bar_has_13_cells_witness :
  let h := {| state := progress_state 2560 768; promise := Pending; trace := [] |} in
  ceil (div (totalDots (state h)) (of_Z 8)) = of_Z 13 /\
  List.length (chunks theme) = 9%nat /\
  exists cells,
    showProgress (host := redirected_host) 28 h
    = Some (Normal tt,
            record (StdoutWrite (CR ++ start theme)
                    :: map StdoutWrite cells
                    ++ [StdoutWrite (end_ theme ++ " " ++ suffix_of (host := redirected_host) (state h))])%list
              h) /\
    List.length cells = 13%nat /\
    Forall (fun g => In g (chunks theme) /\ (glyph_units g <= 8)%nat) cells /\
    list_sum (map glyph_units cells) = Z.to_nat 30.
Proof.
  intros h.
  apply (@bar_has_13_cells redirected_host 28 h 30).
  - vm_compute. reflexivity.
  - reflexivity.
  - lia.
  - lia.
Defined.

End Claims.

(** ** Further properties of [downloadToStream] *)

Module DownloadProperties.

Import Binary64 Binary64Facts JsNum JsNumFacts DotsFacts Download ProgressFacts.
Import ShapeFacts TraceFacts TransferFacts HangFacts OrderFacts Format Runs RunFacts.
Import FormatFacts.
Local Open Scope Z_scope.
Local Open Scope string_scope.

(** X1.  The first settlement decides.  In every completed call on a URL that
    is answered with status 200 and no redirect target, the outcome is read
    off the events delivered: the call is fulfilled, or rejected, by the first
    of the sink's ["close"], the sink's ["error"] and the response's
    ["aborted"], and nothing that comes later changes it; with none of them
    the call is still waiting.  Every ["error"] of the sink and every
    ["aborted"] is warned about, settled or not, in the order delivered. *)
Theorem first_settlement_decides {host : Host} fuel k url tr res r :
  https_request url = None ->
  net k url = Response res ->
  truthy (header "location" (headers res)) = None ->
  statusCode res = 200%N ->
  downloadToStream fuel k url tr = Some r ->
  outcome r = verdict (events res) /\
  console_warns (actions r) = (console_warns tr ++ warnings (events res))%list.
Proof.
  intros Hreq Hnet Hloc Hcode E.
  apply (terminal_stream _ _ _ _ _ _ Hreq Hnet Hloc Hcode) in E.
  destruct (stream_facts _ _ _ _ E) as (O & _ & _ & W & _).
  rewrite W, console_warns_app. cbn [console_warns]. rewrite app_nil_r.
  split; [exact O | reflexivity].
Qed.

(** A sink that fails after two chunks: the call is rejected with the error
    of the sink, although the sink's ["close"] follows. *)
Lemma first_settlement_decides_witness :
  exists r,
    @downloadToStream failing_sink_host 40 0 "https://a.example/f" [] = Some r /\
    outcome r = Failed (SystemError "ENOSPC") /\
    console_warns (actions r) = [IOError (SystemError "ENOSPC")].
Proof.
  eexists. split; [vm_compute; reflexivity|].
  apply (@first_settlement_decides failing_sink_host 40 0 "https://a.example/f" []
           {| statusCode := 200; headers := [("content-length", "2560")];
              events := [ResData (bytes 256); ResData (bytes 256);
                         OutError (SystemError "ENOSPC");
                         ResData (bytes 256); ResClose; OutClose] |} _
           eq_refl eq_refl eq_refl eq_refl).
  vm_compute. reflexivity.
Defined.

(** X2.  Every chunk reaches the sink.  In every completed call on a URL that
    is answered with status 200 and no redirect target, each chunk delivered
    is handed to [out.write] before the next one is delivered, unchanged and
    once, so the sink is handed exactly the chunks of the response in the
    order received.  This holds whatever the outcome: the listeners stay
    attached, and a chunk that arrives after the call was rejected is written
    like any other. *)
Theorem every_chunk_reaches_sink {host : Host} fuel k url tr res r :
  https_request url = None ->
  net k url = Response res ->
  truthy (header "location" (headers res)) = None ->
  statusCode res = 200%N ->
  downloadToStream fuel k url tr = Some r ->
  flow (actions r) = (flow tr ++ forwarded (events res))%list /\
  sink_writes (actions r) = (sink_writes tr ++ chunks_of (events res))%list.
Proof.
  intros Hreq Hnet Hloc Hcode E.
  apply (terminal_stream _ _ _ _ _ _ Hreq Hnet Hloc Hcode) in E.
  destruct (stream_facts _ _ _ _ E) as (_ & _ & F & _).
  rewrite flow_app in F. cbn [flow filter in_flow] in F. rewrite app_nil_r in F.
  split; [exact F|].
  rewrite <- (sink_writes_flow (actions r)), F, sink_writes_app,
    sink_writes_flow, sink_writes_forwarded.
  reflexivity.
Qed.

(** The sink that fails after two chunks is still handed the third. *)
Lemma every_chunk_reaches_sink_witness :
  exists r,
    @downloadToStream failing_sink_host 40 0 "https://a.example/f" [] = Some r /\
    flow (actions r)
    = [Emitted (ResData (bytes 256)); SinkWrite (bytes 256);
       Emitted (ResData (bytes 256)); SinkWrite (bytes 256);
       Emitted (ResData (bytes 256)); SinkWrite (bytes 256)] /\
    sink_writes (actions r) = [bytes 256; bytes 256; bytes 256].
Proof.
  eexists. split; [vm_compute; reflexivity|].
  apply (@every_chunk_reaches_sink failing_sink_host 40 0 "https://a.example/f" []
           {| statusCode := 200; headers := [("content-length", "2560")];
              events := [ResData (bytes 256); ResData (bytes 256);
                         OutError (SystemError "ENOSPC");
                         ResData (bytes 256); ResClose; OutClose] |} _
           eq_refl eq_refl eq_refl eq_refl).
  vm_compute. reflexivity.
Defined.

(** X3.  The progress line is cleared on success only.  In every completed
    call on a URL that is answered with status 200 and no redirect target, the
    blanking write of line 312 happens once when the call is fulfilled and not
    at all otherwise: after a rejection the last bar drawn stays on the
    terminal. *)
Theorem line_cleared_on_success_only {host : Host} fuel k url tr res r :
  https_request url = None ->
  net k url = Response res ->
  truthy (header "location" (headers res)) = None ->
  statusCode res = 200%N ->
  downloadToStream fuel k url tr = Some r ->
  blanks (actions r)
  = (blanks tr + match outcome r with Fulfilled => 1 | _ => 0 end)%nat.
Proof.
  intros Hreq Hnet Hloc Hcode E.
  apply (terminal_stream _ _ _ _ _ _ Hreq Hnet Hloc Hcode) in E.
  destruct (stream_facts _ _ _ _ E) as (_ & _ & _ & _ & B & _).
  rewrite B, blanks_app. cbn [blanks]. lia.
Qed.

(** The aborted transfer leaves its line; the completed one clears it. *)
Lemma line_cleared_on_success_only_witness :
  (exists r,
     @downloadToStream aborting_host 40 0 "https://a.example/f" [] = Some r /\
     blanks (actions r) = 0%nat) /\
  (exists r,
     @downloadToStream redirected_host 40 1 "https://b.example/g" [] = Some r /\
     blanks (actions r) = 1%nat).
Proof.
  split.
  - eexists. split; [vm_compute; reflexivity|].
    match goal with
    | |- blanks (actions ?R) = _ =>
        exact (@line_cleared_on_success_only aborting_host 40 0 "https://a.example/f" []
                 (aborting_response
                    (map ResData (List.repeat (bytes 256) 3)
                     ++ [ResAborted; ResClose; OutClose])%list) R
                 eq_refl eq_refl eq_refl eq_refl ltac:(vm_compute; reflexivity))
    end.
  - eexists. split; [vm_compute; reflexivity|].
    match goal with
    | |- blanks (actions ?R) = _ =>
        exact (@line_cleared_on_success_only redirected_host 40 1 "https://b.example/g" []
                 {| statusCode := 200; headers := [("content-length", "2560")];
                    events := (map ResData (List.repeat (bytes 256) 10)
                               ++ [ResClose; OutClose])%list |} R
                 eq_refl eq_refl eq_refl eq_refl ltac:(vm_compute; reflexivity))
    end.
Defined.

(** X4.  The report names the declared total.  In every completed call on a
    URL that is answered with status 200 and no redirect target, the report of
    line 323 is logged when the call is fulfilled and [verbose] is set, once,
    and the size it names is that of the [content-length] header as [parseInt]
    read it, whatever number of bytes was received.  The other lines logged
    after the request are those of line 217: one [Got error] line for every
    ["error"] the request emits during the transfer, in order, whether or not
    [verbose] is set and however the call ends. *)
Theorem report_names_declared_total {host : Host} fuel k url tr res r :
  https_request url = None ->
  net k url = Response res ->
  truthy (header "location" (headers res)) = None ->
  statusCode res = 200%N ->
  downloadToStream fuel k url tr = Some r ->
  debug_lines (actions r)
  = (debug_lines tr
     ++ match outcome r with
        | Fulfilled =>
            if verbose
            then [Downloaded (formatSize (totalSize (initial_state res)))] else []
        | _ => []
        end)%list /\
  got_errors (actions r) = (got_errors tr ++ request_errors (events res))%list.
Proof.
  intros Hreq Hnet Hloc Hcode E.
  apply (terminal_stream _ _ _ _ _ _ Hreq Hnet Hloc Hcode) in E.
  destruct (stream_facts _ _ _ _ E) as (_ & _ & _ & _ & _ & L & G).
  rewrite L, G, debug_lines_app, got_errors_app.
  cbn [debug_lines got_errors]. rewrite !app_nil_r. split; reflexivity.
Qed.

(** One byte declared, two received: the report says [1 B].  A connection
    reset during the transfer: [Got error] is logged with [verbose] unset,
    and the call is rejected by the abort. *)
Lemma report_names_declared_total_witness :
  (exists r,
     @downloadToStream overfull_host 60 0 "https://a.example/f" [] = Some r /\
     sink_writes (actions r) = [bytes 2] /\
     console_logs (actions r) = [Downloaded "1 B"] /\
     debug_lines (actions r) = [Downloaded "1 B"] /\
     got_errors (actions r) = []) /\
  (exists r,
     @downloadToStream reset_host 60 0 "https://a.example/f" [] = Some r /\
     outcome r = Failed (Error "Request aborted") /\
     console_logs (actions r) = [GotError (SystemError "ECONNRESET")] /\
     debug_lines (actions r) = [] /\
     got_errors (actions r) = [SystemError "ECONNRESET"]).
Proof.
  split.
  - eexists. split; [vm_compute; reflexivity|].
    split; [vm_compute; reflexivity|]. split; [vm_compute; reflexivity|].
    match goal with
    | |- debug_lines (actions ?R) = _ /\ _ =>
        exact (@report_names_declared_total overfull_host 60 0 "https://a.example/f" []
                 {| statusCode := 200; headers := [("content-length", "1")];
                    events := [ResData (bytes 2); ResClose; OutClose] |} R
                 eq_refl eq_refl eq_refl eq_refl ltac:(vm_compute; reflexivity))
    end.
  - eexists. split; [vm_compute; reflexivity|].
    split; [vm_compute; reflexivity|]. split; [vm_compute; reflexivity|].
    match goal with
    | |- debug_lines (actions ?R) = _ /\ _ =>
        exact (@report_names_declared_total reset_host 60 0 "https://a.example/f" []
                 {| statusCode := 200; headers := [("content-length", "512")];
                    events := [ResData (bytes 256);
                               ReqFailed (SystemError "ECONNRESET");
                               ResAborted; ResClose; OutClose] |} R
                 eq_refl eq_refl eq_refl eq_refl ltac:(vm_compute; reflexivity))
    end.
Defined.

(** X5.  No listener throws.  For every unit count that is [NaN], an
    infinity or a whole number, [showProgress] reads [theme.chunks] within
    its bounds, so [process.stdout.write] is never handed [undefined]; the
    count of line 284 is always such a number, so [onData] does not throw,
    whatever the state; and no completed call ends in an exception escaped
    from a listener. *)
Theorem no_listener_throws {host : Host} fuel :
  (forall h, whole (currentDots (state h)) -> does_not_throw (showProgress fuel) h) /\
  (forall (data : Buffer) h, does_not_throw (onData fuel data) h) /\
  (forall k url tr r,
     downloadToStream fuel k url tr = Some r ->
     match outcome r with Crashed _ => False | _ => True end).
Proof.
  split; [exact (showProgress_safe fuel)|].
  split; [exact (onData_safe fuel)|].
  intros k url tr r E.
  destruct (run_shape _ _ _ _ _ E) as (l & _ & [(_ & e & O & _) | (f & res & S)]).
  - rewrite O. exact I.
  - destruct (stream_facts _ _ _ _ S) as (O & _).
    pose proof (verdict_not_crashed (events res)) as V.
    rewrite O. destruct (verdict (events res)); try exact I.
    exact (V _ eq_refl).
Qed.

(** The transfer with a sink that fails. *)
Lemma no_listener_throws_witness :
  match
    match @downloadToStream failing_sink_host 40 0 "https://a.example/f" [] with
    | Some r => outcome r
    | None => Waiting
    end
  with Crashed _ => False | _ => True end.
Proof.
  assert (E : exists r, @downloadToStream failing_sink_host 40 0 "https://a.example/f" []
                        = Some r) by (eexists; vm_compute; reflexivity).
  destruct E as (r & E). rewrite E.
  exact (proj2 (proj2 (@no_listener_throws failing_sink_host 40))
           0%nat "https://a.example/f" [] r E).
Defined.

(** X6.  A declared total carries the call through.  On a URL that is answered
    with status 200, no redirect target and a [content-length] that reads as
    an integer [n >= 1], the call takes every list of events whose chunks hold
    at most 2^53/100 bytes to its end: with enough fuel it yields a result,
    the outcome the events decide, and a byte count that is the sum of the
    sizes of all the chunks. *)
Theorem declared_transfer_returns {host : Host} k url tr res n :
  https_request url = None ->
  net k url = Response res ->
  truthy (header "location" (headers res)) = None ->
  statusCode res = 200%N ->
  totalSize (initial_state res) = of_Z n -> 1 <= n ->
  100 * size (chunks_of (events res)) <= 2 ^ 53 ->
  exists fuel0,
    forall fuel, (fuel0 <= fuel)%nat ->
      exists r,
        downloadToStream fuel k url tr = Some r /\
        outcome r = verdict (events res) /\
        transfer r = Some (progress_state n (size (chunks_of (events res)))).
Proof.
  intros Hreq Hnet Hloc Hcode Ht Hn Hb.
  exists (Z.to_nat (dotsZ n (size (chunks_of (events res))) / 8) + 16)%nat.
  intros fuel Hf.
  rewrite (terminal_run fuel k url tr res Hreq Hnet Hloc Hcode).
  destruct fuel as [|fuel]; [lia|].
  destruct (stream_returns res (tr ++ [Request url]) n (S fuel) Ht Hn Hb Hf)
    as (r & E & T).
  exists r. split; [exact E|].
  destruct (stream_facts _ _ _ _ E) as (O & _). split; [exact O | exact T].
Qed.

(** The transfer of 2560 declared bytes whose sink fails after two chunks,
    a third chunk still arriving. *)
Lemma declared_transfer_returns_witness :
  exists fuel0,
    forall fuel, (fuel0 <= fuel)%nat ->
      exists r,
        @downloadToStream failing_sink_host fuel 0 "https://a.example/f" [] = Some r /\
        outcome r = Failed (SystemError "ENOSPC") /\
        transfer r = Some (progress_state 2560 768).
Proof.
  exact (@declared_transfer_returns failing_sink_host 0 "https://a.example/f" []
           {| statusCode := 200; headers := [("content-length", "2560")];
              events := [ResData (bytes 256); ResData (bytes 256);
                         OutError (SystemError "ENOSPC");
                         ResData (bytes 256); ResClose; OutClose] |} 2560
           eq_refl eq_refl eq_refl eq_refl
           ltac:(vm_compute; reflexivity) ltac:(lia)
           ltac:(vm_compute; discriminate)).
Defined.

(** X7.  A declared total of zero stops the call at the first chunk.  On a URL
    that is answered with status 200, no redirect target and a
    [content-length] that reads as 0, the first chunk delivered never leaves
    [onData]: the unit count of line 284 is [NaN] for an empty chunk and
    [Infinity] for any other, and neither lets the loops of lines 261-270 and
    287-290 end.  Whatever the fuel, the call yields no result. *)
Theorem zero_length_with_data_hangs {host : Host} fuel k url tr res data rest :
  https_request url = None ->
  net k url = Response res ->
  truthy (header "location" (headers res)) = None ->
  statusCode res = 200%N ->
  totalSize (initial_state res) = of_Z 0 ->
  events res = ResData data :: rest ->
  downloadToStream fuel k url tr = None.
Proof.
  intros Hreq Hnet Hloc Hcode Ht Hev.
  rewrite (terminal_run fuel k url tr res Hreq Hnet Hloc Hcode).
  destruct fuel as [|fuel]; [reflexivity|].
  unfold stream.
  set (h0 := {| state := initial_state res; promise := Pending;
                trace := (tr ++ [Request url])%list |}).
  destruct (showProgress (S fuel) h0) as [[[[] | e] h1]|] eqn:Sp; [| |reflexivity].
  - pose proof (still_showProgress _ _ _ _ Sp) as S1.
    rewrite Hev. cbn [deliver]. unfold bind at 1. unfold emit at 1. cbn [listener].
    rewrite onData_zero; [reflexivity | | | |];
      cbn [record state]; rewrite S1; cbn [h0 state]; try reflexivity.
    exact Ht.
  - pose proof (showProgress_safe (S fuel) h0 whole_zero) as S0.
    unfold does_not_throw in S0. rewrite Sp in S0. destruct S0.
Qed.

(** Zero bytes declared, one delivered. *)
Lemma zero_length_with_data_hangs_witness :
  @downloadToStream zero_host 1000 0 "https://a.example/f" [] = None.
Proof.
  exact (@zero_length_with_data_hangs zero_host 1000 0 "https://a.example/f" []
           {| statusCode := 200; headers := [("content-length", "0")];
              events := [ResData (bytes 1); ResClose; OutClose] |}
           (bytes 1) [ResClose; OutClose]
           eq_refl eq_refl eq_refl eq_refl eq_refl eq_refl).
Defined.

(** X8.  A redirect cycle is followed for ever.  When every URL of a set is
    accepted by [https.request] and answered by a redirect whose target parses
    and lies in the set again, a call on one of them yields no result,
    whatever the fuel: nothing counts the hops or remembers the URLs visited. *)
Theorem redirect_cycle_never_returns {host : Host} (P : string -> Prop) :
  cycling P ->
  forall fuel k url tr, P url -> downloadToStream fuel k url tr = None.
Proof.
  intros Hc. induction fuel as [|fuel IH]; intros k url tr Hu; [reflexivity|].
  destruct (Hc k url Hu) as (Hreq & res & next & Hnet & Hloc & Hp & Hn).
  cbn [downloadToStream]. rewrite Hreq, Hnet, Hloc.
  destruct (URL_parse next); [|destruct (Hp eq_refl)].
  apply IH. exact Hn.
Qed.

(** Two URLs that redirect to each other. *)
Lemma redirect_cycle_never_returns_witness :
  @downloadToStream looping_host 1000 0 "https://a.example/f" [] = None.
Proof.
  apply (@redirect_cycle_never_returns looping_host
           (fun u => u = "https://a.example/f" \/ u = "https://b.example/g")).
  - intros k url [-> | ->].
    + split; [reflexivity|]. eexists. eexists.
      split; [reflexivity|]. split; [reflexivity|]. split; [discriminate|].
      right. reflexivity.
    + split; [reflexivity|]. eexists. eexists.
      split; [reflexivity|]. split; [reflexivity|]. split; [discriminate|].
      left. reflexivity.
  - left. reflexivity.
Defined.

(** X9.  A request that fails before any response.  When, at the end of any
    redirect chain, the request emits ["error"] in place of a response, so
    that the promise of lines 205-221 is rejected, the call logs [Got error]
    with it, whether or not [verbose] is set, and is rejected with that error;
    nothing was written to the standard output or to the sink and no listener
    of lines 293-309 was attached.  An ["error"] of the request that comes
    once the response is there is another matter: it is an event of the
    transfer, [ReqFailed]. *)
Theorem request_error_fails {host : Host} url hops e :
  redirect_chain 0 url hops ->
  https_request (final_url url hops) = None ->
  net (List.length hops) (final_url url hops) = ReqError e ->
  exists r,
    (forall fuel, (List.length hops < fuel)%nat ->
       downloadToStream fuel 0 url [] = Some r) /\
    outcome r = Failed e /\
    transfer r = None /\
    actions r = (chain_actions url hops
                 ++ [Request (final_url url hops); ConsoleLog (GotError e)])%list /\
    stdout (actions r) = [] /\
    sink_log (actions r) = [] /\
    emitted (actions r) = [].
Proof.
  intros Hchain Hreq Hnet.
  eexists. split; [|split; [|split; [|split; [|split; [|split]]]]].
  - intros fuel Hf.
    replace fuel with (List.length hops + S (fuel - List.length hops - 1))%nat by lia.
    rewrite (chain_followed hops _ 0 url [] Hchain).
    cbn [Nat.add app downloadToStream]. rewrite Hreq, Hnet. reflexivity.
  - reflexivity.
  - reflexivity.
  - cbn [failed actions]. rewrite <- app_assoc. reflexivity.
  - cbn [failed actions]. rewrite !stdout_app, chain_stdout. reflexivity.
  - cbn [failed actions]. rewrite !sink_log_app, chain_sink. reflexivity.
  - cbn [failed actions]. rewrite !emitted_app, chain_emitted. reflexivity.
Qed.

(** A network on which no name resolves. *)
Lemma request_error_fails_witness :
  exists r,
    (forall fuel, (0 < fuel)%nat ->
       @downloadToStream offline_host fuel 0 "https://a.example/f" [] = Some r) /\
    outcome r = Failed (SystemError "ENOTFOUND") /\
    transfer r = None /\
    actions r = [Request "https://a.example/f";
                 ConsoleLog (GotError (SystemError "ENOTFOUND"))] /\
    stdout (actions r) = [] /\
    sink_log (actions r) = [] /\
    emitted (actions r) = [].
Proof.
  exact (@request_error_fails offline_host "https://a.example/f" []
           (SystemError "ENOTFOUND") I eq_refl eq_refl).
Defined.

(** X10.  A redirect target that does not parse.  When, at the end of any
    redirect chain, a response names a redirect target that [new URL] rejects,
    as it rejects every relative reference, the call is rejected with
    [ERR_INVALID_URL] right after the request: the target is not resolved
    against the URL requested, the response is not destroyed and nothing is
    logged for it. *)
Theorem unparsable_redirect_fails {host : Host} url hops res next :
  redirect_chain 0 url hops ->
  https_request (final_url url hops) = None ->
  net (List.length hops) (final_url url hops) = Response res ->
  truthy (header "location" (headers res)) = Some next ->
  URL_parse next = None ->
  exists r,
    (forall fuel, (List.length hops < fuel)%nat ->
       downloadToStream fuel 0 url [] = Some r) /\
    outcome r = Failed (TypeError "ERR_INVALID_URL") /\
    transfer r = None /\
    actions r = (chain_actions url hops ++ [Request (final_url url hops)])%list /\
    destroys (actions r) = List.length hops.
Proof.
  intros Hchain Hreq Hnet Hloc Hp.
  eexists. split; [|split; [|split; [|split]]].
  - intros fuel Hf.
    replace fuel with (List.length hops + S (fuel - List.length hops - 1))%nat by lia.
    rewrite (chain_followed hops _ 0 url [] Hchain).
    cbn [Nat.add app downloadToStream]. rewrite Hreq, Hnet, Hloc, Hp. reflexivity.
  - reflexivity.
  - reflexivity.
  - reflexivity.
  - cbn [failed actions]. rewrite destroys_app, chain_destroys. cbn. lia.
Qed.

(** A redirect to [/g]. *)
Lemma unparsable_redirect_fails_witness :
  exists r,
    (forall fuel, (0 < fuel)%nat ->
       @downloadToStream relative_host fuel 0 "https://a.example/f" [] = Some r) /\
    outcome r = Failed (TypeError "ERR_INVALID_URL") /\
    transfer r = None /\
    actions r = [Request "https://a.example/f"] /\
    destroys (actions r) = 0%nat.
Proof.
  exact (@unparsable_redirect_fails relative_host "https://a.example/f" []
           {| statusCode := 302; headers := [("location", "/g")];
              events := [ResClose] |} "/g"
           I eq_refl eq_refl eq_refl eq_refl).
Defined.

(** X11.  A redirect away from [https].  When, at the end of any redirect
    chain, a response names a redirect target that parses with another
    protocol than [https:], the response is destroyed, and logged with
    [verbose] set, as for any redirect; the call on the target is then
    rejected with [ERR_INVALID_PROTOCOL] and no request is sent to it. *)
Theorem redirect_off_https_fails {host : Host} url hops res next u :
  redirect_chain 0 url hops ->
  https_request (final_url url hops) = None ->
  net (List.length hops) (final_url url hops) = Response res ->
  truthy (header "location" (headers res)) = Some next ->
  URL_parse next = Some u ->
  protocol u <> "https:" ->
  exists r,
    (forall fuel, (S (List.length hops) < fuel)%nat ->
       downloadToStream fuel 0 url [] = Some r) /\
    outcome r = Failed (TypeError "ERR_INVALID_PROTOCOL") /\
    transfer r = None /\
    actions r
    = (chain_actions url hops
       ++ Request (final_url url hops)
          :: (if verbose then [ConsoleLog (RedirectedTo (hostname u))] else [])
          ++ [Destroy])%list /\
    requests (actions r) = url :: map snd hops.
Proof.
  intros Hchain Hreq Hnet Hloc Hp Hproto.
  assert (Hnext : https_request next = Some (TypeError "ERR_INVALID_PROTOCOL")).
  { unfold https_request. rewrite Hp.
    replace (String.eqb (protocol u) "https:") with false; [reflexivity|].
    symmetry. apply String.eqb_neq. exact Hproto. }
  eexists. split; [|split; [|split; [|split]]].
  - intros fuel Hf.
    replace fuel with (List.length hops + S (S (fuel - List.length hops - 2)))%nat
      by lia.
    rewrite (chain_followed hops _ 0 url [] Hchain).
    cbn [Nat.add app downloadToStream]. rewrite Hreq, Hnet, Hloc, Hp, Hnext.
    reflexivity.
  - reflexivity.
  - reflexivity.
  - cbn [failed actions]. destruct verbose; cbn [negb];
      rewrite <- !app_assoc; reflexivity.
  - cbn [failed actions].
    assert (R : forall a b, requests (if negb verbose then a else (a ++ b)%list)
                            = (requests a ++ if verbose then requests b else [])%list).
    { intros a b. destruct verbose; cbn [negb];
        [apply requests_app | rewrite app_nil_r; reflexivity]. }
    rewrite requests_app, R, requests_app. cbn [requests].
    destruct verbose; rewrite !app_nil_r; apply chain_requests.
Qed.

(** A redirect from [https] to plain [http]. *)
Lemma redirect_off_https_fails_witness :
  exists r,
    (forall fuel, (1 < fuel)%nat ->
       @downloadToStream downgrading_host fuel 0 "https://a.example/f" [] = Some r) /\
    outcome r = Failed (TypeError "ERR_INVALID_PROTOCOL") /\
    transfer r = None /\
    actions r = [Request "https://a.example/f";
                 ConsoleLog (RedirectedTo "a.example"); Destroy] /\
    requests (actions r) = ["https://a.example/f"].
Proof.
  exact (@redirect_off_https_fails downgrading_host "https://a.example/f" []
           {| statusCode := 301; headers := [("location", "http://a.example/f")];
              events := [] |} "http://a.example/f"
           {| protocol := "http:"; hostname := "a.example" |}
           I eq_refl eq_refl eq_refl eq_refl ltac:(discriminate)).
Defined.





(** X14.  One diagnostic line per hop.  A completed call that followed a
    redirect chain began with the actions of the chain: per hop the request,
    then, with [verbose] set, one line naming the host of the target as [new
    URL] reads it, then the destruction of the response.  The lines logged for
    the chain are these, in the order of the hops, and none with [verbose]
    unset. *)
Theorem redirects_logged_per_hop {host : Host} fuel url hops r :
  redirect_chain 0 url hops ->
  downloadToStream (List.length hops + fuel) 0 url [] = Some r ->
  (exists rest, actions r = (chain_actions url hops ++ rest)%list) /\
  console_logs (chain_actions url hops)
  = (if verbose then redirect_lines hops else []) /\
  List.length (redirect_lines hops) = List.length hops.
Proof.
  intros Hchain E.
  rewrite (chain_followed hops _ 0 url [] Hchain) in E. cbn [app] in E.
  split; [exact (run_extends _ _ _ _ _ E)|].
  split; [apply chain_logs | exact (redirect_lines_length _ _ _ Hchain)].
Qed.

(** The scenario of the specification: one hop, to [b.example]. *)
Lemma redirects_logged_per_hop_witness :
  let hops := [({| statusCode := 301;
                   headers := [("location", "https://b.example/g")];
                   events := [ResData (bytes 7); ResClose] |},
                "https://b.example/g")] in
  exists r,
    @downloadToStream redirected_host 40 0 "https://a.example/f" [] = Some r /\
    ((exists rest,
        actions r
        = ([Request "https://a.example/f"; ConsoleLog (RedirectedTo "b.example");
            Destroy] ++ rest)%list) /\
     console_logs (@chain_actions redirected_host "https://a.example/f" hops)
     = [RedirectedTo "b.example"] /\
     List.length (@redirect_lines redirected_host hops) = 1%nat).
Proof.
  eexists. split; [vm_compute; reflexivity|].
  match goal with
  | |- (exists rest, actions ?R = _) /\ _ =>
      pose proof (@redirects_logged_per_hop redirected_host 39 "https://a.example/f"
                    [({| statusCode := 301;
                         headers := [("location", "https://b.example/g")];
                         events := [ResData (bytes 7); ResClose] |},
                      "https://b.example/g")] R
                    ltac:(cbn [redirect_chain]; repeat split; try reflexivity;
                          discriminate)
                    ltac:(vm_compute; reflexivity)) as H
  end.
  vm_compute in H. vm_compute. exact H.
Defined.

(** X15.  The declared total is read by [parseInt].  A [content-length] header
    that starts with the decimal digits of [n], followed by nothing or by
    anything that is not a digit, gives the transfer the total [n]: text after
    the number is ignored.  Up to 2^53 the total is [n] itself, without
    rounding. *)
Theorem content_length_is_read {host : Host} res n rest :
  header "content-length" (headers res) = Some (decimal n ++ rest) ->
  match rest with String c _ => digit_of c = None | EmptyString => True end ->
  (n <= 2 ^ 53)%N ->
  totalSize (initial_state res) = of_Z (Z.of_N n) /\
  of_Z (Z.of_N n) = Fin false (inject_Z (Z.of_N n)).
Proof.
  intros Hh Hrest Hn. split.
  - unfold initial_state. cbn [totalSize]. rewrite Hh.
    destruct (decimal_head n) as (c & s & d & E & _).
    assert (T : truthy (Some (decimal n ++ rest)) = Some (decimal n ++ rest)).
    { rewrite E. reflexivity. }
    rewrite T. apply parseInt_decimal. exact Hrest.
  - apply of_Z_nonneg. change (2 ^ 53) with (Z.of_N (2 ^ 53)). lia.
Qed.

(** A header that reads [2560 bytes]. *)
Lemma content_length_is_read_witness :
  totalSize (@initial_state
               {| statusCode := 200;
                  headers := [("content-length", "2560 bytes")];
                  events := [] |}) = of_Z 2560 /\
  of_Z 2560 = Fin false (inject_Z 2560).
Proof.
  exact (@content_length_is_read redirected_host
           {| statusCode := 200; headers := [("content-length", "2560 bytes")];
              events := [] |} 2560 " bytes"
           eq_refl eq_refl ltac:(vm_compute; discriminate)).
Defined.

(** X16.  The bar is redrawn when the unit count changes, and only then.  On a
    transfer that declared [n >= 1] bytes and has received [d], a chunk that
    takes the count of line 284 to a new value makes [onData] draw the bar
    once, for the new count and with the new byte total in the suffix; a chunk
    that leaves the count as it is draws nothing.  Either way the chunk is
    handed to the sink after that, and nothing else is done. *)
Theorem redraw_on_change_only {host : Host} fuel h (data : Buffer) n d :
  state h = progress_state n d ->
  1 <= n -> 0 <= d ->
  100 * (d + Z.of_nat (List.length data)) <= 2 ^ 53 ->
  (Z.to_nat (dotsZ n (d + Z.of_nat (List.length data)) / 8) + 16 <= fuel)%nat ->
  exists h',
    onData fuel data h = Some (Normal tt, h') /\
    state h' = progress_state n (d + Z.of_nat (List.length data)) /\
    trace h'
    = (trace h
       ++ (if (dotsZ n d =? dotsZ n (d + Z.of_nat (List.length data)))%Z then []
           else StdoutWrite (CR ++ start theme)
                :: map StdoutWrite
                     (bar 13 (dotsZ n (d + Z.of_nat (List.length data))))
                ++ [StdoutWrite
                      (end_ theme ++ " "
                       ++ formatSize (of_Z (d + Z.of_nat (List.length data)))
                       ++ " / " ++ formatSize (of_Z n))])
       ++ [SinkWrite data])%list.
Proof.
  intros Hs Hn Hd Hb Hf.
  pose proof (onData_progress fuel h data n d Hs Hn Hd ltac:(lia) ltac:(lia) Hf) as E.
  cbv zeta in E. eexists. split; [exact E|]. split; [reflexivity|].
  unfold record, with_state. cbn [trace]. reflexivity.
Qed.

(** After 256 of 2560 bytes, one more byte leaves the count at 10: nothing
    is drawn. *)
Lemma redraw_on_change_only_witness :
  let h := {| state := progress_state 2560 256; promise := Pending; trace := [] |} in
  exists h',
    onData (host := redirected_host) 28 (bytes 1) h = Some (Normal tt, h') /\
    state h' = progress_state 2560 257 /\
    trace h' = [SinkWrite (bytes 1)].
Proof.
  exact (@redraw_on_change_only redirected_host 28
           {| state := progress_state 2560 256; promise := Pending; trace := [] |}
           (bytes 1) 2560 256 eq_refl ltac:(lia) ltac:(lia)
           ltac:(vm_compute; discriminate) ltac:(vm_compute; lia)).
Defined.

(** X17.  The layout of the bar, and its width past the budget.  For every
    whole unit count [u] up to 2^53, [showProgress] writes the start marker,
    then one full block for every 8 units, one partial glyph for the units
    that remain, if any, and blanks up to 13 cells, then the end marker with
    the suffix.  Nothing caps the count at the budget of 100: from 105 units
    on the bar has more than 13 cells, one for every 8 units begun. *)
Theorem bar_layout {host : Host} fuel h u :
  currentDots (state h) = of_Z u ->
  totalDots (state h) = of_Z 100 ->
  0 <= u <= 2 ^ 53 ->
  (Z.to_nat (u / 8) + 16 <= fuel)%nat ->
  let cells :=
    (List.repeat "█" (Z.to_nat (u / 8))
     ++ (if (u mod 8 =? 0)%Z then []
         else [List.nth (Z.to_nat (u mod 8)) (chunks theme) ""])
     ++ List.repeat " " (Z.to_nat (13 - (u + 7) / 8)))%list in
  showProgress fuel h
  = Some (Normal tt,
          record (StdoutWrite (CR ++ start theme)
                  :: map StdoutWrite cells
                  ++ [StdoutWrite (end_ theme ++ " " ++ suffix_of (state h))])%list
            h) /\
  Z.of_nat (List.length cells) = Z.max 13 ((u + 7) / 8).
Proof.
  intros Hc Ht Hu Hf cells. split.
  - rewrite (showProgress_int fuel h u Hc Ht Hu Hf).
    unfold rendering, bar, drawn, cells. rewrite <- app_assoc. reflexivity.
  - unfold cells. rewrite !length_app, !repeat_length.
    assert (L : List.length (if (u mod 8 =? 0)%Z then []
                             else [List.nth (Z.to_nat (u mod 8)) (chunks theme) ""])
                = if (u mod 8 =? 0)%Z then 0%nat else 1%nat)
      by (destruct (u mod 8 =? 0)%Z; reflexivity).
    rewrite L.
    destruct (u mod 8 =? 0)%Z eqn:M; [apply Z.eqb_eq in M | apply Z.eqb_neq in M];
      Z.to_euclidean_division_equations; lia.
Qed.

(** Two bytes received of one declared: 200 units, 25 cells. *)
Lemma bar_layout_witness :
  let h := {| state := set_currentDots (of_Z 200) (progress_state 1 2);
              promise := Pending; trace := [] |} in
  showProgress (host := redirected_host) 41 h
  = Some (Normal tt,
          record (StdoutWrite (CR ++ start theme)
                  :: map StdoutWrite (List.repeat "█" 25)
                  ++ [StdoutWrite (end_ theme ++ " "
                                   ++ suffix_of (host := redirected_host) (state h))])%list
            h) /\
  Z.of_nat (List.length (List.repeat "█" 25)) = 25.
Proof.
  exact (@bar_layout redirected_host 41
           {| state := set_currentDots (of_Z 200) (progress_state 1 2);
              promise := Pending; trace := [] |} 200
           eq_refl eq_refl ltac:(lia) ltac:(vm_compute; lia)).
Defined.

(** X28.  The unit count never decreases.  At any point of a transfer that
    declared [n] bytes, [1 <= n <= 2^53], for every sequence of chunks, as
    long as 100 times the bytes received fits in 2^53: every chunk is
    processed and the count left in [state.currentDots] after each chunk is
    at least the one before.  After the last chunk it is the count of line
    284 for the bytes received.  Once the bytes received reach the declared
    total the count is at least 100, and nothing keeps it there if more
    arrive. *)
Theorem unit_count_never_decreases {host : Host} h n d body :
  state h = progress_state n d ->
  1 <= n <= 2 ^ 53 -> 0 <= d ->
  100 * (d + size body) <= 2 ^ 53 ->
  exists zs,
    (forall fuel,
       (Z.to_nat (dotsZ n (d + size body) / 8) + 16 <= fuel)%nat ->
       dots_after fuel body h = Some (map of_Z zs)) /\
    Sorted Z.le (dotsZ n d :: zs) /\
    last zs (dotsZ n d) = dotsZ n (d + size body) /\
    (n <= d + size body -> 100 <= dotsZ n (d + size body)).
Proof.
  intros Hs Hn Hd Hb. pose proof (size_nonneg body) as Hsz.
  exists (dots_list n d body). split; [|split; [|split]].
  - intros fuel Hf. apply (dots_after_progress n body h d); try assumption; lia.
  - apply dots_list_sorted; lia.
  - apply dots_list_last.
  - intros Hfull. rewrite <- (dotsZ_full n Hn). apply dotsZ_mono; lia.
Qed.

(** One byte declared, two chunks of one byte: 100 units, then 200. *)
Lemma unit_count_never_decreases_witness :
  let h := {| state := progress_state 1 0; promise := Pending; trace := [] |} in
  exists zs,
    (forall fuel,
       (41 <= fuel)%nat ->
       dots_after (host := oversized_host) fuel [bytes 1; bytes 1] h
       = Some (map of_Z zs)) /\
    Sorted Z.le (0 :: zs) /\
    last zs 0 = 200 /\
    (1 <= 2 -> 100 <= 200).
Proof.
  pose proof (@unit_count_never_decreases oversized_host
                {| state := progress_state 1 0; promise := Pending; trace := [] |}
                1 0 [bytes 1; bytes 1] eq_refl ltac:(lia) ltac:(lia)
                ltac:(vm_compute; discriminate)) as H.
  replace (dotsZ 1 (0 + size [bytes 1; bytes 1])) with 200 in H
    by (vm_compute; reflexivity).
  replace (dotsZ 1 0) with 0 in H by (vm_compute; reflexivity).
  exact H.
Defined.

End DownloadProperties.

(** ** Properties of [formatSize] and [formatPercent] *)

Module Formatting.

Import Binary64 Binary64Facts JsNum JsNumFacts DotsFacts Download Format FormatFacts.
Local Open Scope string_scope.
Local Open Scope Z_scope.

Section WithHost.

Context {host : Host}.

Lemma MiB_value : mul (of_Z 1024) (of_Z 1024) = of_Z 1048576.
Proof. vm_compute. reflexivity. Qed.

(** [toFixed] on a quotient below [10^21]. *)
Lemma toFixed_quotient q b (d : positive) f :
  standard_format host ->
  (q == inject_Z b / inject_Z (Z.pos d))%Q -> (0 <= b <= 2 ^ 53) ->
  toFixed (Fin false q) f
  = fixed f (Z.to_N ((2 * b * 10 ^ Z.of_nat f + Z.pos d) / (2 * Z.pos d))).
Proof.
  intros [Hfix _] E Hb. rewrite Hfix. unfold Number_toFixed. cbn [andb append].
  assert (Hq : (q <= inject_Z (2 ^ 53))%Q).
  { rewrite E. apply Qle_shift_div_r.
    - change 0%Q with (inject_Z 0). rewrite <- Zlt_Qlt. lia.
    - rewrite <- inject_Z_mult, <- Zle_Qle. nia. }
  assert (Qle_bool (inject_Z (10 ^ 21)) q = false) as ->.
  { apply not_true_is_false. intros H. apply Qle_bool_iff in H.
    assert (inject_Z (10 ^ 21) <= inject_Z (2 ^ 53))%Q by (eapply Qle_trans; eassumption).
    rewrite <- Zle_Qle in H0. revert H0. vm_compute. intros H0. apply H0. reflexivity. }
  rewrite (half_up_floor q b d _ E). reflexivity.
Qed.

End WithHost.

(** X18.  [formatSize] on a whole number of bytes.  With the number formatting
    of the language, for every integer [b] a double holds exactly: above 1 MiB
    the size is shown in MiB with two decimals, above 1 KiB in KiB without
    decimals, and otherwise in bytes, as it is.  Both comparisons are strict,
    so 1024 bytes show as [1024 B] and 1 MiB as [1024 KiB].  The number shown
    is the quotient rounded to the nearest last digit, halves up; the division
    loses nothing. *)
Theorem formatSize_of_bytes {host : Host} b :
  standard_format host ->
  - 2 ^ 53 <= b <= 2 ^ 53 ->
  formatSize (of_Z b)
  = if 1048576 <? b then
      let n := Z.to_N ((200 * b + 1048576) / 2097152) in
      decimal (n / 100) ++ "." ++ two_digits (n mod 100) ++ " MiB"
    else if 1024 <? b then
      decimal (Z.to_N ((2 * b + 1024) / 2048)) ++ " KiB"
    else
      (if b <? 0 then "-" else "") ++ decimal (Z.to_N (Z.abs b)) ++ " B".
Proof.
  intros Hstd Hb. unfold formatSize. rewrite MiB_value.
  rewrite !gt_int by lia.
  destruct (1048576 <? b) eqn:M; [apply Z.ltb_lt in M|apply Z.ltb_ge in M].
  - pose proof (div_pow2 b 20 ltac:(lia) ltac:(lia)) as D.
    change (2 ^ 20) with 1048576 in D. destruct D as (q & -> & E).
    rewrite (toFixed_quotient q b 1048576 2 Hstd E ltac:(lia)).
    cbv zeta. rewrite fixed_two.
    change (10 ^ Z.of_nat 2) with 100.
    replace (2 * b * 100 + Z.pos 1048576) with (200 * b + 1048576) by lia.
    change (2 * Z.pos 1048576) with 2097152.
    rewrite !FormatFacts.append_assoc. reflexivity.
  - destruct (1024 <? b) eqn:K; [apply Z.ltb_lt in K|apply Z.ltb_ge in K].
    + pose proof (div_pow2 b 10 ltac:(lia) ltac:(lia)) as D.
      change (2 ^ 10) with 1024 in D. destruct D as (q & -> & E).
      rewrite (toFixed_quotient q b 1024 0 Hstd E ltac:(lia)).
      rewrite fixed_zero. change (10 ^ Z.of_nat 0) with 1.
      replace (2 * b * 1 + Z.pos 1024) with (2 * b + 1024) by lia.
      reflexivity.
    + destruct Hstd as [_ Hstr]. rewrite Hstr.
      rewrite (of_Z_fin b) by lia. unfold Number_toString.
      rewrite Qfloor_Z.
      assert (Qeq_bool (inject_Z (Z.abs b)) (inject_Z (Z.abs b)) = true) as ->
        by (apply Qeq_bool_iff; reflexivity).
      assert (Qle_bool (inject_Z (Z.abs b)) (inject_Z (2 ^ 53)) = true) as ->
        by (rewrite Qle_bool_Z; apply Z.leb_le; lia).
      cbn [andb].
      assert (S : (b <? 0) && negb (Qeq_bool (inject_Z (Z.abs b)) 0) = (b <? 0)).
      { change 0%Q with (inject_Z 0). rewrite Qeq_bool_Z.
        destruct (b <? 0) eqn:N; [|reflexivity]. apply Z.ltb_lt in N.
        replace (Z.abs b =? 0) with false by (symmetry; apply Z.eqb_neq; lia).
        reflexivity. }
      rewrite S, FormatFacts.append_assoc. reflexivity.
Qed.

(** 1536 bytes are [2 KiB]; 123456789 bytes are [117.74 MiB]. *)
Lemma formatSize_of_bytes_witness :
  @formatSize (js_host false (serving [])) (of_Z 1536) = "2 KiB" /\
  @formatSize (js_host false (serving [])) (of_Z 123456789) = "117.74 MiB" /\
  @formatSize (js_host false (serving [])) (of_Z 1024) = "1024 B".
Proof.
  pose proof (js_host_standard false (serving [])) as S.
  split; [|split].
  - exact (@formatSize_of_bytes (js_host false (serving [])) 1536 S
             ltac:(vm_compute; split; discriminate)).
  - exact (@formatSize_of_bytes (js_host false (serving [])) 123456789 S
             ltac:(vm_compute; split; discriminate)).
  - exact (@formatSize_of_bytes (js_host false (serving [])) 1024 S
             ltac:(vm_compute; split; discriminate)).
Defined.

(** X19.  A transfer without a declared length shows [NaN B].  With the number
    formatting of the language, when the response has no [content-length]
    header, or an empty one, the suffix of the first progress line reads [0 B
    / NaN B], and [NaN B] is the size the final report names. *)
Theorem no_length_shows_NaN {host : Host} res :
  standard_format host ->
  truthy (header "content-length" (headers res)) = None ->
  suffix_of (initial_state res) = "0 B / NaN B" /\
  formatSize (totalSize (initial_state res)) = "NaN B".
Proof.
  intros Hstd Hh.
  assert (T : totalSize (initial_state res) = NaN).
  { unfold initial_state. cbn [totalSize]. rewrite Hh. reflexivity. }
  assert (N : formatSize NaN = "NaN B").
  { unfold formatSize. rewrite MiB_value.
    rewrite (of_Z_nonneg 1048576), (of_Z_nonneg 1024) by lia. cbn [gt lt].
    destruct Hstd as [_ Hstr]. rewrite Hstr. reflexivity. }
  unfold suffix_of. rewrite T, N. split; [|reflexivity].
  change (doneSize (initial_state res)) with (of_Z 0).
  rewrite (formatSize_of_bytes 0 Hstd) by lia. reflexivity.
Qed.

(** A chunked response. *)
Lemma no_length_shows_NaN_witness :
  let res := {| statusCode := 200; headers := [("transfer-encoding", "chunked")];
                events := [] |} in
  @suffix_of (js_host false (serving [])) (@initial_state res) = "0 B / NaN B" /\
  @formatSize (js_host false (serving [])) (totalSize (@initial_state res)) = "NaN B".
Proof.
  exact (@no_length_shows_NaN (js_host false (serving []))
           {| statusCode := 200; headers := [("transfer-encoding", "chunked")];
              events := [] |}
           (js_host_standard false (serving [])) eq_refl).
Defined.

(** X20.  [formatPercent] on a fraction.  With the number formatting of the
    language, for every number [x] from 0 to 1 the result is a percentage from
    [0.00%] to [100.00%] with exactly two decimals: the digits of [n / 100], a
    point, the two digits of [n mod 100] and the percent sign, where [n <=
    10000] is [x * 100], as a double, times 100 and rounded to the nearest
    integer, halves up. *)
Theorem formatPercent_of_fraction {host : Host} m :
  standard_format host ->
  (0 <= m <= 1)%Q ->
  let n := Z.to_N (Qfloor (fl (m * inject_Z 100) * inject_Z 100 + (1 # 2))) in
  formatPercent (Fin false m)
  = decimal (n / 100) ++ "." ++ two_digits (n mod 100) ++ "%" /\
  (n <= 10000)%N.
Proof.
  intros [Hfix _] Hm n.
  assert (P : (fl (m * inject_Z 100) <= inject_Z 100)%Q).
  { apply fl_le_int; [lia|]. change (inject_Z 100) with (100 # 1)%Q. lra. }
  pose proof (fl_nonneg (m * inject_Z 100)) as P0.
  split.
  - unfold formatPercent. rewrite (of_Z_nonneg 100) by lia.
    unfold mul. cbn [xorb]. unfold round.
    rewrite overflows_small
      by (eapply Qle_trans; [exact P | rewrite <- Zle_Qle; lia]).
    rewrite Hfix. unfold Number_toFixed. cbn [andb append].
    assert (Qle_bool (inject_Z (10 ^ 21)) (fl (m * inject_Z 100)) = false) as ->.
    { apply not_true_is_false. intros H. apply Qle_bool_iff in H.
      assert (H0 : (inject_Z (10 ^ 21) <= inject_Z 100)%Q)
        by (eapply Qle_trans; eassumption).
      rewrite <- Zle_Qle in H0. revert H0. vm_compute. intros H0. apply H0.
      reflexivity. }
    change (10 ^ Z.of_nat 2) with 100. fold n. rewrite fixed_two.
    rewrite !FormatFacts.append_assoc. reflexivity.
  - unfold n.
    assert (B : (fl (m * inject_Z 100) * inject_Z 100 + (1 # 2)
                 <= inject_Z 10000 + (1 # 2))%Q).
    { change (inject_Z 10000) with (inject_Z 100 * inject_Z 100)%Q.
      change (inject_Z 100) with (100 # 1)%Q in *. nra. }
    apply Qfloor_resp_le in B.
    assert (F : Qfloor (inject_Z 10000 + (1 # 2)) = 10000) by reflexivity.
    rewrite F in B. lia.
Qed.

(** A third is [33.33%]; a two-hundredth is [0.50%]. *)
Lemma formatPercent_of_fraction_witness :
  @formatPercent (js_host false (serving [])) (Fin false (1 # 3)) = "33.33%" /\
  @formatPercent (js_host false (serving [])) (Fin false (1 # 200)) = "0.50%".
Proof.
  split.
  - exact (proj1 (@formatPercent_of_fraction (js_host false (serving [])) (1 # 3)
                    (js_host_standard false (serving []))
                    ltac:(split; vm_compute; discriminate))).
  - exact (proj1 (@formatPercent_of_fraction (js_host false (serving [])) (1 # 200)
                    (js_host_standard false (serving []))
                    ltac:(split; vm_compute; discriminate))).
Defined.

End Formatting.

(** ** Properties of the shell helpers *)

Module ShellProperties.

Import Shell.
Local Open Scope string_scope.

Lemma js_length_append a b : js_length (a ++ b) = (js_length a + js_length b)%nat.
Proof.
  induction a as [|c a IH]; [reflexivity|]. cbn [append js_length]. rewrite IH.
  apply Nat.add_assoc.
Qed.

Lemma js_length_repeat s n : js_length (repeat_string s n) = (n * js_length s)%nat.
Proof.
  induction n as [|n IH]; [reflexivity|].
  cbn [repeat_string]. rewrite js_length_append, IH. reflexivity.
Qed.

(** X21.  The rule of a header fits its line.  [header] logs five lines: an
    empty one, a rule, the line between two blanks, the rule again and an
    empty one, the three in the middle in blue.  The rule has as many code
    units as the line with its blanks, that is, the [length] of the line plus
    two, whatever characters the line holds. *)
Theorem header_rule_fits line w :
  let rule := repeat_string "―" (js_length line + 2) in
  header line w
  = Some (Return tt,
          {| verbose := verbose w; cwd := cwd w; env := env w; answers := answers w;
             out := (out w ++ [Log []; Log [chalk.blue rule];
                               Log [chalk.blue (" " ++ line ++ " ")];
                               Log [chalk.blue rule]; Log []])%list |}) /\
  js_length rule = js_length (" " ++ line ++ " ") /\
  js_length (chalk.blue rule) = js_length (chalk.blue (" " ++ line ++ " ")).
Proof.
  intros rule.
  assert (L : js_length rule = js_length (" " ++ line ++ " ")).
  { unfold rule. rewrite js_length_repeat, !js_length_append.
    change (js_length "―") with 1%nat. change (js_length " ") with 1%nat. lia. }
  split; [|split; [exact L|]].
  - unfold header, bind, console_log, record. cbn [verbose cwd env answers out].
    rewrite <- !app_assoc. reflexivity.
  - unfold chalk.blue. rewrite !js_length_append, L, !js_length_append. reflexivity.
Qed.

(** X22.  [detectOS] knows three platforms.  It returns [windows] for [win32]
    and the platform's own name for [darwin] and [linux]; on any other
    platform it throws an error that names the platform.  It changes nothing. *)
Theorem detectOS_knows_three {os : Platform} w :
  exists r,
    detectOS w = Some (r, w) /\
    match r with
    | Return name =>
        In (platform, name)
          [("win32", "windows"); ("darwin", "darwin"); ("linux", "linux")]
    | Throw e =>
        e = Download.Error ("Unsupported process.platform: " ++ platform) /\
        platform <> "win32" /\ platform <> "darwin" /\ platform <> "linux"
    | Exit _ => False
    end.
Proof.
  unfold detectOS.
  destruct (String.eqb platform "win32") eqn:E1.
  { apply String.eqb_eq in E1. eexists. split; [reflexivity|].
    rewrite E1. left. reflexivity. }
  destruct (String.eqb platform "darwin") eqn:E2.
  { apply String.eqb_eq in E2. eexists. split; [reflexivity|].
    rewrite E2. right. left. reflexivity. }
  destruct (String.eqb platform "linux") eqn:E3.
  { apply String.eqb_eq in E3. eexists. split; [reflexivity|].
    rewrite E3. right. right. left. reflexivity. }
  apply String.eqb_neq in E1, E2, E3.
  eexists. split; [reflexivity|]. repeat split; assumption.
Qed.

(** X23.  [debug] follows the flag.  After [setVerbose(v)], [isVerbose()]
    returns [v], and [debug] logs its arguments when [v] is true and does
    nothing when it is false; in a process that has just loaded the module,
    where nothing has set the flag, [debug] does nothing. *)
Theorem debug_follows_setVerbose v arguments w dir e lines :
  (setVerbose v ;; isVerbose) w
  = Some (Return v,
          {| verbose := v; cwd := cwd w; env := env w; answers := answers w;
             out := out w |}) /\
  (setVerbose v ;; debug arguments) w
  = Some (Return tt,
          {| verbose := v; cwd := cwd w; env := env w; answers := answers w;
             out := (out w ++ if v then [Log arguments] else [])%list |}) /\
  debug arguments (loaded dir e lines) = Some (Return tt, loaded dir e lines).
Proof.
  split; [reflexivity|]. split; [|reflexivity].
  unfold bind, setVerbose, debug. cbn [verbose negb].
  destruct v; cbn [negb]; [reflexivity|].
  unfold ret. rewrite app_nil_r. reflexivity.
Qed.

(** X24.  [confirm] goes on for [y] and for nothing else.  When a line is
    entered, [confirm] writes the question in green, followed by [(y/N): ],
    and takes that line: if it is exactly [y] the call returns; for any other
    line, [Y] and [yes] included, it logs [Bailing out] and ends the process
    with status 1. *)
Theorem confirm_takes_only_y msg w line rest :
  answers w = line :: rest ->
  confirm msg w
  = Some (if String.eqb "y" line then Return tt else Exit 1,
          {| verbose := verbose w; cwd := cwd w; env := env w; answers := rest;
             out := (out w
                     ++ Write (chalk.green (msg ++ " (y/N): "))
                        :: if String.eqb "y" line then []
                           else [Log ["Bailing out"]])%list |}).
Proof.
  intros Ha. unfold confirm, yesno, bind at 1, bind at 1, prompt. rewrite Ha.
  unfold ret. destruct (String.eqb "y" line).
  - rewrite FormatFacts.append_assoc. reflexivity.
  - unfold bind, console_log, process_exit, record. cbn [verbose cwd env answers out].
    rewrite <- app_assoc, FormatFacts.append_assoc. reflexivity.
Qed.

(** The answer [Y]. *)
Lemma confirm_takes_only_y_witness :
  confirm "Deploy" (loaded "/home" (fun _ => None) ["Y"])
  = Some (Exit 1,
          {| verbose := false; cwd := "/home"; env := fun _ => None; answers := [];
             out := [Write (chalk.green "Deploy (y/N): "); Log ["Bailing out"]] |}).
Proof.
  exact (confirm_takes_only_y "Deploy"
           (loaded "/home" (fun _ => None) ["Y"]) "Y" [] eq_refl).
Defined.

(** X25.  [cd] leaves as it entered.  When the directory can be entered, [f]
    runs there, after the line [entering]; once [f] has returned or thrown,
    the line [leaving] is logged and the working directory is the one [cd] was
    called from, whatever [f] did to it, provided that directory can be
    entered again; the result or the error of [f] is that of [cd], and what
    else [f] changed stays changed.  If [f] ends the process, nothing is
    logged or restored after it. *)
Theorem cd_leaves_as_it_entered {os : Platform} {T} dir (f : Sh T) w d r w2 :
  chdir (cwd w) dir = inr d ->
  f {| verbose := verbose w; cwd := d; env := env w; answers := answers w;
       out := (out w ++ [Log [chalk.magenta ("☞ entering " ++ dir)]])%list |}
  = Some (r, w2) ->
  chdir (cwd w2) (cwd w) = inr (cwd w) ->
  cd dir f w
  = Some (r,
          match r with
          | Exit _ => w2
          | _ =>
              {| verbose := verbose w2; cwd := cwd w; env := env w2;
                 answers := answers w2;
                 out := (out w2 ++ [Log [chalk.magenta ("☜ leaving " ++ dir)]])%list |}
          end).
Proof.
  intros Hin Hf Hout.
  unfold cd, bind at 1, process_cwd. unfold bind at 1, console_log at 1.
  unfold bind at 1, process_chdir at 1. cbn [record cwd verbose env answers out].
  rewrite Hin. unfold finally. rewrite Hf.
  destruct r as [a|e|c]; [| |reflexivity];
    unfold bind, console_log, process_chdir, record;
    cbn [cwd verbose env answers out]; rewrite Hout; reflexivity.
Qed.

(** A function that changes directory again and then throws. *)
Lemma cd_leaves_as_it_entered_witness :
  @cd (posix ["/home"; "/home/build"; "/tmp"] pwd) unit "build"
    (process_chdir (os := posix ["/home"; "/home/build"; "/tmp"] pwd) "/tmp" ;;
     throw (Download.Error "boom"))
    (loaded "/home" (fun _ => None) [])
  = Some (Throw (Download.Error "boom"),
          {| verbose := false; cwd := "/home"; env := fun _ => None; answers := [];
             out := [Log [chalk.magenta "☞ entering build"];
                     Log [chalk.magenta "☜ leaving build"]] |}).
Proof.
  exact (@cd_leaves_as_it_entered (posix ["/home"; "/home/build"; "/tmp"] pwd) unit
           "build"
           (process_chdir (os := posix ["/home"; "/home/build"; "/tmp"] pwd) "/tmp" ;;
            throw (Download.Error "boom"))
           (loaded "/home" (fun _ => None) []) "/home/build"
           (Throw (Download.Error "boom")) _ eq_refl eq_refl eq_refl).
Defined.

(** X26.  A directory that cannot be entered.  When [process.chdir(dir)]
    throws, [cd] fails with that error after the line [entering]: [f] is not
    run, no line [leaving] is logged, and the working directory is the one
    [cd] was called from. *)
Theorem cd_cannot_enter {os : Platform} {T} dir (f : Sh T) w e :
  chdir (cwd w) dir = inl e ->
  cd dir f w
  = Some (Throw e,
          {| verbose := verbose w; cwd := cwd w; env := env w; answers := answers w;
             out := (out w ++ [Log [chalk.magenta ("☞ entering " ++ dir)]])%list |}).
Proof.
  intros Hin.
  unfold cd, bind at 1, process_cwd. unfold bind at 1, console_log at 1.
  unfold bind at 1, process_chdir at 1. cbn [record cwd verbose env answers out].
  rewrite Hin. reflexivity.
Qed.

(** A directory that does not exist; the function would have exited. *)
Lemma cd_cannot_enter_witness :
  @cd (posix ["/home"] pwd) unit "build" (process_exit 3)
    (loaded "/home" (fun _ => None) [])
  = Some (Throw (Download.SystemError "ENOENT"),
          {| verbose := false; cwd := "/home"; env := fun _ => None; answers := [];
             out := [Log [chalk.magenta "☞ entering build"]] |}).
Proof.
  exact (@cd_cannot_enter (posix ["/home"] pwd) unit "build" (process_exit 3)
           (loaded "/home" (fun _ => None) []) (Download.SystemError "ENOENT")
           eq_refl).
Defined.

(** X27.  A command sees the directory entered and the variables exported.  A
    command run by [$$] inside [cd], after a [setenv], is started in the
    directory [cd] entered and with the variable set in its environment, and
    its output is what the whole call returns; with [silent] the command line
    is not echoed.  Afterwards the working directory is the former one, and
    the variable is still set: [cd] restores the directory, not the
    environment. *)
Theorem command_sees_directory_and_environment {os : Platform}
    dir k v cmd w d o :
  let c :=
    {| file := if String.eqb platform "win32" then "bash" else cmd;
       input := if String.eqb platform "win32" then Some cmd else None;
       stdio := [if String.eqb platform "win32" then "pipe" else "inherit";
                 "pipe"; "inherit"];
       encoding := Some "utf8";
       at_cwd := d;
       with_env := fun k' => if String.eqb k' k then Some v else env w k' |} in
  chdir (cwd w) dir = inr d ->
  chdir d (cwd w) = inr (cwd w) ->
  execSync c = inr o ->
  exists w',
    cd dir (setenv k v ;; dollar_dollar cmd (Some true)) w = Some (Return o, w') /\
    cwd w' = cwd w /\
    env w' k = Some v /\
    out w'
    = (out w ++ [Log [chalk.magenta ("☞ entering " ++ dir)];
                 Log [("export " ++ chalk.green k ++ "=" ++ chalk.yellow v)%string];
                 Exec c;
                 Log [chalk.magenta ("☜ leaving " ++ dir)]])%list.
Proof.
  intros c Hin Hout Hrun.
  assert (Hf : (setenv k v ;; dollar_dollar cmd (Some true))
                 {| verbose := verbose w; cwd := d; env := env w;
                    answers := answers w;
                    out := (out w ++ [Log [chalk.magenta ("☞ entering " ++ dir)]])%list |}
               = Some (Return o,
                       {| verbose := verbose w; cwd := d;
                          env := fun k' => if String.eqb k' k then Some v else env w k';
                          answers := answers w;
                          out := (out w
                                  ++ [Log [chalk.magenta ("☞ entering " ++ dir)];
                                      Log [("export " ++ chalk.green k ++ "="
                                            ++ chalk.yellow v)%string];
                                      Exec c])%list |})).
  { unfold c in *. clear c.
    unfold setenv, dollar_dollar, bind, console_log, record, ret.
    cbn [negb verbose cwd env answers out].
    destruct (String.eqb platform "win32");
      unfold child; cbn [verbose cwd env answers out]; rewrite Hrun;
      unfold record; cbn [verbose cwd env answers out];
      rewrite <- !app_assoc; reflexivity. }
  eexists. split; [|split; [|split]].
  - unfold cd, bind at 1, process_cwd. unfold bind at 1, console_log at 1.
    unfold bind at 1, process_chdir at 1. cbn [record cwd verbose env answers out].
    rewrite Hin. unfold finally. rewrite Hf.
    unfold bind, console_log, process_chdir, record.
    cbn [cwd verbose env answers out]. rewrite Hout. reflexivity.
  - reflexivity.
  - cbn [env]. rewrite String.eqb_refl. reflexivity.
  - cbn [out]. rewrite <- !app_assoc. reflexivity.
Qed.

(** [pwd] in [build], with [STAGE] exported. *)
Lemma command_sees_directory_and_environment_witness :
  exists w',
    @cd (posix ["/home"; "/home/build"] pwd) string "build"
      (setenv "STAGE" "ci" ;;
       dollar_dollar (os := posix ["/home"; "/home/build"] pwd) "pwd" (Some true))
      (loaded "/home" (fun _ => None) [])
    = Some (Return "/home/build", w') /\
    cwd w' = "/home" /\
    env w' "STAGE" = Some "ci" /\
    out w'
    = [Log [chalk.magenta "☞ entering build"];
       Log ["export " ++ chalk.green "STAGE" ++ "=" ++ chalk.yellow "ci"];
       Exec {| file := "pwd"; input := None;
               stdio := ["inherit"; "pipe"; "inherit"]; encoding := Some "utf8";
               at_cwd := "/home/build";
               with_env := fun k' => if String.eqb k' "STAGE" then Some "ci"
                                      else None |};
       Log [chalk.magenta "☜ leaving build"]].
Proof.
  exact (@command_sees_directory_and_environment (posix ["/home"; "/home/build"] pwd)
           "build" "STAGE" "ci" "pwd" (loaded "/home" (fun _ => None) [])
           "/home/build" "/home/build" eq_refl eq_refl eq_refl).
Defined.

End ShellProperties.
